(** * Fallback orchestration for video transcription

    A shallow embedding of the decision logic of the transcription scripts
    ([transcribe_youtube.py], [transcribe_youtube_smart.py],
    [transcribe_youtube_ytdlp.py]) together with the properties their
    specification states about them.

    Conventions.
    - A Python [str] is a [string]; one [ascii] stands for one character,
      read as a code point below 256.
    - Calls that leave the process (subprocesses, the inference service,
      the clock, the random source, the terminal) are primitives of an
      abstract world that is threaded through the code.
    - A Python exception is a value of the result type.

    The first part of the file holds the model, the second part the
    theorems. *)

From Stdlib Require Import ZArith QArith Qround Qpower Qabs Lia Lqa.
From Stdlib Require Import Ascii String List Bool.
From Stdlib Require Import DecimalString.
From stdpp Require Import gmap strings.

#[local] Open Scope nat_scope.

(* ================================================================== *)
(** * Part I. The model                                                *)
(* ================================================================== *)

(** ** Python string operations used by the scripts *)

Module PyStr.

Definition code (c : ascii) : N := N_of_ascii c.

Definition between (lo hi : N) (c : ascii) : bool :=
  ((lo <=? code c) && (code c <=? hi))%N.

(** [str.isspace] on one character: the characters that [str.split()]
    and [str.strip()] treat as whitespace. *)
Definition isspace (c : ascii) : bool :=
  between 9 13 c || between 28 32 c || (code c =? 133)%N || (code c =? 160)%N.

Definition is_digit (c : ascii) : bool := between 48 57 c.
Definition is_upper (c : ascii) : bool := between 65 90 c.
Definition is_lower (c : ascii) : bool := between 97 122 c.
Definition is_ascii_alpha (c : ascii) : bool := is_upper c || is_lower c.

(** [str.lower] on one character (letters with a lower-case partner
    below code point 256). *)
Definition lower_char (c : ascii) : ascii :=
  if is_upper c || (between 192 222 c && negb (code c =? 215)%N)
  then ascii_of_N (code c + 32) else c.

Fixpoint lower (s : string) : string :=
  match s with
  | EmptyString => EmptyString
  | String c s' => String (lower_char c) (lower s')
  end.

Fixpoint all_chars (p : ascii -> bool) (s : string) : bool :=
  match s with
  | EmptyString => true
  | String c s' => p c && all_chars p s'
  end.

(** [c in s] for a character [c]. *)
Fixpoint mem (c : ascii) (s : string) : bool :=
  match s with
  | EmptyString => false
  | String a s' => Ascii.eqb a c || mem c s'
  end.

(** [needle in hay]. *)
Fixpoint contains (needle hay : string) : bool :=
  String.prefix needle hay ||
  match hay with
  | EmptyString => false
  | String _ h => contains needle h
  end.

Definition startswith (s p : string) : bool := String.prefix p s.

(** [s[:n]] and [s[n:]]. *)
Fixpoint slice_to (n : nat) (s : string) : string :=
  match n, s with
  | S n', String c s' => String c (slice_to n' s')
  | _, _ => EmptyString
  end.

Fixpoint slice_from (n : nat) (s : string) : string :=
  match n, s with
  | S n', String _ s' => slice_from n' s'
  | _, _ => s
  end.

(** [s.replace(c, '')] for a one-character [c]. *)
Fixpoint remove_char (c : ascii) (s : string) : string :=
  match s with
  | EmptyString => EmptyString
  | String a s' =>
      if Ascii.eqb a c then remove_char c s' else String a (remove_char c s')
  end.

(** [s.replace(c, d)] for one-character [c] and [d]. *)
Fixpoint replace_char (c d : ascii) (s : string) : string :=
  match s with
  | EmptyString => EmptyString
  | String a s' =>
      String (if Ascii.eqb a c then d else a) (replace_char c d s')
  end.

(** [s.partition(c)]: the text before the first [c], whether [c] was
    found, and the text after it. *)
Fixpoint partition (c : ascii) (s : string) : string * bool * string :=
  match s with
  | EmptyString => (EmptyString, false, EmptyString)
  | String a s' =>
      if Ascii.eqb a c then (EmptyString, true, s')
      else let '(b, f, r) := partition c s' in (String a b, f, r)
  end.

(** [s.rpartition(c)]: as [partition], at the last [c]; when [c] does
    not occur the whole string is the third component. *)
Fixpoint rpartition (c : ascii) (s : string) : string * bool * string :=
  match s with
  | EmptyString => (EmptyString, false, EmptyString)
  | String a s' =>
      let '(b, f, r) := rpartition c s' in
      if f then (String a b, true, r)
      else if Ascii.eqb a c then (EmptyString, true, s')
      else (EmptyString, false, String a r)
  end.

(** [s.split(c)] for a one-character separator. *)
Fixpoint split_char (c : ascii) (s : string) : list string :=
  match s with
  | EmptyString => [EmptyString]
  | String a s' =>
      if Ascii.eqb a c then EmptyString :: split_char c s'
      else match split_char c s' with
           | w :: ws => String a w :: ws
           | [] => [String a EmptyString]
           end
  end.

(** [s.split()]: the maximal runs of characters that are not
    whitespace. *)
Fixpoint split_ws (s : string) : list string :=
  match s with
  | EmptyString => []
  | String a s' =>
      if isspace a then split_ws s'
      else match s' with
           | EmptyString => [String a EmptyString]
           | String b _ =>
               if isspace b then String a EmptyString :: split_ws s'
               else match split_ws s' with
                    | w :: ws => String a w :: ws
                    | [] => [String a EmptyString]
                    end
           end
  end.

(** [sep.join(l)]. *)
Fixpoint join (sep : string) (l : list string) : string :=
  match l with
  | [] => EmptyString
  | [w] => w
  | w :: ws => w +:+ sep +:+ join sep ws
  end.

Fixpoint lstrip (s : string) : string :=
  match s with
  | EmptyString => EmptyString
  | String a s' => if isspace a then lstrip s' else s
  end.

Fixpoint rstrip (s : string) : string :=
  match s with
  | EmptyString => EmptyString
  | String a s' =>
      match rstrip s' with
      | EmptyString => if isspace a then EmptyString else String a EmptyString
      | r => String a r
      end
  end.

(** [s.strip()]. *)
Definition strip (s : string) : string := rstrip (lstrip s).

(** [str(n)] for a natural number. *)
Definition of_nat (n : nat) : string := NilEmpty.string_of_uint (Nat.to_uint n).

(** Truth value of a string: the empty string is false. *)
Definition truthy (s : string) : bool :=
  match s with EmptyString => false | _ => true end.

End PyStr.

(** ** File names ([sanitize_filename]) *)

Module Filename.
Import PyStr.

Definition invalid_chars : string :=
  "<>:" +:+ String (ascii_of_nat 34) "/\|?*".

(** The loop [for char in invalid_chars: filename = filename.replace(char, '')]. *)
Fixpoint remove_all (chars : string) (filename : string) : string :=
  match chars with
  | EmptyString => filename
  | String char rest => remove_all rest (remove_char char filename)
  end.

Definition sanitize_filename (filename : string) : string :=
  let filename := remove_all invalid_chars filename in
  let filename := join " " (split_ws filename) in
  let filename :=
    if 200 <? String.length filename then slice_to 200 filename else filename in
  strip filename.

(** The length limit of [sanitize_filename] on its own. *)
Definition truncated (s : string) : string :=
  if 200 <? String.length s then slice_to 200 s else s.

(** The properties of a file name that the specification speaks about. *)

(** No two neighbouring characters are both whitespace. *)
Definition no_whitespace_run (s : string) : Prop :=
  forall i a b,
    String.get i s = Some a -> String.get (S i) s = Some b ->
    isspace a = true -> isspace b = true -> False.

Definition no_leading_whitespace (s : string) : Prop :=
  forall a, String.get 0 s = Some a -> isspace a = false.

Definition no_trailing_whitespace (s : string) : Prop :=
  forall a, String.get (String.length s - 1) s = Some a -> isspace a = false.

(** The same three properties by recursion on the string. *)
Fixpoint run_free (s : string) : Prop :=
  match s with
  | String a (String b _ as t) =>
      (isspace a && isspace b = false) /\ run_free t
  | _ => True
  end.

Definition head_ok (s : string) : Prop :=
  match s with
  | String a _ => isspace a = false
  | EmptyString => True
  end.

Fixpoint last_ok (s : string) : Prop :=
  match s with
  | EmptyString => True
  | String a EmptyString => isspace a = false
  | String _ t => last_ok t
  end.

End Filename.

(** ** Results of code that can raise *)

Inductive result (A : Type) : Type :=
| Returned (a : A)
| Raised (e : string).
Arguments Returned {A} a.
Arguments Raised {A} e.

(** ** [urllib.parse]: the part of [urlparse] and [parse_qs] the scripts use

    The functions follow CPython's [urllib/parse.py]. Not modelled: the
    validation of a bracketed (IPv6) host beyond the bracket check, and the
    UTF-8 decoding of percent escapes above [%7F], which [unquote] keeps as
    single characters. *)

Module UrlParse.
Import PyStr.

Record ParseResult : Type := {
  scheme : string;
  netloc : string;
  path : string;
  params : string;
  query : string;
  fragment : string
}.

(** [url.lstrip(_WHATWG_C0_CONTROL_OR_SPACE)]. *)
Fixpoint lstrip_c0 (s : string) : string :=
  match s with
  | EmptyString => EmptyString
  | String a s' => if (code a <=? 32)%N then lstrip_c0 s' else s
  end.

(** Tab, carriage return and line feed are removed from the URL. *)
Definition remove_unsafe (s : string) : string :=
  remove_char "010" (remove_char "013" (remove_char "009" s)).

Definition scheme_char (c : ascii) : bool :=
  is_ascii_alpha c || is_digit c || mem c "+-.".

(** The longest prefix without a character satisfying [p], and the rest. *)
Fixpoint break (p : ascii -> bool) (s : string) : string * string :=
  match s with
  | EmptyString => (EmptyString, EmptyString)
  | String a s' =>
      if p a then (EmptyString, s)
      else let '(b, r) := break p s' in (String a b, r)
  end.

(** [_splitnetloc(url, 2)] for a [url] that starts with two slashes. *)
Definition splitnetloc (url : string) : string * string :=
  break (fun c => mem c "/?#") (slice_from 2 url).

Definition split_scheme (url : string) : string * string :=
  let '(b, found, r) := partition ":" url in
  match b with
  | String c _ =>
      if found && is_ascii_alpha c && all_chars scheme_char b
      then (lower b, r) else (EmptyString, url)
  | EmptyString => (EmptyString, url)
  end.

Definition bad_brackets (netloc : string) : bool :=
  (mem "[" netloc && negb (mem "]" netloc)) ||
  (mem "]" netloc && negb (mem "[" netloc)).

(** [urlsplit(url)]: scheme, netloc, path, query, fragment. *)
Definition urlsplit (url : string)
  : result (string * string * string * string * string) :=
  let url := remove_unsafe (lstrip_c0 url) in
  let '(scheme, url) := split_scheme url in
  let '(netloc, url) :=
    if startswith url "//" then splitnetloc url else (EmptyString, url) in
  if bad_brackets netloc then Raised "Invalid IPv6 URL"
  else
    let '(url, _, fragment) := partition "#" url in
    let '(url, _, query) := partition "?" url in
    Returned (scheme, netloc, url, query, fragment).

Definition uses_params : list string :=
  [EmptyString; "ftp"; "hdl"; "prospero"; "http"; "imap"; "https"; "shttp"; "rtsp";
   "rtspu"; "sip"; "sips"; "mms"; "sftp"; "tel"].

Definition in_list (s : string) (l : list string) : bool :=
  existsb (String.eqb s) l.

(** [_splitparams(url)], called when [url] contains a semicolon. *)
Definition splitparams (url : string) : string * string :=
  let '(dir, slash, last) := rpartition "/" url in
  if slash then
    let '(b, semi, r) := partition ";" last in
    if semi then (dir +:+ "/" +:+ b, r) else (url, EmptyString)
  else
    let '(b, _, r) := partition ";" url in (b, r).

Definition urlparse (url : string) : result ParseResult :=
  match urlsplit url with
  | Raised e => Raised e
  | Returned (scheme, netloc, url, query, fragment) =>
      let '(url, params) :=
        if in_list scheme uses_params && mem ";" url
        then splitparams url else (url, EmptyString) in
      Returned {| scheme := scheme; netloc := netloc; path := url;
                  params := params; query := query; fragment := fragment |}
  end.

(** The [hostname] property of a parse result; [None] is Python's [None]. *)
Definition hostname (r : ParseResult) : option string :=
  let '(_, _, hostinfo) := rpartition "@" (netloc r) in
  let '(_, have_open_br, bracketed) := partition "[" hostinfo in
  let host :=
    if have_open_br then fst (fst (partition "]" bracketed))
    else fst (fst (partition ":" hostinfo)) in
  match host with
  | EmptyString => None
  | _ =>
      let '(h, percent, zone) := partition "%" host in
      Some (lower h +:+ (if percent then "%" else EmptyString) +:+ zone)
  end.

Definition hex_digit (c : ascii) : option nat :=
  if is_digit c then Some (N.to_nat (code c) - 48)
  else if between 65 70 c then Some (N.to_nat (code c) - 55)
  else if between 97 102 c then Some (N.to_nat (code c) - 87)
  else None.

(** [unquote(s)]: percent escapes are replaced by the character they
    name; a percent sign that starts no escape is kept. *)
Fixpoint unquote (s : string) : string :=
  match s with
  | EmptyString => EmptyString
  | String c t =>
      if Ascii.eqb c "%" then
        match t with
        | String h1 (String h2 r) =>
            match hex_digit h1, hex_digit h2 with
            | Some a, Some b => String (ascii_of_nat (16 * a + b)) (unquote r)
            | _, _ => String c (unquote t)
            end
        | _ => String c (unquote t)
        end
      else String c (unquote t)
  end.

Definition decode_field (s : string) : string :=
  unquote (replace_char "+" " " s).

(** [parse_qsl(query)]: the decoded name/value pairs, fields without an
    equals sign or with an empty value dropped. *)
Definition parse_qsl (qs : string) : list (string * string) :=
  flat_map
    (fun name_value =>
       let '(name, eq, value) := partition "=" name_value in
       if eq && truthy value then [(decode_field name, decode_field value)]
       else [])
    (split_char "&" qs).

(** [parse_qs(query).get(key, [None])[0]]: the first value of [key]. *)
Definition qs_first (key : string) (qs : string) : option string :=
  match List.filter (fun nv => String.eqb (fst nv) key) (parse_qsl qs) with
  | (_, value) :: _ => Some value
  | [] => None
  end.

End UrlParse.

(** ** Video identifiers ([extract_video_id]) *)

Module Ident.
Import PyStr UrlParse.

(** The class [[0-9A-Za-z_-]]. *)
Definition is_id_char (c : ascii) : bool :=
  is_digit c || is_upper c || is_lower c || mem c "_-".

(** [n] characters of the class at the head of [s]. *)
Fixpoint id_chars (n : nat) (s : string) : option string :=
  match n with
  | 0 => Some EmptyString
  | S n' =>
      match s with
      | String c s' =>
          if is_id_char c then option_map (String c) (id_chars n' s')
          else None
      | EmptyString => None
      end
  end.

(** The pattern [(?:v=|/)([0-9A-Za-z_-]{11}).*] matched at the head of
    [s]; the result is group 1. *)
Definition match_here (s : string) : option string :=
  match s with
  | String c r =>
      if Ascii.eqb c "/" then id_chars 11 r
      else if Ascii.eqb c "v" then
        match r with
        | String d r' => if Ascii.eqb d "=" then id_chars 11 r' else None
        | EmptyString => None
        end
      else None
  | EmptyString => None
  end.

(** [re.search] with that pattern: the leftmost match. *)
Fixpoint re_search (s : string) : option string :=
  match match_here s with
  | Some g => Some g
  | None =>
      match s with
      | EmptyString => None
      | String _ s' => re_search s'
      end
  end.

Definition host_in (h : option string) (l : list string) : bool :=
  match h with
  | Some h => in_list h l
  | None => false
  end.

(** [extract_video_id(url)]; [Returned None] is Python's [None]. *)
Definition extract_video_id (url : string) : result (option string) :=
  match urlparse url with
  | Raised e => Raised e
  | Returned parsed_url =>
      let fallback := Returned (re_search url) in
      if host_in (hostname parsed_url) ["www.youtube.com"; "youtube.com"] then
        if String.eqb (path parsed_url) "/watch" then
          Returned (qs_first "v" (query parsed_url))
        else if startswith (path parsed_url) "/embed/" then
          match nth_error (split_char "/" (path parsed_url)) 2 with
          | Some part => Returned (Some part)
          | None => Raised "IndexError"
          end
        else fallback
      else if host_in (hostname parsed_url) ["youtu.be"; "www.youtu.be"] then
        Returned (Some (slice_from 1 (path parsed_url)))
      else fallback
  end.

(** An identifier: eleven characters of the class. *)
Definition valid_id (id : string) : bool :=
  (String.length id =? 11) && all_chars is_id_char id.

(** The supported shapes of a reference to the video [id]. *)
Definition watch_url (id : string) : string :=
  "https://www.youtube.com/watch?v=" +:+ id.
Definition short_url (id : string) : string := "https://youtu.be/" +:+ id.
Definition embed_url (id : string) : string :=
  "https://www.youtube.com/embed/" +:+ id.
Definition bare_id (id : string) : string := id.

End Ident.

(** ** Command-line choices shared by the scripts *)

(** [--mode]: the granularity of the requested text. *)
Inductive Mode : Type := transcribe | summarize | outline.

Definition mode_name (m : Mode) : string :=
  match m with
  | transcribe => "transcribe"
  | summarize => "summarize"
  | outline => "outline"
  end.

(** [--model]. *)
Inductive ModelTier : Type := flash | pro.

Definition GEMINI_MODELS (m : ModelTier) : string :=
  match m with
  | flash => "gemini-2.5-flash"
  | pro => "gemini-2.5-pro"
  end.


(** ** Python floats

    A finite [float] is taken as the rational number it stands for.
    Floats are the binary64 numbers: 53 bits of precision, least
    exponent -1022.  The sums of this program stay far below the
    largest float, so that rounding never overflows. *)

Module Float.

(** The binade of [x]: [2^e <= |x| < 2^(e+1)] for [e = exponent x]. *)
Definition exponent (x : Q) : Z :=
  let a := Qabs x in
  if Qle_bool 1 a then Z.log2 (Qfloor a)
  else (- Z.log2_up (Qceiling (/ a)))%Z.

(** The nearest integer, and the even one of two that are as near. *)
Definition nearest_even (x : Q) : Z :=
  let f := Qfloor x in
  match Qcompare (x - inject_Z f) (1 # 2) with
  | Lt => f
  | Gt => (f + 1)%Z
  | Eq => if Z.even f then f else (f + 1)%Z
  end.

(** The distance between the floats around [x]. *)
Definition ulp (x : Q) : Q := (2 ^ (Z.max (exponent x) (-1022) - 52))%Q.

(** The float nearest to the real number [x], ties to even. *)
Definition round (x : Q) : Q :=
  (inject_Z (nearest_even (x / ulp x)) * ulp x)%Q.

(** [x + y] on floats: the exact sum, rounded. *)
Definition add (x y : Q) : Q := round (x + y).

End Float.

(** ** The direct strategy with its retry loop ([transcribe_youtube.py]) *)

Module Direct.
Import PyStr.

(** What the function asks of the outside: the inference call, which
    returns the text or raises with the given error text, and
    [random.uniform(0, 1)], a float. *)
Record Service (W : Type) : Type := {
  generate_content :
    string -> string -> string -> W -> result string * W;
  random_uniform : W -> Q * W
}.
Arguments generate_content {W} _ _ _ _ _.
Arguments random_uniform {W} _ _.

(** What an observer sees of one call of [transcribe_youtube_video]:
    the requests to the service and the pauses. Console output is left
    out. *)
Inductive Event : Type :=
| Generate (model prompt file_uri : string)
| Sleep (seconds : Q).

Definition is_generate (e : Event) : bool :=
  match e with
  | Generate _ _ _ => true
  | Sleep _ => false
  end.

(** Number of requests in a trace. *)
Definition calls (tr : list Event) : nat :=
  List.length (List.filter is_generate tr).

Definition prompt_for (mode : Mode) : string :=
  match mode with
  | transcribe =>
      "Please provide a detailed transcription of this YouTube video. Include all spoken content, and note any significant visual elements or context when relevant."
  | summarize =>
      "Please provide a comprehensive summary of this YouTube video, including key points, main topics discussed, and important takeaways. Try to capture as much detail as possible."
  | outline =>
      "Please provide a detailed outline of this YouTube video with timestamps (if visible), main sections, key points discussed in each section, and important quotes or insights."
  end.

(** The two tests of the [except] clause on [str(e)]. *)
Definition overloaded (error_str : string) : bool :=
  contains "503" error_str && contains "overloaded" (lower error_str).

Definition too_many_tokens (error_str : string) : bool :=
  contains "exceeds the maximum number of tokens" error_str.

Definition overloaded_message (max_retries : nat) : string :=
  "Model overloaded after " +:+ of_nat max_retries +:+
  " attempts. Please try again later.".

Definition too_long_message : string :=
  "Video is too long to process (exceeds token limit). Consider using a YouTube transcript API or downloading and processing the video in chunks.".

(** [2 ** attempt]. *)
Definition backoff (attempt : nat) : Q := inject_Z (2 ^ Z.of_nat attempt).

(** [str(e)] of the [OverflowError] of an integer of more than 1024
    bits in a sum with a float. *)
Definition int_too_large : string := "int too large to convert to float".

Section WithService.
Context {W : Type} (svc : Service W).

(** The loop [for attempt in range(max_retries)], from iteration
    [attempt] on, with [remaining] iterations left. The result is the
    value returned ([None] when the loop runs out) or the exception
    raised, the world afterwards, and the events in order. The sum
    [(2 ** attempt) + random.uniform(0, 1)] is a sum of floats: the
    integer is converted, which raises from [2 ** 1024] on, and the sum
    is rounded. *)
Fixpoint retry_loop (remaining attempt max_retries : nat)
    (model prompt youtube_url : string) (w : W)
  : result (option string) * W * list Event :=
  match remaining with
  | 0 => (Returned None, w, [])
  | S remaining' =>
      let '(response, w) := generate_content svc model prompt youtube_url w in
      let request := Generate model prompt youtube_url in
      match response with
      | Returned text => (Returned (Some text), w, [request])
      | Raised error_str =>
          if overloaded error_str then
            if attempt <? max_retries - 1 then
              let '(jitter, w) := random_uniform svc w in
              if 1023 <? attempt then (Raised int_too_large, w, [request])
              else
                let wait_time := Float.add (backoff attempt) jitter in
                let '(r, w, tr) :=
                  retry_loop remaining' (S attempt) max_retries
                    model prompt youtube_url w in
                (r, w, request :: Sleep wait_time :: tr)
            else (Raised (overloaded_message max_retries), w, [request])
          else if too_many_tokens error_str then
            (Raised too_long_message, w, [request])
          else (Raised error_str, w, [request])
      end
  end.

Definition transcribe_youtube_video (youtube_url : string)
    (model : ModelTier) (max_retries : nat) (mode : Mode) (w : W)
  : result (option string) * W * list Event :=
  retry_loop max_retries 0 max_retries
    (GEMINI_MODELS model) (prompt_for mode) youtube_url w.

(** The service answers every request with an overload error. *)
Definition always_overloaded : Prop :=
  forall model prompt uri w,
    exists e w',
      generate_content svc model prompt uri w = (Raised e, w') /\
      overloaded e = true.

(** The random source stays in its interval. *)
Definition jitter_in_range : Prop :=
  forall w, (0 <= fst (random_uniform svc w) /\ fst (random_uniform svc w) < 1)%Q.

(** A number that the random source gives in some world. *)
Definition drawn (jitter : Q) : Prop :=
  exists w, fst (random_uniform svc w) = jitter.

(** [n] requests in a row, each answered with an error, that lead from
    the world [w] to the world [w']; between two requests one number is
    drawn from the random source, and nothing else is asked of the
    outside. *)
Inductive refused (model prompt youtube_url : string)
  : nat -> W -> W -> Prop :=
| refused_last w e w' :
    generate_content svc model prompt youtube_url w = (Raised e, w') ->
    refused model prompt youtube_url 1 w w'
| refused_more n w e w1 jitter w2 w' :
    generate_content svc model prompt youtube_url w = (Raised e, w1) ->
    random_uniform svc w1 = (jitter, w2) ->
    refused model prompt youtube_url n w2 w' ->
    refused model prompt youtube_url (S n) w w'.

End WithService.

(** The traces of the loop entered at iteration [attempt]: requests
    separated by pauses, the pause after iteration [a] being the float
    sum of [backoff a] and a jitter of the unit interval that the
    random source has given ([drawn]). *)
Inductive backoff_trace (drawn : Q -> Prop) : nat -> list Event -> Prop :=
| bt_none attempt : backoff_trace drawn attempt []
| bt_last attempt g :
    is_generate g = true -> backoff_trace drawn attempt [g]
| bt_wait attempt g jitter rest :
    is_generate g = true ->
    drawn jitter ->
    (0 <= jitter /\ jitter < 1)%Q ->
    backoff_trace drawn (S attempt) rest ->
    backoff_trace drawn attempt
      (g :: Sleep (Float.add (backoff attempt) jitter) :: rest).

(** Requests and pauses take turns, from a request to a request. *)
Fixpoint paced (tr : list Event) : bool :=
  match tr with
  | [] => true
  | Sleep _ :: _ => false
  | Generate _ _ _ :: tr1 =>
      match tr1 with
      | [] => true
      | Generate _ _ _ :: _ => false
      | Sleep _ :: tr2 =>
          match tr2 with
          | Generate _ _ _ :: _ => paced tr2
          | _ => false
          end
      end
  end.

(** A stub service for examples: the world counts the requests made and
    [answer n] is the answer to request number [n] (from 0); the jitter
    is always one half. *)
Definition stub (answer : nat -> result string) : Service nat := {|
  generate_content := fun _ _ _ n => (answer n, S n);
  random_uniform := fun n => (1 # 2, n)
|}.

(** The same with a random source that always gives [jitter]. *)
Definition stub_with (jitter : Q) (answer : nat -> result string)
  : Service nat := {|
  generate_content := fun _ _ _ n => (answer n, S n);
  random_uniform := fun n => (jitter, n)
|}.

(** The largest float below 1, which [random.uniform(0, 1)] can give. *)
Definition below_one : Q := (9007199254740991 # 9007199254740992)%Q.

Definition fails_first (failures : nat) (error : string) (n : nat)
  : result string :=
  if n <? failures then Raised error else Returned "text".

Definition overload_error : string :=
  "503 UNAVAILABLE. The model is overloaded. Please try again later.".

Definition token_error : string :=
  "400 INVALID_ARGUMENT. The input token count exceeds the maximum number of tokens allowed.".

End Direct.

(** ** The orchestrator ([transcribe_youtube_smart.py]) *)

Module Smart.
Import PyStr UrlParse Ident Filename.

(** [subprocess.run(cmd, capture_output=True, text=True)]: the process
    ran to its end, or the program was not found. *)
Inductive Completion : Type :=
| Completed (returncode : Z) (stdout stderr : string)
| FileNotFound.

(** What the script asks of the machine it runs on. *)
Record Host (W : Type) : Type := {
  subprocess_run : list string -> W -> Completion * W;
  (** [subprocess.check_call]: [false] stands for [CalledProcessError]. *)
  subprocess_check_call : list string -> W -> bool * W;
  (** Whether [import youtube_transcript_api] succeeds. *)
  can_import : W -> bool * W;
  input : string -> W -> string * W;
  (** [datetime.now().strftime(format)]. *)
  strftime_now : string -> W -> string * W;
  sys_executable : string;
  (** [os.path.dirname(os.path.abspath(__file__))]. *)
  script_dir : string
}.
Arguments subprocess_run {W} _ _ _.
Arguments subprocess_check_call {W} _ _ _.
Arguments can_import {W} _ _.
Arguments input {W} _ _ _.
Arguments strftime_now {W} _ _ _.
Arguments sys_executable {W} _.
Arguments script_dir {W} _.

(** The attempt-log: one entry for each strategy that was started, in
    order. The scripts keep no such list; the model records an entry
    where a [try_...] function returns. *)
Inductive Strategy : Type := Captions | DirectMedia | LocalMedia.

(** What a [try_...] function returns: [True], ["token_limit"] or
    [False]. *)
Inductive Verdict : Type := Succeeded | TokenLimit | Failed.

Definition of_bool (b : bool) : Verdict := if b then Succeeded else Failed.

Record Attempt : Type := {
  strategy : Strategy;
  granularity : option Mode;
  verdict : Verdict
}.

(** Code that runs on the host and adds to the attempt-log. *)
Definition M (W A : Type) : Type := W -> A * W * list Attempt.

Definition ret {W A} (a : A) : M W A := fun w => (a, w, []).

Definition bind {W A B} (m : M W A) (k : A -> M W B) : M W B :=
  fun w =>
    let '(a, w1, log1) := m w in
    let '(b, w2, log2) := k a w1 in
    (b, w2, log1 ++ log2).

Definition lift {W A} (f : W -> A * W) : M W A :=
  fun w => let '(a, w') := f w in (a, w', []).

Definition record {W} (a : Attempt) : M W unit := fun w => (tt, w, [a]).

Notation "'let*' x := m 'in' k" :=
  (bind m (fun x => k))
  (at level 10, x name, m at level 100, k at level 200).

Definition exit_code {W A} (r : A * W * list Attempt) : A := fst (fst r).
Definition world_after {W A} (r : A * W * list Attempt) : W := snd (fst r).
Definition attempt_log {W A} (r : A * W * list Attempt) : list Attempt :=
  snd r.

(** Truth value of an optional string: [None] and the empty string are
    false. *)
Definition given (o : option string) : bool :=
  match o with
  | Some s => truthy s
  | None => false
  end.

(** [os.path.join(a, b)] on POSIX paths. *)
Definition endswith_slash (a : string) : bool :=
  match rpartition "/" a with
  | (_, true, EmptyString) => true
  | _ => false
  end.

Definition path_join (a b : string) : string :=
  if startswith b "/" then b
  else if negb (truthy a) || endswith_slash a then a +:+ b
  else a +:+ "/" +:+ b.

(** The branch logic of the three [try_...] functions on the outcome of
    their subprocess. *)
Definition no_transcripts (error_text : string) : bool :=
  contains "No transcripts" error_text ||
  contains "doesn't have any transcripts" error_text.

Definition youtube_api_verdict (result : Completion) : bool :=
  match result with
  | Completed returncode stdout stderr =>
      if (returncode =? 0)%Z then true
      else if no_transcripts (stdout +:+ " " +:+ stderr) then false
      else false
  | FileNotFound => false
  end.

Definition token_limit (stdout stderr : string) : bool :=
  contains "exceeds token limit" stdout ||
  contains "exceeds the maximum number of tokens" stderr.

Definition gemini_verdict (result : Completion) : Verdict :=
  match result with
  | Completed returncode stdout stderr =>
      if (returncode =? 0)%Z then Succeeded
      else if token_limit stdout stderr then TokenLimit
      else Failed
  | FileNotFound => Failed
  end.

Definition ytdlp_verdict (result : Completion) : bool :=
  match result with
  | Completed returncode _ _ => (returncode =? 0)%Z
  | FileNotFound => false
  end.

(** [-o output_file] when an output file is given. *)
Definition output_args (output_file : option string) : list string :=
  match output_file with
  | Some f => if truthy f then ["-o"; f] else []
  | None => []
  end.

Section WithHost.
Context {W : Type} (h : Host W).

Definition youtube_api_cmd (url : string) (output_file : option string)
  : list string :=
  [sys_executable h; path_join (script_dir h) "transcribe_youtube_api.py";
   url] ++ output_args output_file.

Definition gemini_cmd (url : string) (output_file : option string)
    (mode : Mode) : list string :=
  [sys_executable h; path_join (script_dir h) "transcribe_youtube.py";
   url; "--mode"; mode_name mode] ++ output_args output_file.

Definition ytdlp_cmd (url : string) (output_file : option string)
    (mode : Mode) : list string :=
  [sys_executable h; path_join (script_dir h) "transcribe_youtube_ytdlp.py";
   url; "--mode"; mode_name mode] ++ output_args output_file.

Definition try_youtube_api (url : string) (output_file : option string)
  : M W bool :=
  let* result := lift (subprocess_run h (youtube_api_cmd url output_file)) in
  let ok := youtube_api_verdict result in
  let* _ := record {| strategy := Captions; granularity := None;
                      verdict := of_bool ok |} in
  ret ok.

Definition try_gemini_api (url : string) (output_file : option string)
    (mode : Mode) : M W Verdict :=
  let* result := lift (subprocess_run h (gemini_cmd url output_file mode)) in
  let v := gemini_verdict result in
  let* _ := record {| strategy := DirectMedia; granularity := Some mode;
                      verdict := v |} in
  ret v.

Definition try_ytdlp_gemini (url : string) (output_file : option string)
    (mode : Mode) : M W bool :=
  let* result := lift (subprocess_run h (ytdlp_cmd url output_file mode)) in
  let ok := ytdlp_verdict result in
  let* _ := record {| strategy := LocalMedia; granularity := Some mode;
                      verdict := of_bool ok |} in
  ret ok.

Definition check_youtube_transcript_api : M W bool := lift (can_import h).

Definition install_youtube_transcript_api : M W bool :=
  lift (subprocess_check_call h
          [sys_executable h; "-m"; "pip"; "install"; "youtube-transcript-api"]).

(** The title printed by a [--get-title] run: [check=True] turns every
    exit code but 0 into an exception, and every exception leads to the
    next attempt. *)
Definition title_of (result : Completion) : option string :=
  match result with
  | Completed returncode stdout _ =>
      if (returncode =? 0)%Z then Some (strip stdout) else None
  | FileNotFound => None
  end.

Definition get_video_title (url : string) : M W (option string) :=
  let* result :=
    lift (subprocess_run h
            ["yt-dlp"; "--get-title"; "--no-warnings";
             "--extractor-args"; "youtube:player_client=android";
             "--user-agent";
             "Mozilla/5.0 (Linux; Android 10; SM-G973F) AppleWebKit/537.36";
             url]) in
  match title_of result with
  | Some title => ret (Some title)
  | None =>
      let* result :=
        lift (subprocess_run h
                ["youtube-dl"; "--get-title"; "--no-warnings"; url]) in
      ret (title_of result)
  end.

(** [str(video_id)] in an f-string. *)
Definition show_id (video_id : option string) : string :=
  match video_id with
  | Some s => s
  | None => "None"
  end.

Definition generate_output_filename (url : string) (mode : Mode)
  : M W (result string) :=
  let* date_str := lift (strftime_now h "%Y%m%d") in
  let* title := get_video_title url in
  let from_video_id :=
    match extract_video_id url with
    | Raised e => ret (Raised e)
    | Returned video_id =>
        ret (Returned (date_str +:+ "_youtube_" +:+ show_id video_id +:+
                       "_" +:+ mode_name mode +:+ ".txt"))
    end in
  match title with
  | Some title =>
      if truthy title then
        let safe_title := sanitize_filename title in
        ret (Returned (date_str +:+ "_" +:+ safe_title +:+ "_" +:+
                       mode_name mode +:+ ".txt"))
      else from_video_id
  | None => from_video_id
  end.

(** The parsed command line. *)
Record Args : Type := {
  url : string;
  output : option string;
  no_auto_output : bool;
  force_gemini : bool;
  force_ytdlp : bool;
  mode : Mode
}.

Definition is_transcribe (m : Mode) : bool :=
  match m with
  | transcribe => true
  | _ => false
  end.

(** The checks of step 2 for the captions library: the first check,
    the question and the installation when it is missing, and the
    second check, whose answer decides. *)
Definition captions_ready : M W bool :=
  let* installed := check_youtube_transcript_api in
  let* _ :=
    if negb installed then
      let* response := lift (input h "Would you like to install it? (y/n): ") in
      if String.eqb (lower response) "y" then
        let* _ := install_youtube_transcript_api in ret tt
      else ret tt
    else ret tt in
  check_youtube_transcript_api.

(** Steps 1 and 2 of [main]: the forced local strategy, or the captions
    strategy when it is available. The value is [success]. *)
Definition first_strategy (args : Args) (output : option string)
  : M W bool :=
  if force_ytdlp args then
    try_ytdlp_gemini (url args) output (mode args)
  else if negb (force_gemini args) then
    let* installed := captions_ready in
    if installed then try_youtube_api (url args) output
    else ret false
  else ret false.

(** Steps 3 to 5 of [main]: the direct strategy, then the local strategy
    and its coarser modes. *)
Definition fallback (args : Args) (output : option string) (success : bool)
  : M W bool :=
  if negb success && negb (force_ytdlp args) then
    let* result := try_gemini_api (url args) output (mode args) in
    match result with
    | TokenLimit =>
        let* success := try_ytdlp_gemini (url args) output (mode args) in
        if negb success && is_transcribe (mode args) then
          let* success := try_ytdlp_gemini (url args) output summarize in
          if negb success then
            try_ytdlp_gemini (url args) output outline
          else ret success
        else ret success
    | Succeeded => ret true
    | Failed => ret false
    end
  else ret success.

(** The output file of the run: the one that is given, or the name
    that is generated when none is given and none is refused. *)
Definition named_output (args : Args) : M W (result (option string)) :=
  if negb (given (output args)) && negb (no_auto_output args)
  then
    let* name := generate_output_filename (url args) (mode args) in
    match name with
    | Returned f => ret (Returned (Some f))
    | Raised e => ret (Raised e)
    end
  else ret (Returned (output args)).

(** [main]: the exit code, or the exception that ends the script. *)
Definition main (args : Args) : M W (result Z) :=
  match extract_video_id (url args) with
  | Raised e => ret (Raised e)
  | Returned video_id =>
      if negb (given video_id) then ret (Returned 1%Z)
      else
        let* named := named_output args in
        match named with
        | Raised e => ret (Raised e)
        | Returned output =>
            let* success := first_strategy args output in
            let* success := fallback args output success in
            ret (Returned (if success then 0%Z else 1%Z))
        end
  end.

(** Stub conditions on the host, for every output file and every state
    of the world. *)

(** The reference resolves to an identifier. *)
Definition resolves (url : string) : Prop :=
  exists video_id,
    extract_video_id url = Returned (Some video_id) /\ truthy video_id = true.

(** The captions strategy, when run, reports that there are no
    captions. *)
Definition no_captions (url : string) : Prop :=
  forall output w,
    exists returncode stdout stderr,
      fst (subprocess_run h (youtube_api_cmd url output) w) =
        Completed returncode stdout stderr /\
      returncode <> 0%Z /\
      no_transcripts (stdout +:+ " " +:+ stderr) = true.

(** The captions strategy, when run, does not succeed. *)
Definition captions_fail (url : string) : Prop :=
  forall output w,
    youtube_api_verdict
      (fst (subprocess_run h (youtube_api_cmd url output) w)) = false.

Definition captions_available : Prop :=
  forall w, fst (can_import h w) = true.

Definition direct_reports (url : string) (mode : Mode) (v : Verdict) : Prop :=
  forall output w,
    gemini_verdict (fst (subprocess_run h (gemini_cmd url output mode) w)) = v.

Definition local_reports (url : string) (mode : Mode) (ok : bool) : Prop :=
  forall output w,
    ytdlp_verdict (fst (subprocess_run h (ytdlp_cmd url output mode) w)) = ok.

End WithHost.

(** Log entries by strategy. *)
Definition captions_entry (ok : bool) : Attempt :=
  {| strategy := Captions; granularity := None; verdict := of_bool ok |}.
Definition direct_entry (mode : Mode) (v : Verdict) : Attempt :=
  {| strategy := DirectMedia; granularity := Some mode; verdict := v |}.
Definition local_entry (mode : Mode) (ok : bool) : Attempt :=
  {| strategy := LocalMedia; granularity := Some mode; verdict := of_bool ok |}.

Definition is_local (a : Attempt) : bool :=
  match strategy a with
  | LocalMedia => true
  | _ => false
  end.

(** A stub host for examples. The world is the list of commands run so
    far; [answer] gives the outcome of a command from the script it runs
    (the second word) and the mode it is given (the fifth word). *)
Definition stub (answer : string -> string -> Completion)
    (importable : bool) : Host (list (list string)) := {|
  subprocess_run := fun cmd w =>
    (answer (nth 1 cmd EmptyString) (nth 4 cmd EmptyString), w ++ [cmd]);
  subprocess_check_call := fun cmd w => (true, w ++ [cmd]);
  can_import := fun w => (importable, w);
  input := fun _ w => ("n", w);
  strftime_now := fun _ w => ("20240101", w);
  sys_executable := "/usr/bin/python3";
  script_dir := "/opt/tools"
|}.

(** No captions; the video is too long for the direct strategy; the
    local strategy succeeds from the mode [good] on. *)
Definition long_video (good : string) (script mode : string) : Completion :=
  if String.eqb script "/opt/tools/transcribe_youtube_api.py" then
    Completed 1 "Error: No transcripts were found" EmptyString
  else if String.eqb script "/opt/tools/transcribe_youtube.py" then
    Completed 1
      "Error processing video: Video is too long to process (exceeds token limit)."
      EmptyString
  else if String.eqb script "/opt/tools/transcribe_youtube_ytdlp.py" then
    if String.eqb mode good then Completed 0 EmptyString EmptyString
    else if String.eqb good "transcribe" then Completed 0 EmptyString EmptyString
    else if String.eqb good "summarize" && String.eqb mode "outline"
    then Completed 0 EmptyString EmptyString
    else Completed 1 "Error: Failed to transcribe audio" EmptyString
  else Completed 1 EmptyString EmptyString.

(** No captions; the direct strategy succeeds. *)
Definition short_video (script mode : string) : Completion :=
  if String.eqb script "/opt/tools/transcribe_youtube_api.py" then
    Completed 1 "Error: No transcripts were found" EmptyString
  else if String.eqb script "/opt/tools/transcribe_youtube.py" then
    Completed 0 EmptyString EmptyString
  else Completed 1 EmptyString EmptyString.

Definition request (mode : Mode) (force_gemini force_ytdlp : bool) : Args := {|
  url := "https://youtu.be/dQw4w9WgXcQ";
  output := Some "out.txt";
  no_auto_output := false;
  force_gemini := force_gemini;
  force_ytdlp := force_ytdlp;
  mode := mode
|}.

End Smart.

(** ** The local strategy ([transcribe_youtube_ytdlp.py]) *)

Module Ytdlp.
Import PyStr.

(** The state of a file at the inference service. *)
Inductive FileState : Type :=
| STATE_UNSPECIFIED | PROCESSING | ACTIVE | FAILED.

(** The handle of an uploaded file. *)
Record File : Type := { name : string; state : FileState }.

Definition is_processing (f : File) : bool :=
  match state f with PROCESSING => true | _ => false end.

Definition is_failed (f : File) : bool :=
  match state f with FAILED => true | _ => false end.

(** What the script asks of the machine and of the inference service.
    A function that can raise returns a [result]. *)
Record Host (W : Type) : Type := {
  check_ytdlp : W -> bool * W;
  input : string -> W -> string * W;
  install_ytdlp : W -> bool * W;
  (** [get_video_info]: its value is only printed. *)
  get_video_info : string -> W -> W;
  generate_output_filename : string -> Mode -> W -> string * W;
  (** Entering and leaving [tempfile.TemporaryDirectory()]. *)
  make_temp_dir : W -> string * W;
  remove_temp_dir : string -> W -> W;
  download_audio : string -> string -> W -> result string * W;
  stat_size : string -> W -> result Z * W;
  upload_file : string -> string -> W -> result File * W;
  get_file : string -> W -> result File * W;
  delete_file : string -> W -> result unit * W;
  generate_content : string -> string -> File -> W -> result string * W;
  write_text : string -> string -> W -> result unit * W;
  copy2 : string -> string -> W -> result unit * W
}.
Arguments check_ytdlp {W} _ _.
Arguments input {W} _ _ _.
Arguments install_ytdlp {W} _ _.
Arguments get_video_info {W} _ _ _.
Arguments generate_output_filename {W} _ _ _ _.
Arguments make_temp_dir {W} _ _.
Arguments remove_temp_dir {W} _ _ _.
Arguments download_audio {W} _ _ _ _.
Arguments stat_size {W} _ _ _.
Arguments upload_file {W} _ _ _ _.
Arguments get_file {W} _ _ _.
Arguments delete_file {W} _ _ _.
Arguments generate_content {W} _ _ _ _ _.
Arguments write_text {W} _ _ _ _.
Arguments copy2 {W} _ _ _ _.

(** The state of a run: the world, and the names of the files that exist
    at the inference service. An upload that returns a handle creates
    the file of that name; a deletion that returns removes it; a
    deletion that raises leaves it. *)
Record Run (W : Type) : Type := {
  world : W;
  remote : gset string
}.
Arguments world {W} _.
Arguments remote {W} _.

(** [Path(p).name], [Path(p).suffix] and [Path(p).stem]. *)
Definition base_name (p : string) : string :=
  let '(_, _, last) := rpartition "/" p in last.

Definition suffix (p : string) : string :=
  let '(before, dot, after) := rpartition "." (base_name p) in
  if dot && truthy before && truthy after then String "." after
  else EmptyString.

Definition stem (p : string) : string :=
  let '(before, dot, after) := rpartition "." (base_name p) in
  if dot && truthy before && truthy after then before else base_name p.

(** [mime_type_map.get(file_ext, 'audio/mpeg')]. *)
Definition mime_type_for (file_path : string) : string :=
  let file_ext := lower (suffix file_path) in
  if String.eqb file_ext ".mp3" then "audio/mpeg"
  else if String.eqb file_ext ".wav" then "audio/wav"
  else if String.eqb file_ext ".m4a" then "audio/mp4"
  else if String.eqb file_ext ".aac" then "audio/aac"
  else if String.eqb file_ext ".ogg" then "audio/ogg"
  else if String.eqb file_ext ".flac" then "audio/flac"
  else "audio/mpeg".

Definition prompt_for (mode : Mode) : string :=
  match mode with
  | transcribe =>
      "Please provide a detailed transcription of this audio file. Include all spoken content with proper punctuation and paragraph breaks."
  | summarize =>
      "Please provide a comprehensive summary of this audio file, including key points, main topics discussed, and important takeaways."
  | outline =>
      "Please provide a detailed outline of this audio file with timestamps, main sections, key points discussed in each section, and important quotes or insights."
  end.

(** The parsed command line. *)
Record Args : Type := {
  url : string;
  model : ModelTier;
  mode : Mode;
  output : option string;
  no_auto_output : bool;
  keep_audio : bool;
  audio_output : option string
}.

Definition given (o : option string) : bool :=
  match o with
  | Some s => truthy s
  | None => false
  end.

Section WithHost.
Context {W : Type} (h : Host W).

(** The loop [while uploaded_file.state.name == "PROCESSING"]; [fuel]
    bounds the number of polls, and [None] means that the file was still
    being processed when the fuel ran out. *)
Fixpoint wait_for_processing (fuel : nat) (uploaded_file : File) (w : W)
  : option (result File * W) :=
  if is_processing uploaded_file then
    match fuel with
    | 0 => None
    | S fuel' =>
        let '(r, w) := get_file h (name uploaded_file) w in
        match r with
        | Returned f => wait_for_processing fuel' f w
        | Raised e => Some (Raised e, w)
        end
    end
  else Some (Returned uploaded_file, w).

Definition upload_error (e : string) : string :=
  "Failed to upload file: " +:+ e.

(** [upload_to_gemini(file_path)]. *)
Definition upload_to_gemini (fuel : nat) (file_path : string) (st : Run W)
  : option (result File * Run W) :=
  let mime_type := mime_type_for file_path in
  let '(r, w) := upload_file h file_path mime_type (world st) in
  match r with
  | Raised e =>
      Some (Raised (upload_error e), {| world := w; remote := remote st |})
  | Returned uploaded_file =>
      let files := {[ name uploaded_file ]} ∪ remote st in
      match wait_for_processing fuel uploaded_file w with
      | None => None
      | Some (Raised e, w) =>
          Some (Raised (upload_error e), {| world := w; remote := files |})
      | Some (Returned uploaded_file, w) =>
          if is_failed uploaded_file then
            Some (Raised (upload_error "File upload failed"),
                  {| world := w; remote := files |})
          else Some (Returned uploaded_file, {| world := w; remote := files |})
      end
  end.

(** [transcribe_audio_with_gemini(uploaded_file, model, mode)]. *)
Definition transcribe_audio_with_gemini (uploaded_file : File)
    (model : ModelTier) (mode : Mode) (st : Run W) : result string * Run W :=
  let '(r, w) :=
    generate_content h (GEMINI_MODELS model) (prompt_for mode)
      uploaded_file (world st) in
  let st := {| world := w; remote := remote st |} in
  match r with
  | Returned text => (Returned text, st)
  | Raised e => (Raised ("Failed to transcribe audio: " +:+ e), st)
  end.

(** [cleanup_gemini_file(uploaded_file)]: an error of the deletion is
    printed and dropped. *)
Definition cleanup_gemini_file (uploaded_file : File) (st : Run W) : Run W :=
  let '(r, w) := delete_file h (name uploaded_file) (world st) in
  match r with
  | Returned _ =>
      {| world := w; remote := remote st ∖ {[ name uploaded_file ]} |}
  | Raised _ => {| world := w; remote := remote st |}
  end.

Definition on_world (f : W -> W) (st : Run W) : Run W :=
  {| world := f (world st); remote := remote st |}.

(** The body of the [with] block of [main]. Beside the outcome it gives
    the value of the variable [uploaded_file] when the block is left. *)
Definition process (fuel : nat) (args : Args) (output : option string)
    (temp_dir : string) (st : Run W)
  : option (result unit * option File * Run W) :=
  let audio_path :=
    match audio_output args with
    | Some p => if truthy p then p else temp_dir +:+ "/audio"
    | None => temp_dir +:+ "/audio"
    end in
  let keep_audio := keep_audio args || given (audio_output args) in
  let '(d, w) := download_audio h (url args) audio_path (world st) in
  match d with
  | Raised e => Some (Raised e, None, {| world := w; remote := remote st |})
  | Returned downloaded_path =>
      let '(size, w) := stat_size h downloaded_path w in
      match size with
      | Raised e =>
          Some (Raised e, None, {| world := w; remote := remote st |})
      | Returned _ =>
          match upload_to_gemini fuel downloaded_path
                  {| world := w; remote := remote st |} with
          | None => None
          | Some (Raised e, st) => Some (Raised e, None, st)
          | Some (Returned uploaded_file, st) =>
              let '(t, st) :=
                transcribe_audio_with_gemini uploaded_file
                  (model args) (mode args) st in
              match t with
              | Raised e => Some (Raised e, Some uploaded_file, st)
              | Returned text =>
                  let '(saved, w) :=
                    match output with
                    | Some f =>
                        if truthy f then write_text h f text (world st)
                        else (Returned tt, world st)
                    | None => (Returned tt, world st)
                    end in
                  let st := {| world := w; remote := remote st |} in
                  match saved with
                  | Raised e => Some (Raised e, Some uploaded_file, st)
                  | Returned _ =>
                      if keep_audio && negb (given (audio_output args)) then
                        let target :=
                          (match output with
                           | Some f => if truthy f then stem f else "audio"
                           | None => "audio"
                           end) +:+ ".mp3" in
                        let '(c, w) :=
                          copy2 h downloaded_path target (world st) in
                        Some (c, Some uploaded_file,
                              {| world := w; remote := remote st |})
                      else Some (Returned tt, Some uploaded_file, st)
                  end
              end
          end
      end
  end.

(** [main]: the exit code and the final state; [None] when the fuel of
    the polling loop ran out. *)
Definition main (fuel : nat) (args : Args) (st : Run W)
  : option (Z * Run W) :=
  let '(installed, w) := check_ytdlp h (world st) in
  let '(go, w) :=
    if installed then (true, w)
    else
      let '(response, w) :=
        input h "Would you like to install it? (y/n): " w in
      if String.eqb (lower response) "y" then install_ytdlp h w
      else (false, w) in
  if negb go then Some (1%Z, {| world := w; remote := remote st |})
  else
    let w := get_video_info h (url args) w in
    let '(output, w) :=
      if negb (given (output args)) && negb (no_auto_output args) then
        let '(f, w) := generate_output_filename h (url args) (mode args) w in
        (Some f, w)
      else (output args, w) in
    let '(temp_dir, w) := make_temp_dir h w in
    match process fuel args output temp_dir
            {| world := w; remote := remote st |} with
    | None => None
    | Some (r, uploaded_file, st) =>
        let st := on_world (remove_temp_dir h temp_dir) st in
        let st :=
          match uploaded_file with
          | Some f => cleanup_gemini_file f st
          | None => st
          end in
        Some (match r with Returned _ => 0%Z | Raised _ => 1%Z end, st)
    end.

End WithHost.

(** A stub host for examples. The world is the list of the requests
    made to the inference service. Every step before the upload
    succeeds; the upload returns the handle [files/audio-1] in the state
    [first]; a poll returns it in the state [later]; [generation] is the
    answer to the request for the text. *)
Definition stub (first later : FileState) (generation : result string)
  : Host (list string) := {|
  check_ytdlp := fun w => (true, w);
  input := fun _ w => ("n", w);
  install_ytdlp := fun w => (false, w);
  get_video_info := fun _ w => w;
  generate_output_filename := fun _ _ w => ("20240101_title_transcribe.txt", w);
  make_temp_dir := fun w => ("/tmp/tmpdir", w);
  remove_temp_dir := fun _ w => w;
  download_audio := fun _ p w => (Returned (p +:+ ".mp3"), w);
  stat_size := fun _ w => (Returned 1048576%Z, w);
  upload_file := fun p _ w =>
    (Returned {| name := "files/audio-1"; state := first |},
     w ++ ["upload_file " +:+ p]);
  get_file := fun n w =>
    (Returned {| name := n; state := later |}, w ++ ["get_file " +:+ n]);
  delete_file := fun n w => (Returned tt, w ++ ["delete_file " +:+ n]);
  generate_content := fun _ _ f w =>
    (generation, w ++ ["generate_content " +:+ name f]);
  write_text := fun _ _ w => (Returned tt, w);
  copy2 := fun _ _ w => (Returned tt, w)
|}.

Definition request : Args := {|
  url := "https://youtu.be/dQw4w9WgXcQ";
  model := pro;
  mode := transcribe;
  output := None;
  no_auto_output := false;
  keep_audio := false;
  audio_output := None
|}.

Definition start : Run (list string) := {| world := []; remote := ∅ |}.

End Ytdlp.

(** ** The command line of the direct strategy ([transcribe_youtube.py]) *)

Module DirectCli.
Import PyStr UrlParse Ident Filename Direct.

(** Number of pauses in a trace, and the time they take together. *)
Definition pauses (tr : list Event) : nat :=
  List.length (List.filter (fun e => negb (is_generate e)) tr).

Fixpoint total_wait (tr : list Event) : Q :=
  match tr with
  | [] => 0
  | Generate _ _ _ :: tr' => total_wait tr'
  | Sleep seconds :: tr' => seconds + total_wait tr'
  end.

(** What [main] asks of the machine beside the inference service.
    [format_1f] is the formatting of [wait_time] with one decimal. *)
Record Cli (W : Type) : Type := {
  service : Service W;
  subprocess_run : list string -> W -> Smart.Completion * W;
  strftime_now : string -> W -> string * W;
  write_text : string -> string -> W -> result unit * W;
  format_1f : Q -> string
}.
Arguments service {W} _.
Arguments subprocess_run {W} _ _ _.
Arguments strftime_now {W} _ _ _.
Arguments write_text {W} _ _ _ _.
Arguments format_1f {W} _ _.

(** The parsed command line. *)
Record Args : Type := {
  url : string;
  model : ModelTier;
  mode : Mode;
  output : option string;
  no_auto_output : bool
}.

Definition nl : string := String "010" EmptyString.

(** [print(s)]. *)
Definition line (s : string) : string := s +:+ nl.

(** [args.mode.upper()]. *)
Definition mode_upper (m : Mode) : string :=
  match m with
  | transcribe => "TRANSCRIBE"
  | summarize => "SUMMARIZE"
  | outline => "OUTLINE"
  end.

(** What [transcribe_youtube_video] prints: one message before each
    pause, read off the trace of the call. [attempt] is the iteration of
    the first pause of the trace. *)
Fixpoint retry_output (fmt : Q -> string) (max_retries attempt : nat)
    (tr : list Event) : string :=
  match tr with
  | [] => EmptyString
  | Generate _ _ _ :: tr' => retry_output fmt max_retries attempt tr'
  | Sleep wait_time :: tr' =>
      line (nl +:+ "Model overloaded. Retrying in " +:+ fmt wait_time +:+
            " seconds... (attempt " +:+ of_nat (attempt + 1) +:+ "/" +:+
            of_nat max_retries +:+ ")") +:+
      retry_output fmt max_retries (S attempt) tr'
  end.

(** An output file that is given and not the empty string. *)
Definition file_of (output : option string) : option string :=
  match output with
  | Some f => if truthy f then Some f else None
  | None => None
  end.

(** The advice printed after a token-limit error. *)
Definition alternatives : string :=
  line (nl +:+ "Alternative approaches for long videos:") +:+
  line "1. Use --mode summarize or --mode outline for a condensed version" +:+
  line "2. Use youtube-transcript-api to get text transcripts directly" +:+
  line "3. Download the video and process it in segments" +:+
  line "4. Use YouTube's auto-generated captions if available".

Section WithCli.
Context {W : Type} (c : Cli W).

Definition get_video_title (url : string) (w : W) : option string * W :=
  let '(result, w) :=
    subprocess_run c ["yt-dlp"; "--get-title"; "--no-warnings"; url] w in
  match Smart.title_of result with
  | Some title => (Some title, w)
  | None =>
      let '(result, w) :=
        subprocess_run c
          ["youtube-dl"; "--get-title"; "--no-warnings"; url] w in
      (Smart.title_of result, w)
  end.

Definition generate_output_filename (url : string) (mode : Mode) (w : W)
  : result string * W :=
  let '(date_str, w) := strftime_now c "%Y%m%d" w in
  let '(title, w) := get_video_title url w in
  let from_video_id :=
    match extract_video_id url with
    | Raised e => Raised e
    | Returned video_id =>
        Returned (date_str +:+ "_youtube_" +:+ Smart.show_id video_id +:+
                  "_" +:+ mode_name mode +:+ ".txt")
    end in
  match title with
  | Some title =>
      if truthy title then
        (Returned (date_str +:+ "_" +:+ sanitize_filename title +:+ "_" +:+
                   mode_name mode +:+ ".txt"), w)
      else (from_video_id, w)
  | None => (from_video_id, w)
  end.

(** The [except] clause of [main]. *)
Definition report_error (e : string) : string :=
  line ("Error processing video: " +:+ e) +:+
  (if contains "exceeds token limit" e then alternatives else EmptyString).

(** The [try] block of [main] with its [except] clause: the call of
    [transcribe_youtube_video] with [max_retries] at its default of 5,
    and the saving or printing of the text. [out] is the text printed
    so far. *)
Definition attempt (args : Args) (output : option string) (out : string)
    (w : W) : result Z * W * string * list Event :=
  let '(r, w, tr) :=
    transcribe_youtube_video (service c) (url args) (model args) 5
      (mode args) w in
  let out := out +:+ retry_output (format_1f c) 5 0 tr in
  match r with
  | Raised e => (Returned 1%Z, w, out +:+ report_error e, tr)
  | Returned result =>
      match file_of output with
      | Some f =>
          match result with
          | None =>
              (Returned 1%Z, w,
               out +:+ report_error "write() argument must be str, not None",
               tr)
          | Some text =>
              let '(written, w) := write_text c f text w in
              match written with
              | Raised e => (Returned 1%Z, w, out +:+ report_error e, tr)
              | Returned _ =>
                  (Returned 0%Z, w,
                   out +:+ line (nl +:+ "Output saved to: " +:+ f), tr)
              end
          end
      | None =>
          (Returned 0%Z, w,
           out +:+ line (nl +:+ "--- " +:+ mode_upper (mode args) +:+
                         " ---" +:+ nl) +:+
           line (Smart.show_id result), tr)
      end
  end.

(** [main]: the exit code (or the exception that ends the script), the
    world afterwards, the text printed and the events of the call of
    [transcribe_youtube_video]. *)
Definition main (args : Args) (w : W)
  : result Z * W * string * list Event :=
  let out :=
    line ("Processing video: " +:+ url args) +:+
    line ("Using model: " +:+ GEMINI_MODELS (model args)) +:+
    line ("Mode: " +:+ mode_name (mode args)) in
  if negb (Smart.given (output args)) && negb (no_auto_output args) then
    let '(name, w) := generate_output_filename (url args) (mode args) w in
    match name with
    | Returned f =>
        attempt args (Some f) (out +:+ line ("Output file: " +:+ f)) w
    | Raised e => (Raised e, w, out, [])
    end
  else attempt args (output args) out w.

(** The reference is one that [urlparse] accepts. *)
Definition parses (url : string) : Prop :=
  exists video_id, extract_video_id url = Returned video_id.

(** The service answers every request with a token-limit error. *)
Definition always_too_long : Prop :=
  forall model prompt uri w,
    exists e w',
      generate_content (service c) model prompt uri w = (Raised e, w') /\
      overloaded e = false /\ too_many_tokens e = true.

End WithCli.

(** A stub for examples: the inference service of [Direct.stub], no
    title tool, writes that succeed. *)
Definition stub (answer : nat -> result string) : Cli nat := {|
  service := Direct.stub answer;
  subprocess_run := fun _ n => (Smart.FileNotFound, n);
  strftime_now := fun _ n => ("20240101", n);
  write_text := fun _ _ n => (Returned tt, n);
  format_1f := fun _ => "1.5"
|}.

Definition request : Args := {|
  url := "https://youtu.be/dQw4w9WgXcQ";
  model := pro;
  mode := transcribe;
  output := Some "out.txt";
  no_auto_output := false
|}.

End DirectCli.


(** ** The processes behind an attempt-log *)

Module SmartRuns.
Import Smart.

Section WithHost.
Context {W : Type} (h : Host W).

(** The command that the [try_...] function of an entry runs. *)
Definition command (url : string) (output : option string) (a : Attempt)
  : list string :=
  match strategy a, granularity a with
  | Captions, _ => youtube_api_cmd h url output
  | DirectMedia, Some m => gemini_cmd h url output m
  | LocalMedia, Some m => ytdlp_cmd h url output m
  | _, None => []
  end.

(** The verdict that the [try_...] function of a strategy reads off the
    outcome of its process. *)
Definition verdict_of (s : Strategy) (result : Completion) : Verdict :=
  match s with
  | Captions => of_bool (youtube_api_verdict result)
  | DirectMedia => gemini_verdict result
  | LocalMedia => of_bool (ytdlp_verdict result)
  end.

(** The entries of a log are processes that were run, one after the
    other with nothing else between them, from the world [w] to the
    world [w']: each entry is the command of its strategy at its mode,
    run in the world that the entry before it left, and its verdict is
    read off the outcome of that process. *)
Inductive ran (url : string) (output : option string)
  : list Attempt -> W -> W -> Prop :=
| ran_nil w : ran url output [] w w
| ran_cons a log w result w1 w' :
    subprocess_run h (command url output a) w = (result, w1) ->
    verdict a = verdict_of (strategy a) result ->
    ran url output log w1 w' ->
    ran url output (a :: log) w w'.

(** The output file [output] and the world [w1] in which the first
    strategy of a run from the world [w] is started: after the output
    file was named and, under neither flag, after the checks for the
    captions library. *)
Definition started (args : Args) (w : W) (output : option string) (w1 : W)
  : Prop :=
  exists w0,
    named_output h args w = (Returned output, w0, []) /\
    if force_ytdlp args || force_gemini args then w1 = w0
    else exists ready, captions_ready h w0 = (ready, w1, []).

(** The attempt-log of a run is what was run: from the world in which
    the first strategy is started to the world that the run ends in,
    the processes of the log and nothing else. *)
Definition backed (args : Args) (w : W) (r : result Z * W * list Attempt)
  : Prop :=
  exists output w1,
    started args w output w1 /\
    ran (url args) output (attempt_log r) w1 (world_after r).

End WithHost.

End SmartRuns.

(** ** The shapes of an attempt-log *)

Module SmartShapes.
Import Smart.

(** The log of steps 1 and 2 of [main] with the value of [success]
    they leave: the forced local strategy, nothing, or the captions
    strategy. *)
Inductive opening (args : Args) : bool -> list Attempt -> Prop :=
| opening_forced ok :
    force_ytdlp args = true ->
    opening args ok [local_entry (mode args) ok]
| opening_skipped :
    force_ytdlp args = false ->
    opening args false []
| opening_captions ok :
    force_ytdlp args = false -> force_gemini args = false ->
    opening args ok [captions_entry ok].

(** The log of steps 3 to 5 of [main], when they run, with the value of
    [success] they leave. *)
Inductive descent (m : Mode) : bool -> list Attempt -> Prop :=
| descent_direct :
    descent m true [direct_entry m Succeeded]
| descent_failed :
    descent m false [direct_entry m Failed]
| descent_local :
    descent m true [direct_entry m TokenLimit; local_entry m true]
| descent_stop :
    m <> transcribe ->
    descent m false [direct_entry m TokenLimit; local_entry m false]
| descent_summary :
    m = transcribe ->
    descent m true
      [direct_entry m TokenLimit; local_entry m false;
       local_entry summarize true]
| descent_outline ok :
    m = transcribe ->
    descent m ok
      [direct_entry m TokenLimit; local_entry m false;
       local_entry summarize false; local_entry outline ok].

(** The log of a whole run with its exit code. *)
Inductive run_shape (args : Args) : Z -> list Attempt -> Prop :=
| run_first ok log :
    opening args ok log ->
    ok = true \/ force_ytdlp args = true ->
    run_shape args (if ok then 0 else 1)%Z log
| run_fallback log1 ok log2 :
    opening args false log1 ->
    force_ytdlp args = false ->
    descent (mode args) ok log2 ->
    run_shape args (if ok then 0 else 1)%Z (log1 ++ log2).

(** The captions strategy, when run, succeeds. *)
Definition captions_succeed {W} (h : Host W) (url : string) : Prop :=
  forall output w,
    youtube_api_verdict
      (fst (subprocess_run h (youtube_api_cmd h url output) w)) = true.

(** Captions for every video. *)
Definition captioned_video (script mode : string) : Completion :=
  if String.eqb script "/opt/tools/transcribe_youtube_api.py" then
    Completed 0 EmptyString EmptyString
  else Completed 1 EmptyString EmptyString.

(** Captions for every video, and a direct strategy that fails for
    another reason than the length of the video. *)
Definition captioned_broken_video (script mode : string) : Completion :=
  if String.eqb script "/opt/tools/transcribe_youtube_api.py" then
    Completed 0 EmptyString EmptyString
  else Completed 1 "Error processing video: 403 PERMISSION_DENIED"
         EmptyString.

(** No captions, a video too long for the direct strategy, and a local
    strategy that fails at every mode. *)
Definition hopeless_video (script mode : string) : Completion :=
  if String.eqb script "/opt/tools/transcribe_youtube_api.py" then
    Completed 1 "Error: No transcripts were found" EmptyString
  else if String.eqb script "/opt/tools/transcribe_youtube.py" then
    Completed 1
      "Error processing video: Video is too long to process (exceeds token limit)."
      EmptyString
  else Completed 1 "Error: Failed to download audio" EmptyString.

(** Captions for every video; without them, a video too long for the
    direct strategy, and a local strategy that succeeds from the mode
    [good] on. *)
Definition captioned_long_video (good : string) (script mode : string)
  : Completion :=
  if String.eqb script "/opt/tools/transcribe_youtube_api.py" then
    Completed 0 EmptyString EmptyString
  else long_video good script mode.

(** A request whose reference is an identifier on its own. *)
Definition bare_request : Args := {|
  url := "dQw4w9WgXcQ";
  output := None;
  no_auto_output := false;
  force_gemini := false;
  force_ytdlp := false;
  mode := transcribe
|}.

End SmartShapes.

(** ** Conditions on the inference service and the download tool *)

Module YtdlpService.
Import PyStr Ytdlp.

Section WithHost.
Context {W : Type} (h : Host W).

(** Deletions at the service do not fail. *)
Definition deletions_succeed : Prop :=
  forall n w, exists u w', delete_file h n w = (Returned u, w').

(** A poll answers with the handle of the file it was asked about. *)
Definition polls_keep_names : Prop :=
  forall n w f w', get_file h n w = (Returned f, w') -> name f = n.

(** The download fails. *)
Definition download_fails : Prop :=
  forall u p w, exists e w', download_audio h u p w = (Raised e, w').

End WithHost.

(** The stub host of [Ytdlp] with a video that cannot be downloaded. *)
Definition private_video : Host (list string) := {|
  check_ytdlp := fun w => (true, w);
  input := fun _ w => ("n", w);
  install_ytdlp := fun w => (false, w);
  get_video_info := fun _ w => w;
  generate_output_filename := fun _ _ w => ("20240101_title_transcribe.txt", w);
  make_temp_dir := fun w => ("/tmp/tmpdir", w);
  remove_temp_dir := fun _ w => w;
  download_audio := fun _ _ w =>
    (Raised "Failed to download audio: exit status 1", w);
  stat_size := fun _ w => (Returned 0%Z, w);
  upload_file := fun p _ w =>
    (Returned {| name := "files/audio-1"; state := ACTIVE |},
     w ++ ["upload_file " +:+ p]);
  get_file := fun n w =>
    (Returned {| name := n; state := ACTIVE |}, w ++ ["get_file " +:+ n]);
  delete_file := fun n w => (Returned tt, w ++ ["delete_file " +:+ n]);
  generate_content := fun _ _ f w =>
    (Returned "text", w ++ ["generate_content " +:+ name f]);
  write_text := fun _ _ w => (Returned tt, w);
  copy2 := fun _ _ w => (Returned tt, w)
|}.

(** A run that starts with other files at the service. *)
Definition start_with (files : gset string) : Run (list string) :=
  {| world := []; remote := files |}.

End YtdlpService.

(** ** The playlist script ([youtube_playlist_to_markdown.py]) *)

Module Playlist.
Import PyStr UrlParse Ident Filename.

(** The length limit of [sanitize_filename]. *)
Definition cut (limit : nat) (s : string) : string :=
  if limit <? String.length s then slice_to limit s else s.

(** [sanitize_filename] the way the scripts write it, with the length
    limit as a parameter: 200 in the transcription scripts, 100 in the
    playlist script. *)
Definition sanitize_to (limit : nat) (filename : string) : string :=
  let filename := remove_all invalid_chars filename in
  let filename := join " " (split_ws filename) in
  let filename :=
    if limit <? String.length filename then slice_to limit filename
    else filename in
  strip filename.

(** [sanitize_filename] of the playlist script. *)
Definition sanitize_filename (filename : string) : string :=
  let filename := remove_all invalid_chars filename in
  let filename := join " " (split_ws filename) in
  let filename :=
    if 100 <? String.length filename then slice_to 100 filename
    else filename in
  strip filename.

(** Every whitespace character of the string is a space. *)
Definition spaces_only (s : string) : bool :=
  all_chars (fun c => negb (isspace c) || Ascii.eqb c " ") s.

(** *** [extract_playlist_id] *)

(** The longest prefix of characters satisfying [p]. *)
Fixpoint span (p : ascii -> bool) (s : string) : string :=
  match s with
  | String c s' => if p c then String c (span p s') else EmptyString
  | EmptyString => EmptyString
  end.

(** The pattern [list=([A-Za-z0-9_-]+)] matched at the head of [s]; the
    result is group 1. *)
Definition match_list_here (s : string) : option string :=
  if startswith s "list=" then
    match span is_id_char (slice_from 5 s) with
    | EmptyString => None
    | g => Some g
    end
  else None.

(** [re.search] with that pattern: the leftmost match. *)
Fixpoint re_search_list (s : string) : option string :=
  match match_list_here s with
  | Some g => Some g
  | None =>
      match s with
      | EmptyString => None
      | String _ s' => re_search_list s'
      end
  end.

(** [extract_playlist_id(url)]; [Returned None] is Python's [None]. *)
Definition extract_playlist_id (url : string) : result (option string) :=
  match urlparse url with
  | Raised e => Raised e
  | Returned parsed_url =>
      let fallback := Returned (re_search_list url) in
      if host_in (hostname parsed_url) ["www.youtube.com"; "youtube.com"] then
        match qs_first "list" (query parsed_url) with
        | Some value => Returned (Some value)
        | None => fallback
        end
      else fallback
  end.

(** A playlist identifier as the pattern reads it: one or more
    characters of the class. *)
Definition valid_playlist_id (pid : string) : bool :=
  truthy pid && all_chars is_id_char pid.

Definition playlist_url (pid : string) : string :=
  "https://www.youtube.com/playlist?list=" +:+ pid.

(** *** The videos of a playlist and the range to process *)

Record Video : Type := {
  url : string;
  title : string;
  duration : Z
}.

(** The URL [get_playlist_videos_ytdlp] builds from an identifier that
    is no URL yet. *)
Definition video_url_of (video_id : string) : string :=
  "https://www.youtube.com/watch?v=" +:+ video_id.

(** [l[start:stop]] for integers [start] and [stop]: a negative index
    counts from the end, and both are clamped to the list. *)
Definition slice {A : Type} (l : list A) (start stop : Z) : list A :=
  let len := Z.of_nat (length l) in
  let norm i := if (i <? 0)%Z then Z.max 0 (i + len) else Z.min i len in
  let lo := norm start in
  let hi := norm stop in
  firstn (Z.to_nat (hi - lo)) (skipn (Z.to_nat lo) l).

(** The start/end filter of [main]: [start] is [--start] (default 1),
    [end_] is [--end] ([None] when not given). *)
Definition videos_to_process (videos : list Video) (start : Z)
    (end_ : option Z) : list Video :=
  let len := Z.of_nat (length videos) in
  let start_idx := Z.max 0 (start - 1) in
  let end_idx :=
    match end_ with
    | Some e => if (e =? 0)%Z then len else Z.min len e
    | None => len
    end in
  slice videos start_idx end_idx.

(** *** [transcribe_video] *)

(** [--force]. *)
Inductive Force : Type := api | gemini | ytdlp.

(** What [subprocess.run] did: the child ran and exited, or another
    exception [e] was raised, of which [str(e)] is kept. *)
Inductive Launch : Type :=
  | Ran (returncode : Z) (stdout stderr : string)
  | NotRun (message : string).

Inductive Event : Type :=
  | Child (cmd : list string)
  | Pause (seconds : Z).

Definition is_child (e : Event) : bool :=
  match e with Child _ => true | Pause _ => false end.
Definition is_pause (e : Event) : bool :=
  match e with Pause _ => true | Child _ => false end.

Definition children (tr : list Event) : nat := length (List.filter is_child tr).
Definition pauses (tr : list Event) : nat := length (List.filter is_pause tr).

Record Host (W : Type) : Type := {
  sys_executable : string;
  (** [int(time.time())] *)
  time_now : W -> Z * W;
  subprocess_run : list string -> W -> Launch * W;
  (** [list(Path(dir).glob(pattern))] *)
  glob : string -> string -> W -> list string * W;
  sleep : Z -> W -> W
}.
Arguments sys_executable {W} _.
Arguments time_now {W} _ _.
Arguments subprocess_run {W} _ _ _.
Arguments glob {W} _ _ _ _.
Arguments sleep {W} _ _ _.

(** [str(n)] for an integer. *)
Definition of_int (n : Z) : string :=
  if (n <? 0)%Z then "-" +:+ of_nat (Z.to_nat (- n)) else of_nat (Z.to_nat n).

Definition force_args (force_method : option Force) : list string :=
  match force_method with
  | Some gemini => ["--force-gemini"]
  | Some ytdlp => ["--force-ytdlp"]
  | Some api => []
  | None => []
  end.

Definition names_output (line : string) : bool :=
  contains "saved to:" (lower line) || contains "output:" (lower line).

(** The pair [transcribe_video] returns for an outcome of the child. *)
Definition verdict (result : Launch) : bool * string :=
  match result with
  | Ran returncode stdout stderr =>
      if (returncode =? 0)%Z then
        match List.find names_output (split_char "010" (strip stdout)) with
        | Some line => (true, line)
        | None => (true, "Transcription completed")
        end
      else (false, if truthy stderr then stderr else "Unknown error")
  | NotRun message => (false, message)
  end.

(** The request of [--skip-existing] for a video. *)
Definition skip_pattern (video_url : string) : string :=
  "*" +:+ List.last (split_char "=" video_url) EmptyString +:+ "*.txt".

(** The two shapes of an entry of [results]. *)
Inductive Outcome : Type :=
  | Skipped (output : string)
  | Done (success : bool) (message : string).

Definition succeeded (r : Outcome) : bool :=
  match r with
  | Skipped _ => true
  | Done success _ => success
  end.

Definition is_done (r : Outcome) : bool :=
  match r with
  | Done _ _ => true
  | Skipped _ => false
  end.

Section WithHost.
Context {W : Type} (h : Host W).

Definition output_file (video_url output_dir : string) (mode : Mode)
    (w : W) : string * W :=
  match re_search video_url with
  | Some video_id =>
      (Smart.path_join output_dir
         (video_id +:+ "_" +:+ mode_name mode +:+ ".txt"), w)
  | None =>
      let '(now, w) := time_now h w in
      (Smart.path_join output_dir
         ("video_" +:+ of_int now +:+ "_" +:+ mode_name mode +:+ ".txt"), w)
  end.

Definition command (video_url file : string) (mode : Mode)
    (force_method : option Force) : list string :=
  [sys_executable h; "transcribe_youtube_smart.py"; video_url;
   "--mode"; mode_name mode; "--output"; file] ++ force_args force_method.

(** [transcribe_video(video_url, output_dir, mode, force_method)]; the
    third component is the command of the child. *)
Definition transcribe_video (video_url output_dir : string) (mode : Mode)
    (force_method : option Force) (w : W)
  : (bool * string) * W * list string :=
  let '(file, w) := output_file video_url output_dir mode w in
  let cmd := command video_url file mode force_method in
  let '(result, w) := subprocess_run h cmd w in
  (verdict result, w, cmd).

(** The loop of [main] over [videos_to_process]; [i] is the number of
    the first video of [videos], [total] is [len(videos_to_process)]. *)
Fixpoint process_videos (output_dir : string) (mode : Mode)
    (force_method : option Force) (skip_existing : bool) (delay : Z)
    (total i : nat) (videos : list Video) (w : W)
  : list Outcome * W * list Event :=
  match videos with
  | [] => ([], w, [])
  | video :: rest =>
      let '(existing_files, w) :=
        if skip_existing
        then glob h output_dir (skip_pattern (url video)) w
        else ([], w) in
      match existing_files with
      | first :: _ =>
          let '(results, w, tr) :=
            process_videos output_dir mode force_method skip_existing delay
              total (S i) rest w in
          (Skipped ("Skipped - already exists: " +:+ Ytdlp.base_name first)
             :: results, w, tr)
      | [] =>
          let '((success, message), w, cmd) :=
            transcribe_video (url video) output_dir mode force_method w in
          let '(w, waited) :=
            if (i <? total) && (0 <? delay)%Z
            then (sleep h delay w, [Pause delay])
            else (w, []) in
          let '(results, w, tr) :=
            process_videos output_dir mode force_method skip_existing delay
              total (S i) rest w in
          (Done success message :: results, w, Child cmd :: waited ++ tr)
      end
  end.

(** The loop as [main] starts it. *)
Definition process_all (output_dir : string) (mode : Mode)
    (force_method : option Force) (skip_existing : bool) (delay : Z)
    (videos : list Video) (w : W) : list Outcome * W * list Event :=
  process_videos output_dir mode force_method skip_existing delay
    (length videos) 1 videos w.

End WithHost.

(** A host for examples: the world is the list of the files of the
    output directory; a child that is given an output file creates it
    and succeeds; [glob] knows only the patterns of [skip_pattern] and
    returns the files that contain the text between the stars. *)
Definition output_of (cmd : list string) : option string := nth_error cmd 6.

Definition between_stars (pattern : string) : string :=
  slice_to (String.length pattern - 6) (slice_from 1 pattern).

Definition stub : Host (list string) :=
  {| sys_executable := "python3";
     time_now := fun w => (1700000000%Z, w);
     subprocess_run := fun cmd w =>
       match output_of cmd with
       | Some file =>
           (Ran 0 ("Successfully saved to: " +:+ file) EmptyString, file :: w)
       | None => (Ran 1 EmptyString "usage", w)
       end;
     glob := fun _ pattern w =>
       (List.filter (contains (between_stars pattern)) w, w);
     sleep := fun _ w => w |}.

Definition video (video_id : string) : Video :=
  {| url := video_url_of video_id; title := "Title"; duration := 60 |}.

End Playlist.

(** ** The caption script ([transcribe_youtube_api.py]) *)

Module Api.
Import PyStr.

(** [format_transcript] for the text format without timestamps, on the
    [text] fields of the entries. *)
Definition format_plain (texts : list string) : string :=
  join " " (List.filter truthy (List.map strip texts)).

End Api.

(* ================================================================== *)
(** * Part II. Theorems                                                *)
(* ================================================================== *)

Module FilenameFacts.
Import PyStr Filename.

Example split_ws_ex :
  split_ws "  a bc   d " = ["a"; "bc"; "d"].
Proof. reflexivity. Qed.

Example sanitize_ex1 :
  sanitize_filename "  What?  is <this>: a/b  " = "What is this ab".
Proof. vm_compute. reflexivity. Qed.

(** *** Characters of the result *)

Lemma mem_remove_char_same c s : mem c (remove_char c s) = false.
Proof.
  induction s as [|a s IH]; simpl; [reflexivity|].
  destruct (Ascii.eqb a c) eqn:E; simpl; [exact IH|].
  now rewrite E, IH.
Qed.

Lemma mem_remove_char_mono c d s :
  mem c s = false -> mem c (remove_char d s) = false.
Proof.
  induction s as [|a s IH]; simpl; [reflexivity|].
  intros H. apply orb_false_iff in H as [Ha Hs].
  destruct (Ascii.eqb a d); simpl; [auto|].
  rewrite Ha. simpl. auto.
Qed.

Lemma mem_remove_all_mono c cs s :
  mem c s = false -> mem c (remove_all cs s) = false.
Proof.
  revert s. induction cs as [|d cs IH]; simpl; intros s H; [exact H|].
  apply IH. now apply mem_remove_char_mono.
Qed.

Lemma mem_remove_all c cs s :
  mem c cs = true -> mem c (remove_all cs s) = false.
Proof.
  revert s. induction cs as [|d cs IH]; simpl; intros s H; [discriminate|].
  destruct (Ascii.eqb d c) eqn:E.
  - apply Ascii.eqb_eq in E. subst d.
    apply mem_remove_all_mono, mem_remove_char_same.
  - simpl in H. now apply IH.
Qed.

Lemma join_cons_char sep a w ws :
  join sep (String a w :: ws) = String a (join sep (w :: ws)).
Proof. destruct ws; reflexivity. Qed.

(** The words of a string are not empty. *)
Lemma split_ws_nonempty s : Forall (fun w => w <> EmptyString) (split_ws s).
Proof.
  induction s as [|a s IH]; simpl; [constructor|].
  destruct (isspace a); [exact IH|].
  destruct s as [|b s']; [repeat constructor; discriminate|].
  destruct (isspace b).
  - constructor; [discriminate|exact IH].
  - destruct (split_ws (String b s')) as [|w ws].
    + repeat constructor; discriminate.
    + inversion IH; subst. constructor; [discriminate|assumption].
Qed.

Lemma split_ws_starts a s :
  isspace a = false -> split_ws (String a s) <> [].
Proof.
  intros Ha. simpl. rewrite Ha.
  destruct s as [|b s']; [discriminate|].
  destruct (isspace b); [discriminate|].
  destruct (split_ws (String b s')); discriminate.
Qed.

Lemma join_nonempty sep w ws :
  w <> EmptyString -> join sep (w :: ws) <> EmptyString.
Proof.
  intros Hw. destruct w as [|a w]; [contradiction|].
  rewrite join_cons_char. discriminate.
Qed.

(** One step of [' '.join(s.split())], by the first two characters. *)
Lemma normalise_step a s :
  join " " (split_ws (String a s)) =
  if isspace a then join " " (split_ws s)
  else match s with
       | EmptyString => String a EmptyString
       | String b _ =>
           if isspace b
           then match split_ws s with
                | [] => String a EmptyString
                | _ => String a (String " " (join " " (split_ws s)))
                end
           else String a (join " " (split_ws s))
       end.
Proof.
  cbn [split_ws]. destruct (isspace a) eqn:Ha; [reflexivity|].
  destruct s as [|b s']; [reflexivity|].
  destruct (isspace b) eqn:Hb.
  - destruct (split_ws (String b s')); reflexivity.
  - pose proof (split_ws_starts b s' Hb) as Hne.
    destruct (split_ws (String b s')) as [|w ws]; [contradiction|].
    apply join_cons_char.
Qed.

Lemma mem_normalise c s :
  mem c (join " " (split_ws s)) = true -> mem c s = true \/ c = " "%char.
Proof.
  induction s as [|a s IH]; [simpl; discriminate|].
  rewrite normalise_step.
  assert (Hcons : forall t, mem c (String a t) = true ->
            (mem c t = true -> mem c s = true \/ c = " "%char) ->
            mem c (String a s) = true \/ c = " "%char).
  { intros t H K. simpl in H |- *. apply orb_true_iff in H as [H|H].
    - left. now rewrite H.
    - destruct (K H) as [K1|K1]; [left|right]; auto.
      rewrite K1. apply orb_true_r. }
  destruct (isspace a).
  - intros H. destruct (IH H) as [K|K]; [left|right]; auto.
    simpl. rewrite K. apply orb_true_r.
  - destruct s as [|b s']; [intros H; left; exact H|].
    destruct (isspace b).
    + destruct (split_ws (String b s')) as [|w ws] eqn:E.
      * intros H. apply (Hcons EmptyString H). simpl. discriminate.
      * intros H. apply (Hcons _ H). intros H1.
        simpl in H1. apply orb_true_iff in H1 as [H1|H1]; [|auto].
        right. symmetry. now apply Ascii.eqb_eq.
    + intros H. apply (Hcons _ H). exact IH.
Qed.

Lemma mem_slice_to c n s : mem c (slice_to n s) = true -> mem c s = true.
Proof.
  revert s. induction n as [|n IH]; intros [|a s]; simpl; try discriminate.
  intros H. apply orb_true_iff in H as [H|H]; [now rewrite H|].
  rewrite (IH _ H). apply orb_true_r.
Qed.

Lemma mem_lstrip c s : mem c (lstrip s) = true -> mem c s = true.
Proof.
  induction s as [|a s IH]; simpl; [discriminate|].
  destruct (isspace a); [|auto].
  intros H. rewrite (IH H). apply orb_true_r.
Qed.

Lemma mem_rstrip c s : mem c (rstrip s) = true -> mem c s = true.
Proof.
  induction s as [|a s IH]; simpl; [discriminate|].
  destruct (rstrip s) as [|b r].
  - destruct (isspace a); simpl; [discriminate|].
    rewrite orb_false_r. intros ->. reflexivity.
  - intros H. change (mem c (String a (String b r)))
      with (Ascii.eqb a c || mem c (String b r)) in H.
    apply orb_true_iff in H as [H|H]; [now rewrite H|].
    rewrite (IH H). apply orb_true_r.
Qed.

Lemma mem_strip c s : mem c (strip s) = true -> mem c s = true.
Proof. intros H. now apply mem_lstrip, mem_rstrip. Qed.

(** *** Shape of the result *)

Lemma run_free_cons a s :
  run_free (String a s) <->
  match s with
  | String b _ => isspace a && isspace b = false
  | EmptyString => True
  end /\ run_free s.
Proof. destruct s; simpl; tauto. Qed.

Lemma last_ok_cons a s :
  last_ok (String a s) <->
  match s with
  | EmptyString => isspace a = false
  | _ => last_ok s
  end.
Proof. destruct s; simpl; tauto. Qed.

Lemma normalise_shape s :
  let r := join " " (split_ws s) in head_ok r /\ last_ok r /\ run_free r.
Proof.
  induction s as [|a s IH]; [simpl; auto|].
  cbv zeta in *. rewrite normalise_step.
  destruct (isspace a) eqn:Ha; [exact IH|].
  destruct s as [|b s']; [simpl; auto|].
  destruct IH as (Hh & Hl & Hr).
  set (r := join " " (split_ws (String b s'))) in *.
  destruct (isspace b) eqn:Hb.
  - destruct (split_ws (String b s')) as [|w ws] eqn:E; [simpl; auto|].
    assert (Hne : r <> EmptyString).
    { pose proof (split_ws_nonempty (String b s')) as F. rewrite E in F.
      inversion F; subst. now apply join_nonempty. }
    destruct r as [|h t]; [contradiction|].
    simpl in Hh. split; [exact Ha|]. split; [exact Hl|].
    apply run_free_cons. split; [now rewrite Ha|].
    apply run_free_cons. split; [|exact Hr].
    rewrite Hh. apply andb_false_r.
  - split; [exact Ha|]. split.
    + apply last_ok_cons. destruct r; [exact Ha|exact Hl].
    + apply run_free_cons. split; [|exact Hr].
      destruct r; [exact I|]. now rewrite Ha.
Qed.

Lemma head_ok_slice_to n s : head_ok s -> head_ok (slice_to n s).
Proof. destruct n, s; simpl; auto. Qed.

Lemma run_free_slice_to n s : run_free s -> run_free (slice_to n s).
Proof.
  revert s. induction n as [|n IH]; intros [|a s] H; try exact I.
  cbn [slice_to]. apply run_free_cons in H as [H1 H2].
  apply run_free_cons. split; [|now apply IH].
  destruct n, s; simpl; auto.
Qed.

Lemma run_free_lstrip s : run_free s -> run_free (lstrip s).
Proof.
  induction s as [|a s IH]; [auto|].
  intros H. simpl. destruct (isspace a); [|exact H].
  apply IH. apply run_free_cons in H. apply H.
Qed.

Lemma head_ok_lstrip s : head_ok (lstrip s).
Proof.
  induction s as [|a s IH]; simpl; [exact I|].
  destruct (isspace a) eqn:E; [exact IH|exact E].
Qed.

Lemma rstrip_cons a s :
  rstrip (String a s) =
  match rstrip s with
  | EmptyString => if isspace a then EmptyString else String a EmptyString
  | r => String a r
  end.
Proof. reflexivity. Qed.

(** The first character of a non-empty [rstrip s] is that of [s]. *)
Lemma rstrip_head s b r :
  rstrip s = String b r -> exists t, s = String b t.
Proof.
  destruct s as [|a s]; [discriminate|].
  rewrite rstrip_cons. destruct (rstrip s).
  - destruct (isspace a); [discriminate|]. intros [= <- <-]. eauto.
  - intros [= <- <-]. eauto.
Qed.

Lemma head_ok_rstrip s : head_ok s -> head_ok (rstrip s).
Proof.
  intros H. destruct (rstrip s) as [|b r] eqn:E; [exact I|].
  apply rstrip_head in E as [t ->]. exact H.
Qed.

Lemma last_ok_rstrip s : last_ok (rstrip s).
Proof.
  induction s as [|a s IH]; [exact I|].
  rewrite rstrip_cons. destruct (rstrip s) as [|b r].
  - destruct (isspace a) eqn:E; [exact I|exact E].
  - apply last_ok_cons. exact IH.
Qed.

Lemma run_free_rstrip s : run_free s -> run_free (rstrip s).
Proof.
  induction s as [|a s IH]; [auto|].
  intros H. apply run_free_cons in H as [H1 H2].
  rewrite rstrip_cons. destruct (rstrip s) as [|b r] eqn:E.
  - destruct (isspace a); exact I.
  - apply run_free_cons. split; [|now apply IH].
    apply rstrip_head in E as [t ->]. exact H1.
Qed.

Lemma length_slice_to n s : String.length (slice_to n s) <= n.
Proof.
  revert s. induction n as [|n IH]; intros [|a s]; simpl; try lia.
  specialize (IH s). lia.
Qed.

Lemma length_lstrip s : String.length (lstrip s) <= String.length s.
Proof.
  induction s as [|a s IH]; simpl; [lia|].
  destruct (isspace a); simpl; lia.
Qed.

Lemma length_rstrip s : String.length (rstrip s) <= String.length s.
Proof.
  induction s as [|a s IH]; [simpl; lia|].
  rewrite rstrip_cons. destruct (rstrip s).
  - destruct (isspace a); simpl; lia.
  - simpl in *. lia.
Qed.

Lemma length_strip s : String.length (strip s) <= String.length s.
Proof.
  unfold strip. pose proof (length_rstrip (lstrip s)).
  pose proof (length_lstrip s). lia.
Qed.

(** *** From the recursive form to positions *)

Lemma run_free_positions s : run_free s -> no_whitespace_run s.
Proof.
  unfold no_whitespace_run. induction s as [|a s IH]; intros H i x y Hx Hy Sx Sy.
  - destruct i; discriminate.
  - apply run_free_cons in H as [H1 H2]. destruct i as [|i].
    + simpl in Hx. injection Hx as ->.
      destruct s as [|b s']; [discriminate|].
      simpl in Hy. injection Hy as ->.
      rewrite Sx, Sy in H1. discriminate.
    + simpl in Hx. change (String.get i s = Some x) in Hx.
      change (String.get (S i) s = Some y) in Hy. eauto.
Qed.

Lemma head_ok_positions s : head_ok s -> no_leading_whitespace s.
Proof.
  intros H a Ha. destruct s; [discriminate|].
  simpl in Ha. injection Ha as ->. exact H.
Qed.

Lemma last_ok_positions s : last_ok s -> no_trailing_whitespace s.
Proof.
  unfold no_trailing_whitespace. induction s as [|a s IH]; intros H x Hx.
  - discriminate.
  - destruct s as [|b s'].
    + simpl in Hx. injection Hx as ->. exact H.
    + apply (IH H). simpl in Hx |- *. now rewrite Nat.sub_0_r.
Qed.

(** *** The sanitised name *)

Lemma sanitize_filename_unfold filename :
  sanitize_filename filename =
  strip (truncated (join " " (split_ws (remove_all invalid_chars filename)))).
Proof. reflexivity. Qed.

Lemma length_truncated s : String.length (truncated s) <= 200.
Proof.
  unfold truncated. destruct (200 <? String.length s) eqn:E.
  - apply length_slice_to.
  - apply Nat.ltb_ge in E. exact E.
Qed.

Lemma mem_truncated c s : mem c (truncated s) = true -> mem c s = true.
Proof. unfold truncated. destruct (_ <? _); [apply mem_slice_to|auto]. Qed.

Lemma truncated_shape s :
  head_ok s -> run_free s -> head_ok (truncated s) /\ run_free (truncated s).
Proof.
  unfold truncated. destruct (_ <? _); [|auto].
  intros. split; [now apply head_ok_slice_to|now apply run_free_slice_to].
Qed.

(** C10. For every input string, [sanitize_filename] returns a string of
    length at most 200 that contains none of the characters
    [<], [>], [:], the double quote, [/], [\], [|], [?] and [*], in which no two neighbouring characters are both
    whitespace, and that neither starts nor ends with whitespace. *)
Theorem sanitize_filename_safe (filename : string) :
  let r := sanitize_filename filename in
  String.length r <= 200 /\
  (forall c : ascii,
      In c ["<"; ">"; ":"; ascii_of_nat 34; "/"; "\"; "|"; "?"; "*"]%char ->
      mem c r = false) /\
  no_whitespace_run r /\
  no_leading_whitespace r /\
  no_trailing_whitespace r.
Proof.
  cbv zeta. rewrite sanitize_filename_unfold.
  set (f1 := remove_all invalid_chars filename).
  set (f2 := join " " (split_ws f1)).
  destruct (normalise_shape f1) as (Hh & _ & Hr). fold f2 in Hh, Hr.
  destruct (truncated_shape f2 Hh Hr) as [Hh3 Hr3].
  split; [|split; [|split; [|split]]].
  - pose proof (length_strip (truncated f2)).
    pose proof (length_truncated f2). lia.
  - intros c Hc.
    assert (Hin : mem c invalid_chars = true /\ c <> " "%char).
    { simpl in Hc.
      repeat (destruct Hc as [<-|Hc]; [split; [reflexivity|discriminate]|]).
      contradiction. }
    destruct Hin as [Hin Hsp].
    destruct (mem c (strip (truncated f2))) eqn:E; [|reflexivity].
    apply mem_strip, mem_truncated, mem_normalise in E.
    destruct E as [E|E]; [|contradiction].
    unfold f1 in E. rewrite (mem_remove_all c _ _ Hin) in E. discriminate.
  - apply run_free_positions. unfold strip.
    now apply run_free_rstrip, run_free_lstrip.
  - apply head_ok_positions. unfold strip.
    apply head_ok_rstrip, head_ok_lstrip.
  - apply last_ok_positions. unfold strip. apply last_ok_rstrip.
Qed.

End FilenameFacts.

Module IdentFacts.
Import PyStr UrlParse Ident.

Example urlparse_ex :
  urlparse "HTTPS://user@WWW.YouTube.com:443/a/b;p?x=1&v=abc#frag" =
  Returned {| scheme := "https"; netloc := "user@WWW.YouTube.com:443";
              path := "/a/b"; params := "p"; query := "x=1&v=abc";
              fragment := "frag" |}.
Proof. vm_compute. reflexivity. Qed.

Example hostname_ex :
  hostname {| scheme := "https"; netloc := "user@WWW.YouTube.com:443";
              path := "/"; params := EmptyString; query := EmptyString;
              fragment := EmptyString |} = Some "www.youtube.com".
Proof. vm_compute. reflexivity. Qed.

Example parse_qsl_ex :
  parse_qsl "v=&v=a+b%41%zz&=x&t" = [("v", "a bA%zz"); (EmptyString, "x")].
Proof. vm_compute. reflexivity. Qed.

Example extract_watch_ex :
  extract_video_id "https://www.youtube.com/watch?t=3&v=dQw4w9WgXcQ" =
  Returned (Some "dQw4w9WgXcQ").
Proof. vm_compute. reflexivity. Qed.

Example extract_mobile_ex :
  extract_video_id "https://m.youtube.com/watch?v=dQw4w9WgXcQ&t=3" =
  Returned (Some "dQw4w9WgXcQ").
Proof. vm_compute. reflexivity. Qed.

Example extract_short_ex :
  extract_video_id "https://youtu.be/dQw4w9WgXcQ?t=3" =
  Returned (Some "dQw4w9WgXcQ").
Proof. vm_compute. reflexivity. Qed.

Example extract_embed_ex :
  extract_video_id "https://www.youtube.com/embed/dQw4w9WgXcQ" =
  Returned (Some "dQw4w9WgXcQ").
Proof. vm_compute. reflexivity. Qed.

Example extract_bare_ex :
  extract_video_id "dQw4w9WgXcQ" = Returned None.
Proof. vm_compute. reflexivity. Qed.


(** *** Strings in which a character does not occur *)

Lemma absent_cons c a t :
  mem c (String a t) = false -> Ascii.eqb a c = false /\ mem c t = false.
Proof. simpl. apply orb_false_iff. Qed.

Lemma remove_char_absent c s : mem c s = false -> remove_char c s = s.
Proof.
  induction s as [|a s IH]; [reflexivity|].
  intros [Ha Hs]%absent_cons. simpl. rewrite Ha. f_equal. auto.
Qed.

Lemma replace_char_absent c d s : mem c s = false -> replace_char c d s = s.
Proof.
  induction s as [|a s IH]; [reflexivity|].
  intros [Ha Hs]%absent_cons. simpl. rewrite Ha. f_equal. auto.
Qed.

Lemma partition_absent c s :
  mem c s = false -> partition c s = (s, false, EmptyString).
Proof.
  induction s as [|a s IH]; [reflexivity|].
  intros [Ha Hs]%absent_cons. simpl. rewrite Ha, (IH Hs). reflexivity.
Qed.

Lemma rpartition_absent c s :
  mem c s = false -> rpartition c s = (EmptyString, false, s).
Proof.
  induction s as [|a s IH]; [reflexivity|].
  intros [Ha Hs]%absent_cons. simpl. rewrite (IH Hs), Ha. reflexivity.
Qed.

Lemma split_char_absent c s : mem c s = false -> split_char c s = [s].
Proof.
  induction s as [|a s IH]; [reflexivity|].
  intros [Ha Hs]%absent_cons. simpl. rewrite Ha, (IH Hs). reflexivity.
Qed.

Lemma break_absent p s :
  all_chars (fun a => negb (p a)) s = true -> break p s = (s, EmptyString).
Proof.
  induction s as [|a s IH]; [reflexivity|].
  simpl. intros [Ha Hs]%andb_true_iff.
  apply negb_true_iff in Ha. rewrite Ha, (IH Hs). reflexivity.
Qed.

Lemma all_chars_impl (p q : ascii -> bool) s :
  (forall a, p a = true -> q a = true) ->
  all_chars p s = true -> all_chars q s = true.
Proof.
  intros Hpq. induction s as [|a s IH]; [reflexivity|].
  simpl. intros [Ha Hs]%andb_true_iff. rewrite (Hpq _ Ha). simpl. auto.
Qed.

Lemma all_chars_absent p c s :
  p c = false -> all_chars p s = true -> mem c s = false.
Proof.
  intros Hc. induction s as [|a s IH]; [reflexivity|].
  simpl. intros [Ha Hs]%andb_true_iff. rewrite (IH Hs), orb_false_r.
  destruct (Ascii.eqb a c) eqn:E; [|reflexivity].
  apply Ascii.eqb_eq in E. congruence.
Qed.

Lemma is_id_char_hex_free a : is_id_char a = true -> Ascii.eqb a "%" = false.
Proof.
  destruct (Ascii.eqb a "%") eqn:E; [|reflexivity].
  apply Ascii.eqb_eq in E. subst a. discriminate.
Qed.

Lemma unquote_id s : all_chars is_id_char s = true -> unquote s = s.
Proof.
  induction s as [|a s IH]; [reflexivity|].
  cbn [all_chars]. intros [Ha Hs]%andb_true_iff.
  cbn [unquote]. rewrite (is_id_char_hex_free _ Ha). f_equal. auto.
Qed.

Lemma id_chars_all n s :
  String.length s = n -> all_chars is_id_char s = true -> id_chars n s = Some s.
Proof.
  revert s.
  induction n as [|n IH]; intros [|a s]; try discriminate; [reflexivity|].
  cbn [String.length all_chars id_chars]. intros [= Hl] [Ha Hs]%andb_true_iff.
  rewrite Ha, (IH s Hl Hs). reflexivity.
Qed.

Lemma match_here_id s : all_chars is_id_char s = true -> match_here s = None.
Proof.
  destruct s as [|a s]; [reflexivity|].
  cbn [all_chars]. intros [Ha Hs]%andb_true_iff. unfold match_here.
  destruct (Ascii.eqb a "/") eqn:E1.
  { apply Ascii.eqb_eq in E1. subst a. discriminate. }
  destruct (Ascii.eqb a "v"); [|reflexivity].
  destruct s as [|d s]; [reflexivity|].
  cbn [all_chars] in Hs. apply andb_true_iff in Hs as [Hd _].
  destruct (Ascii.eqb d "=") eqn:E2; [|reflexivity].
  apply Ascii.eqb_eq in E2. subst d. discriminate.
Qed.

Lemma re_search_id s : all_chars is_id_char s = true -> re_search s = None.
Proof.
  induction s as [|a s IH]; [reflexivity|].
  intros H. cbn [re_search]. rewrite (match_here_id _ H).
  cbn [all_chars] in H. apply andb_true_iff in H as [_ Hs]. auto.
Qed.

Lemma startswith_nil s : startswith s EmptyString = true.
Proof. destruct s; reflexivity. Qed.

(** *** The shapes of a reference to one identifier *)

Section Shapes.
Variable id : string.
Hypothesis id_ok : valid_id id = true.

Lemma id_chars_ok : all_chars is_id_char id = true.
Proof. unfold valid_id in id_ok. now apply andb_true_iff in id_ok. Qed.

Lemma id_length : String.length id = 11.
Proof.
  unfold valid_id in id_ok. apply andb_true_iff in id_ok as [H _].
  now apply Nat.eqb_eq.
Qed.

Lemma id_absent c : is_id_char c = false -> mem c id = false.
Proof. intros H. exact (all_chars_absent _ _ _ H id_chars_ok). Qed.

Lemma id_nonempty : truthy id = true.
Proof. pose proof id_length. destruct id; [discriminate|reflexivity]. Qed.

Ltac id_simpl :=
  repeat first
    [ rewrite (remove_char_absent _ id) by (apply id_absent; reflexivity)
    | rewrite (replace_char_absent _ _ id) by (apply id_absent; reflexivity)
    | rewrite (partition_absent _ id) by (apply id_absent; reflexivity)
    | rewrite (rpartition_absent _ id) by (apply id_absent; reflexivity)
    | rewrite (split_char_absent _ id) by (apply id_absent; reflexivity)
    | rewrite (id_absent _) by reflexivity
    | rewrite (unquote_id id id_chars_ok)
    | rewrite id_nonempty
    | rewrite startswith_nil
    | progress simpl ].

Lemma extract_watch : extract_video_id (watch_url id) = Returned (Some id).
Proof.
  unfold extract_video_id, urlparse, urlsplit, watch_url, remove_unsafe.
  cbv [String.append]. id_simpl.
  unfold qs_first, parse_qsl, decode_field. id_simpl. reflexivity.
Qed.

Lemma extract_short : extract_video_id (short_url id) = Returned (Some id).
Proof.
  unfold extract_video_id, urlparse, urlsplit, short_url, remove_unsafe.
  cbv [String.append]. id_simpl. reflexivity.
Qed.

Lemma extract_embed : extract_video_id (embed_url id) = Returned (Some id).
Proof.
  unfold extract_video_id, urlparse, urlsplit, embed_url, remove_unsafe.
  cbv [String.append]. id_simpl. reflexivity.
Qed.

Lemma id_head : exists a t, id = String a t /\ is_id_char a = true.
Proof.
  pose proof id_chars_ok as H. pose proof id_length as L.
  destruct id as [|a t]; [discriminate|].
  cbn [all_chars] in H. apply andb_true_iff in H as [Ha _]. eauto.
Qed.

Lemma lstrip_c0_id : lstrip_c0 id = id.
Proof.
  destruct id_head as (a & t & -> & Ha). cbn [lstrip_c0].
  destruct (code a <=? 32)%N eqn:E; [|reflexivity].
  exfalso. revert Ha E.
  destruct a as [[] [] [] [] [] [] [] []]; vm_compute; congruence.
Qed.

Lemma split_scheme_id : split_scheme id = (EmptyString, id).
Proof.
  unfold split_scheme.
  rewrite partition_absent by (apply id_absent; reflexivity).
  destruct id; reflexivity.
Qed.

Lemma startswith_slashes_id : startswith id "//" = false.
Proof.
  destruct id_head as (a & t & -> & Ha). unfold startswith. cbn [String.prefix].
  destruct (ascii_dec "/" a) as [<-|]; [discriminate|reflexivity].
Qed.

Lemma urlparse_bare :
  urlparse (bare_id id) =
  Returned {| scheme := EmptyString; netloc := EmptyString; path := id; params := EmptyString;
              query := EmptyString; fragment := EmptyString |}.
Proof.
  unfold urlparse, urlsplit, bare_id, remove_unsafe.
  rewrite lstrip_c0_id. id_simpl.
  rewrite split_scheme_id, startswith_slashes_id. id_simpl. reflexivity.
Qed.

Lemma extract_bare : extract_video_id (bare_id id) = Returned None.
Proof.
  unfold extract_video_id. rewrite urlparse_bare. cbn.
  unfold bare_id. now rewrite (re_search_id id id_chars_ok).
Qed.

End Shapes.

(** C8, as the code has it. For every identifier of eleven characters of
    the class [[0-9A-Za-z_-]], [extract_video_id] returns that identifier
    from the watch URL, from the short URL and from the embed URL that wrap
    it; from the bare identifier it returns [None]. *)
Theorem resolve_url_shapes (id : string) :
  valid_id id = true ->
  extract_video_id (watch_url id) = Returned (Some id) /\
  extract_video_id (short_url id) = Returned (Some id) /\
  extract_video_id (embed_url id) = Returned (Some id) /\
  extract_video_id (bare_id id) = Returned None.
Proof.
  intros H. repeat split.
  - now apply extract_watch.
  - now apply extract_short.
  - now apply extract_embed.
  - now apply extract_bare.
Qed.

Lemma resolve_url_shapes_witness :
  valid_id "dQw4w9WgXcQ" = true /\
  extract_video_id (watch_url "dQw4w9WgXcQ") = Returned (Some "dQw4w9WgXcQ") /\
  extract_video_id (short_url "dQw4w9WgXcQ") = Returned (Some "dQw4w9WgXcQ") /\
  extract_video_id (embed_url "dQw4w9WgXcQ") = Returned (Some "dQw4w9WgXcQ") /\
  extract_video_id (bare_id "dQw4w9WgXcQ") = Returned None.
Proof.
  split; [reflexivity|].
  apply (resolve_url_shapes "dQw4w9WgXcQ"). reflexivity.
Defined.

(** C8, as stated, fails on the bare identifier: an identifier that the
    three URL shapes resolve is not resolved when it stands alone. *)
Lemma resolve_bare_id_counterexample :
  valid_id "dQw4w9WgXcQ" = true /\
  extract_video_id (watch_url "dQw4w9WgXcQ") = Returned (Some "dQw4w9WgXcQ") /\
  extract_video_id (bare_id "dQw4w9WgXcQ") <>
  extract_video_id (watch_url "dQw4w9WgXcQ").
Proof. repeat split; vm_compute; congruence. Qed.

End IdentFacts.

Module FloatFacts.
Import Float Direct.
#[local] Open Scope Q_scope.

Example round_tenth :
  Qred (round (1 # 10)) = 3602879701896397 # 36028797018963968.
Proof. vm_compute. reflexivity. Qed.

Example add_tenths :
  Qred (add (round (1 # 10)) (round (2 # 10))) =
  1351079888211149 # 4503599627370496.
Proof. vm_compute. reflexivity. Qed.

Example add_below_one : Qred (add 1 below_one) = 2.
Proof. vm_compute. reflexivity. Qed.

Lemma nearest_even_bounds x :
  (Qfloor x <= nearest_even x <= Qfloor x + 1)%Z.
Proof.
  unfold nearest_even. destruct (Qcompare _ _); [destruct (Z.even _)| |]; lia.
Qed.

Lemma nearest_even_ge m x : inject_Z m <= x -> (m <= nearest_even x)%Z.
Proof.
  intros H. apply Qfloor_resp_le in H. rewrite Qfloor_Z in H.
  pose proof (nearest_even_bounds x). lia.
Qed.

Lemma nearest_even_le m x : x <= inject_Z m -> (nearest_even x <= m)%Z.
Proof.
  intros H. pose proof (nearest_even_bounds x) as B.
  destruct (Z_lt_le_dec (Qfloor x) m) as [L|L]; [lia|].
  assert (E : Qfloor x = m).
  { apply Qfloor_resp_le in H. rewrite Qfloor_Z in H. lia. }
  unfold nearest_even. rewrite E.
  assert (K : x - inject_Z m < 1 # 2).
  { assert (x - inject_Z m <= 0) by lra. lra. }
  destruct (Qcompare_spec (x - inject_Z m) (1 # 2)); [lra|lia|lra].
Qed.

Lemma nearest_even_near m x :
  inject_Z m <= x -> x < inject_Z m + (1 # 2) -> nearest_even x = m.
Proof.
  intros H1 H2.
  assert (E : Qfloor x = m).
  { pose proof (Qfloor_resp_le _ _ H1) as A. rewrite Qfloor_Z in A.
    pose proof (Qfloor_le x) as B.
    assert (C : inject_Z (Qfloor x) < inject_Z (m + 1)).
    { rewrite inject_Z_plus. change (inject_Z 1) with 1. lra. }
    rewrite <- Zlt_Qlt in C. lia. }
  unfold nearest_even. rewrite E.
  assert (K : x - inject_Z m < 1 # 2) by lra.
  destruct (Qcompare_spec (x - inject_Z m) (1 # 2)); [lra|reflexivity|lra].
Qed.

Lemma pow2_pos e : 0 < 2 ^ e.
Proof. apply Qpower_0_lt. reflexivity. Qed.

Lemma pow2_split a b : 2 ^ (a + b) == 2 ^ a * 2 ^ b.
Proof. apply Qpower_plus. discriminate. Qed.

Lemma backoff_pow a : backoff a == 2 ^ Z.of_nat a.
Proof. unfold backoff. apply Zpower_Qpower. lia. Qed.

Lemma backoff_pos a : 1 <= backoff a.
Proof.
  unfold backoff. change 1 with (inject_Z 1). rewrite <- Zle_Qle.
  pose proof (Z.pow_pos_nonneg 2 (Z.of_nat a)). lia.
Qed.

Lemma backoff_mono a b : (a <= b)%nat -> backoff a <= backoff b.
Proof.
  intros H. unfold backoff. rewrite <- Zle_Qle.
  apply Z.pow_le_mono_r; lia.
Qed.

Lemma backoff_succ n : backoff (S n) == 2 * backoff n.
Proof.
  unfold backoff. rewrite Nat2Z.inj_succ, Z.pow_succ_r by lia.
  now rewrite inject_Z_mult.
Qed.

(** The binade of a sum [2^a + j] with [j] in the unit interval. *)
Lemma exponent_backoff a j :
  0 <= j -> j < 1 -> exponent (backoff a + j) = Z.of_nat a.
Proof.
  intros H0 H1. pose proof (backoff_pos a) as B.
  unfold exponent.
  assert (E : Qabs (backoff a + j) == backoff a + j)
    by (apply Qabs_pos; lra).
  assert (L : Qle_bool 1 (Qabs (backoff a + j)) = true).
  { apply Qle_bool_iff. rewrite E. lra. }
  rewrite L, (Qfloor_comp _ _ E).
  apply Z.log2_unique; [lia|]. split.
  - assert (K : backoff a <= backoff a + j) by lra.
    apply Qfloor_resp_le in K. unfold backoff in K at 1.
    now rewrite Qfloor_Z in K.
  - pose proof (Qfloor_le (backoff a + j)) as K.
    assert (M : inject_Z (Qfloor (backoff a + j)) <
                inject_Z (2 ^ (Z.of_nat a + 1))).
    { rewrite Z.pow_add_r by lia. rewrite inject_Z_mult.
      fold (backoff a). change (inject_Z (2 ^ 1)) with 2. lra. }
    now rewrite <- Zlt_Qlt in M.
Qed.

Lemma ulp_backoff a j :
  0 <= j -> j < 1 -> ulp (backoff a + j) = 2 ^ (Z.of_nat a - 52).
Proof.
  intros H0 H1. unfold ulp. rewrite (exponent_backoff a j H0 H1).
  now rewrite Z.max_l by lia.
Qed.

Lemma backoff_ulps a :
  backoff a == inject_Z (2 ^ 52) * 2 ^ (Z.of_nat a - 52).
Proof.
  rewrite backoff_pow, (Zpower_Qpower 2 52) by lia.
  rewrite <- pow2_split.
  now replace (52 + (Z.of_nat a - 52))%Z with (Z.of_nat a) by lia.
Qed.

(** The float sum of [2 ** attempt] and a jitter in the unit interval
    lies between [2 ** attempt] and [2 ** attempt + 1], both ends
    included. *)
Lemma add_backoff_range a j :
  0 <= j -> j < 1 ->
  backoff a <= add (backoff a) j /\ add (backoff a) j <= backoff a + 1.
Proof.
  intros H0 H1. unfold add, round. rewrite (ulp_backoff a j H0 H1).
  set (u := 2 ^ (Z.of_nat a - 52)).
  assert (Hu : 0 < u) by apply pow2_pos.
  pose proof (backoff_ulps a) as Hb. fold u in Hb.
  set (q := (backoff a + j) / u).
  assert (Hq : q * u == backoff a + j).
  { unfold q. field. lra. }
  assert (Hlow : inject_Z (2 ^ 52) <= q).
  { apply Qmult_le_r with (z := u); [exact Hu|]. rewrite Hq, <- Hb. lra. }
  split.
  - rewrite Hb. apply Qmult_le_compat_r; [|lra].
    rewrite <- Zle_Qle. now apply nearest_even_ge.
  - destruct (Z_le_gt_dec (Z.of_nat a) 52) as [Ha|Ha].
    + assert (H1u : 1 == inject_Z (2 ^ (52 - Z.of_nat a)) * u).
      { rewrite Zpower_Qpower by lia. unfold u. rewrite <- pow2_split.
        now replace (52 - Z.of_nat a + (Z.of_nat a - 52))%Z with 0%Z by lia. }
      assert (Hup : q <= inject_Z (2 ^ 52 + 2 ^ (52 - Z.of_nat a))).
      { apply Qmult_le_r with (z := u); [exact Hu|].
        rewrite Hq, inject_Z_plus, Qmult_plus_distr_l, <- Hb, <- H1u. lra. }
      apply nearest_even_le in Hup. rewrite Zle_Qle in Hup.
      apply Qle_trans with
        (inject_Z (2 ^ 52 + 2 ^ (52 - Z.of_nat a)) * u).
      * apply Qmult_le_compat_r; [exact Hup|lra].
      * rewrite inject_Z_plus, Qmult_plus_distr_l, <- Hb, <- H1u. lra.
    + assert (Hu2 : 2 <= u).
      { unfold u. change 2 with (2 ^ 1) at 1.
        apply Qpower_le_compat_l; [lia|lra]. }
      assert (Hnear : q < inject_Z (2 ^ 52) + (1 # 2)).
      { apply Qmult_lt_r with (z := u); [exact Hu|].
        rewrite Hq, Qmult_plus_distr_l, <- Hb.
        assert ((1 # 2) * 2 <= (1 # 2) * u) by (apply Qmult_le_l; lra).
        lra. }
      rewrite (nearest_even_near _ _ Hlow Hnear), <- Hb. lra.
Qed.

End FloatFacts.

Module DirectFacts.
Import PyStr Direct.

Example retry_twice_then_text :
  transcribe_youtube_video (stub (fails_first 2 overload_error))
    "u" pro 5 transcribe 0 =
  (Returned (Some "text"), 3,
   [Generate "gemini-2.5-pro" (prompt_for transcribe) "u";
    Sleep (Float.add (backoff 0) (1 # 2));
    Generate "gemini-2.5-pro" (prompt_for transcribe) "u";
    Sleep (Float.add (backoff 1) (1 # 2));
    Generate "gemini-2.5-pro" (prompt_for transcribe) "u"]).
Proof. vm_compute. reflexivity. Qed.

(** Five refused requests at the stub service: the world, which counts
    the requests, ends at 5. *)
Example five_requests_at_stub :
  let '(r, w', tr) :=
    transcribe_youtube_video (stub (fun _ => Raised overload_error))
      "u" pro 5 transcribe 0 in
  r = Raised "Model overloaded after 5 attempts. Please try again later." /\
  w' = 5 /\ calls tr = 5 /\ paced tr = true.
Proof. vm_compute. repeat split. Qed.

Section Retry.
Context {W : Type} (svc : Service W).

Lemma calls_cons e tr :
  calls (e :: tr) = (if is_generate e then 1 else 0) + calls tr.
Proof. unfold calls. simpl. destruct (is_generate e); reflexivity. Qed.

Lemma retry_loop_exhausts :
  always_overloaded svc ->
  forall remaining attempt max_retries model prompt url w,
    attempt + remaining = max_retries -> 0 < remaining ->
    max_retries <= 1025 ->
    exists w' tr,
      retry_loop svc remaining attempt max_retries model prompt url w =
        (Raised (overloaded_message max_retries), w', tr) /\
      calls tr = remaining /\
      refused svc model prompt url remaining w w' /\
      paced tr = true /\
      exists rest, tr = Generate model prompt url :: rest.
Proof.
  intros Hsvc.
  induction remaining as [|r IH]; intros a m model prompt url w Hsum Hpos Hm.
  - lia.
  - cbn [retry_loop].
    destruct (Hsvc model prompt url w) as (e & w1 & Hg & Ho).
    rewrite Hg, Ho.
    destruct (a <? m - 1) eqn:E.
    + destruct (random_uniform svc w1) as [j w2] eqn:Hr.
      apply Nat.ltb_lt in E.
      replace (1023 <? a) with false by (symmetry; apply Nat.ltb_ge; lia).
      destruct (IH (S a) m model prompt url w2)
        as (w3 & tr & -> & Hc & Hw & Hp & rest & ->); [lia|lia|lia|].
      eexists _, _. split; [reflexivity|]. split; [|split; [|split]].
      * rewrite !calls_cons in *. simpl in *. lia.
      * eapply refused_more; eassumption.
      * exact Hp.
      * eauto.
    + apply Nat.ltb_ge in E. eexists _, _. split; [reflexivity|].
      split; [|split; [|split]].
      * rewrite calls_cons. simpl. unfold calls. simpl. lia.
      * replace r with 0 by lia. eapply refused_last. exact Hg.
      * reflexivity.
      * eauto.
Qed.

Lemma retry_loop_trace :
  jitter_in_range svc ->
  forall remaining attempt max_retries model prompt url w,
    backoff_trace (drawn svc) attempt
      (snd (retry_loop svc remaining attempt max_retries model prompt url w)).
Proof.
  intros Hj. induction remaining as [|r IH]; intros a m model prompt url w.
  - constructor.
  - cbn [retry_loop].
    destruct (generate_content svc model prompt url w) as [[text|e] w1].
    + now constructor.
    + destruct (overloaded e).
      * destruct (a <? m - 1).
        -- pose proof (Hj w1) as Hr. specialize (IH (S a) m model prompt url).
           assert (Hd : drawn svc (fst (random_uniform svc w1))) by now exists w1.
           destruct (random_uniform svc w1) as [j w2]. specialize (IH w2).
           destruct (1023 <? a); [now constructor|].
           destruct (retry_loop svc r (S a) m model prompt url w2)
             as [[res w3] tr].
           simpl in *. now constructor.
        -- now constructor.
      * destruct (too_many_tokens e); now constructor.
Qed.

Lemma calls_app tr1 tr2 : calls (tr1 ++ tr2) = calls tr1 + calls tr2.
Proof. unfold calls. now rewrite List.filter_app, List.length_app. Qed.

Lemma backoff_trace_before P a tr :
  backoff_trace P a tr ->
  forall pre e g post,
    tr = pre ++ e :: g :: post -> is_generate g = true ->
    exists j, P j /\ (0 <= j /\ j < 1)%Q /\
              e = Sleep (Float.add (backoff (a + calls pre - 1)) j).
Proof.
  induction 1 as [a|a g0 Hg0|a g0 j rest Hg0 Hp Hj Hrest IH];
    intros pre e g post Heq Hg.
  - destruct pre; discriminate.
  - destruct pre as [|? [|? ?]]; discriminate.
  - destruct pre as [|x [|y pre]]; cbn [app] in Heq.
    + injection Heq as <- <- <-. discriminate.
    + injection Heq as <- <- ->. exists j. split; [exact Hp|].
      split; [exact Hj|].
      rewrite calls_cons, Hg0. cbn.
      now replace (a + 1 - 1) with a by lia.
    + injection Heq as <- <- ->.
      destruct (IH pre e g post eq_refl Hg) as (j' & Hp' & Hj' & ->).
      exists j'. split; [exact Hp'|]. split; [exact Hj'|].
      rewrite !calls_cons, Hg0. cbn [is_generate].
      now replace (a + (1 + (0 + calls pre)) - 1)
        with (S a + calls pre - 1) by lia.
Qed.

(** C1. When every request is answered with an overload error and
    [max_retries] is 5, the service is asked exactly five times: the
    world at the end is the one that five requests in a row lead to,
    with one draw from the random source between two of them, and the
    trace holds five requests. The function then raises the error that
    names the five attempts, an error that is itself neither an overload
    nor a token-limit error. *)
Theorem five_attempts_then_fatal url model mode w :
  always_overloaded svc ->
  exists w' tr,
    transcribe_youtube_video svc url model 5 mode w =
      (Raised "Model overloaded after 5 attempts. Please try again later.",
       w', tr) /\
    refused svc (GEMINI_MODELS model) (prompt_for mode) url 5 w w' /\
    calls tr = 5 /\
    paced tr = true /\
    overloaded (overloaded_message 5) = false /\
    too_many_tokens (overloaded_message 5) = false.
Proof.
  intros Hsvc. unfold transcribe_youtube_video.
  destruct (retry_loop_exhausts Hsvc 5 0 5 (GEMINI_MODELS model)
              (prompt_for mode) url w) as (w' & tr & E & Hc & Hw & Hp & _);
    [lia|lia|lia|].
  exists w', tr. split; [exact E|]. split; [exact Hw|]. split; [exact Hc|].
  split; [exact Hp|]. split; vm_compute; reflexivity.
Qed.

(** C6. When the first request raises an error that is not an overload
    error, that request is the only event: no second request, no pause,
    no draw from the random source. An error that is not a token-limit
    error is raised again as it is; a token-limit error is raised as the
    too-long message. *)
Theorem other_errors_pass_through url model max_retries mode w e w1 :
  0 < max_retries ->
  generate_content svc (GEMINI_MODELS model) (prompt_for mode) url w =
    (Raised e, w1) ->
  overloaded e = false ->
  transcribe_youtube_video svc url model max_retries mode w =
    (Raised (if too_many_tokens e then too_long_message else e), w1,
     [Generate (GEMINI_MODELS model) (prompt_for mode) url]).
Proof.
  intros Hpos Hgen Hov. unfold transcribe_youtube_video.
  destruct max_retries as [|n]; [lia|].
  cbn [retry_loop]. rewrite Hgen, Hov.
  destruct (too_many_tokens e); reflexivity.
Qed.

(** C7, as the code has it. In the trace of a call, the event just
    before request number [k], for [k] at least 2, is a pause of the
    float sum of [2^(k-2)] and a number [j] that the random source has
    given; with the source in the unit interval, without 1, the pause
    lies between [2^(k-2)] and [2^(k-2) + 1], both ends included. The
    fixed part doubles from one pause to the next. *)
Theorem backoff_before_attempt url model max_retries mode w :
  jitter_in_range svc ->
  forall k pre e g post,
    snd (transcribe_youtube_video svc url model max_retries mode w) =
      pre ++ e :: g :: post ->
    is_generate g = true ->
    calls (pre ++ [e]) = k - 1 ->
    2 <= k ->
    exists j,
      drawn svc j /\
      (0 <= j /\ j < 1)%Q /\
      e = Sleep (Float.add (inject_Z (2 ^ Z.of_nat (k - 2))) j) /\
      (inject_Z (2 ^ Z.of_nat (k - 2))
       <= Float.add (inject_Z (2 ^ Z.of_nat (k - 2))) j)%Q /\
      (Float.add (inject_Z (2 ^ Z.of_nat (k - 2))) j
       <= inject_Z (2 ^ Z.of_nat (k - 2)) + 1)%Q /\
      (backoff (k - 1) == 2 * backoff (k - 2))%Q.
Proof.
  intros Hj k pre e g post Htr Hg Hk Hk2.
  pose proof (retry_loop_trace Hj max_retries 0 max_retries
                (GEMINI_MODELS model) (prompt_for mode) url w) as Hbt.
  unfold transcribe_youtube_video in Htr. rewrite Htr in Hbt.
  destruct (backoff_trace_before _ _ _ Hbt pre e g post eq_refl Hg)
    as (j & Hd & Hr & He).
  subst e. rewrite calls_app in Hk. cbn in Hk.
  replace (0 + calls pre - 1) with (k - 2) by lia.
  destruct Hr as [H0 H1].
  destruct (FloatFacts.add_backoff_range (k - 2) j H0 H1) as [Hlo Hhi].
  exists j. split; [exact Hd|]. split; [split; assumption|].
  split; [reflexivity|]. split; [exact Hlo|]. split; [exact Hhi|].
  replace (k - 1) with (S (k - 2)) by lia. apply FloatFacts.backoff_succ.
Qed.

End Retry.

(** *** The theorems at stub services *)

Lemma five_attempts_then_fatal_witness :
  always_overloaded (stub (fun _ => Raised overload_error)) /\
  exists w' tr,
    transcribe_youtube_video (stub (fun _ => Raised overload_error))
      "https://youtu.be/dQw4w9WgXcQ" pro 5 transcribe 0 =
      (Raised "Model overloaded after 5 attempts. Please try again later.",
       w', tr) /\
    refused (stub (fun _ => Raised overload_error))
      (GEMINI_MODELS pro) (prompt_for transcribe)
      "https://youtu.be/dQw4w9WgXcQ" 5 0 w' /\
    calls tr = 5 /\
    paced tr = true /\
    overloaded (overloaded_message 5) = false /\
    too_many_tokens (overloaded_message 5) = false.
Proof.
  assert (H : always_overloaded (stub (fun _ => Raised overload_error))).
  { intros m p u w. eexists _, _. split; reflexivity. }
  split; [exact H|].
  exact (five_attempts_then_fatal _ _ pro transcribe 0 H).
Defined.

Lemma other_errors_pass_through_witness :
  transcribe_youtube_video (stub (fails_first 1 token_error))
    "https://youtu.be/dQw4w9WgXcQ" pro 5 transcribe 0 =
  (Raised too_long_message, 1,
   [Generate "gemini-2.5-pro" (prompt_for transcribe)
      "https://youtu.be/dQw4w9WgXcQ"]).
Proof.
  apply (other_errors_pass_through (stub (fails_first 1 token_error))
           "https://youtu.be/dQw4w9WgXcQ" pro 5 transcribe 0 token_error 1).
  - lia.
  - reflexivity.
  - reflexivity.
Defined.

(** The pause before the second request, at a service that fails
    twice: the float sum of 1 and one half. *)
Lemma backoff_before_attempt_witness :
  jitter_in_range (stub (fails_first 2 overload_error)) /\
  exists j,
    drawn (stub (fails_first 2 overload_error)) j /\
    (0 <= j /\ j < 1)%Q /\
    Sleep (Float.add (backoff 0) (1 # 2)) =
      Sleep (Float.add (inject_Z (2 ^ Z.of_nat (2 - 2))) j) /\
    (inject_Z (2 ^ Z.of_nat (2 - 2))
     <= Float.add (inject_Z (2 ^ Z.of_nat (2 - 2))) j)%Q /\
    (Float.add (inject_Z (2 ^ Z.of_nat (2 - 2))) j
     <= inject_Z (2 ^ Z.of_nat (2 - 2)) + 1)%Q /\
    (backoff (2 - 1) == 2 * backoff (2 - 2))%Q.
Proof.
  assert (H : jitter_in_range (stub (fails_first 2 overload_error))).
  { intros w. split; [discriminate|reflexivity]. }
  split; [exact H|].
  apply (backoff_before_attempt (stub (fails_first 2 overload_error))
           "https://youtu.be/dQw4w9WgXcQ" pro 5 transcribe 0 H 2
           [Generate "gemini-2.5-pro" (prompt_for transcribe)
              "https://youtu.be/dQw4w9WgXcQ"]
           (Sleep (Float.add (backoff 0) (1 # 2)))
           (Generate "gemini-2.5-pro" (prompt_for transcribe)
              "https://youtu.be/dQw4w9WgXcQ")
           [Sleep (Float.add (backoff 1) (1 # 2));
            Generate "gemini-2.5-pro" (prompt_for transcribe)
              "https://youtu.be/dQw4w9WgXcQ"]).
  - vm_compute. reflexivity.
  - reflexivity.
  - reflexivity.
  - lia.
Defined.

(** The pauses of that run as numbers: 3/2 and 5/2 seconds. *)
Example stub_pauses :
  map (fun e => match e with
                | Sleep s => Some (Qred s)
                | Generate _ _ _ => None
                end)
    (snd (transcribe_youtube_video (stub (fails_first 2 overload_error))
            "https://youtu.be/dQw4w9WgXcQ" pro 5 transcribe 0)) =
  [None; Some (3 # 2)%Q; None; Some (5 # 2)%Q; None].
Proof. vm_compute. reflexivity. Qed.

(** C7, as stated, fails: the random source gives the largest float
    below 1, a number of the interval of the claim; the sum with 1 is
    rounded to 2, so that the pause before the second request is 2
    seconds, which is neither below 2 nor 1 plus a number below 1. *)
Lemma first_wait_counterexample :
  let svc := stub_with below_one (fails_first 1 overload_error) in
  jitter_in_range svc /\
  (0 <= below_one /\ below_one < 1)%Q /\
  exists g1 s g2,
    snd (transcribe_youtube_video svc "https://youtu.be/dQw4w9WgXcQ"
           pro 5 transcribe 0) = [g1; Sleep s; g2] /\
    is_generate g2 = true /\
    (s == 2)%Q /\
    ~ (s < 2)%Q /\
    ~ (exists j, (0 <= j /\ j < 1)%Q /\
                 (s == inject_Z (2 ^ Z.of_nat (2 - 2)) + j)%Q).
Proof.
  cbv zeta. split; [|split].
  - intros w. split; [discriminate|reflexivity].
  - split; [discriminate|reflexivity].
  - eexists _, _, _. split; [vm_compute; reflexivity|].
    split; [reflexivity|]. split; [reflexivity|]. split.
    + intros H. revert H. vm_compute. discriminate.
    + intros (j & [H0 H1] & E).
      change (inject_Z (2 ^ Z.of_nat (2 - 2))) with 1%Q in E.
      assert (K : (2 == 1 + j)%Q).
      { rewrite <- E. reflexivity. }
      lra.
Qed.

End DirectFacts.

Module SmartFacts.
Import PyStr Ident Smart SmartRuns SmartShapes.

Example long_video_run :
  let r := main (stub (long_video "outline") true)
             (request transcribe false false) [] in
  exit_code r = Returned 0%Z /\
  attempt_log r =
    [captions_entry false; direct_entry transcribe TokenLimit;
     local_entry transcribe false; local_entry summarize false;
     local_entry outline true].
Proof. vm_compute. split; reflexivity. Qed.

(** The same run by the world it leaves: the stub host keeps the
    commands that were run, and they are the five of the log. *)
Example long_video_world :
  map (fun cmd => (nth 1 cmd EmptyString, nth 4 cmd EmptyString))
    (world_after (main (stub (long_video "outline") true)
                    (request transcribe false false) [])) =
  [("/opt/tools/transcribe_youtube_api.py", "out.txt");
   ("/opt/tools/transcribe_youtube.py", "transcribe");
   ("/opt/tools/transcribe_youtube_ytdlp.py", "transcribe");
   ("/opt/tools/transcribe_youtube_ytdlp.py", "summarize");
   ("/opt/tools/transcribe_youtube_ytdlp.py", "outline")].
Proof. vm_compute. reflexivity. Qed.

Section Orchestrator.
Context {W : Type} (h : Host W).

(** *** One strategy call *)

Lemma try_youtube_api_ran url o w :
  exists ok w',
    try_youtube_api h url o w = (ok, w', [captions_entry ok]) /\
    ran h url o [captions_entry ok] w w'.
Proof.
  unfold try_youtube_api, bind, lift, record, ret.
  destruct (subprocess_run h (youtube_api_cmd h url o) w) as [r w'] eqn:E.
  exists (youtube_api_verdict r), w'. split; [reflexivity|].
  eapply ran_cons; [exact E|reflexivity|constructor].
Qed.

Lemma try_gemini_api_ran url o m w :
  exists v w',
    try_gemini_api h url o m w = (v, w', [direct_entry m v]) /\
    ran h url o [direct_entry m v] w w'.
Proof.
  unfold try_gemini_api, bind, lift, record, ret.
  destruct (subprocess_run h (gemini_cmd h url o m) w) as [r w'] eqn:E.
  exists (gemini_verdict r), w'. split; [reflexivity|].
  eapply ran_cons; [exact E|reflexivity|constructor].
Qed.

Lemma try_ytdlp_gemini_ran url o m w :
  exists ok w',
    try_ytdlp_gemini h url o m w = (ok, w', [local_entry m ok]) /\
    ran h url o [local_entry m ok] w w'.
Proof.
  unfold try_ytdlp_gemini, bind, lift, record, ret.
  destruct (subprocess_run h (ytdlp_cmd h url o m) w) as [r w'] eqn:E.
  exists (ytdlp_verdict r), w'. split; [reflexivity|].
  eapply ran_cons; [exact E|reflexivity|constructor].
Qed.

Lemma no_captions_fail url : no_captions h url -> captions_fail h url.
Proof.
  intros H o w. destruct (H o w) as (rc & out & err & -> & Hrc & Htext).
  simpl. apply Z.eqb_neq in Hrc. rewrite Hrc. now destruct (no_transcripts _).
Qed.

(** *** Logs and the processes behind them *)

Lemma ran_app url o log1 log2 w w1 w2 :
  ran h url o log1 w w1 -> ran h url o log2 w1 w2 ->
  ran h url o (log1 ++ log2) w w2.
Proof.
  induction 1 as [|a log w r wa wb E V R IH]; intros H2; [exact H2|].
  cbn [app]. eapply ran_cons; eauto.
Qed.

Lemma ran_app_inv url o log1 log2 w w2 :
  ran h url o (log1 ++ log2) w w2 ->
  exists w1, ran h url o log1 w w1 /\ ran h url o log2 w1 w2.
Proof.
  revert w. induction log1 as [|a log1 IH]; intros w H.
  - exists w. split; [constructor|exact H].
  - cbn [app] in H. inversion H as [|? ? ? r wa ? E V R]; subst.
    destruct (IH _ R) as (w1 & R1 & R2).
    exists w1. split; [|exact R2]. eapply ran_cons; eauto.
Qed.

Lemma of_bool_inj a b : of_bool a = of_bool b -> a = b.
Proof. destruct a, b; cbn; congruence. Qed.

(** The first entry of a log that was run, as the process behind it. *)
Lemma ran_captions url o ok log w w' :
  ran h url o (captions_entry ok :: log) w w' ->
  exists r w1,
    subprocess_run h (youtube_api_cmd h url o) w = (r, w1) /\
    youtube_api_verdict r = ok /\ ran h url o log w1 w'.
Proof.
  inversion 1 as [|? ? ? r w1 ? E V R]; subst.
  exists r, w1. split; [exact E|]. split; [|exact R].
  cbn in V. symmetry. now apply of_bool_inj.
Qed.

Lemma ran_direct url o m v log w w' :
  ran h url o (direct_entry m v :: log) w w' ->
  exists r w1,
    subprocess_run h (gemini_cmd h url o m) w = (r, w1) /\
    gemini_verdict r = v /\ ran h url o log w1 w'.
Proof.
  inversion 1 as [|? ? ? r w1 ? E V R]; subst.
  exists r, w1. split; [exact E|]. split; [|exact R].
  cbn in V. now symmetry.
Qed.

Lemma ran_local url o m ok log w w' :
  ran h url o (local_entry m ok :: log) w w' ->
  exists r w1,
    subprocess_run h (ytdlp_cmd h url o m) w = (r, w1) /\
    ytdlp_verdict r = ok /\ ran h url o log w1 w'.
Proof.
  inversion 1 as [|? ? ? r w1 ? E V R]; subst.
  exists r, w1. split; [exact E|]. split; [|exact R].
  cbn in V. symmetry. now apply of_bool_inj.
Qed.

Lemma ran_local_reports url o m ok b log w w' :
  ran h url o (local_entry m ok :: log) w w' ->
  local_reports h url m b -> ok = b.
Proof.
  intros R L. apply ran_local in R as (r & w1 & E & <- & _).
  specialize (L o w). now rewrite E in L.
Qed.

Lemma ran_direct_reports url o m v v' log w w' :
  ran h url o (direct_entry m v :: log) w w' ->
  direct_reports h url m v' -> v = v'.
Proof.
  intros R D. apply ran_direct in R as (r & w1 & E & <- & _).
  specialize (D o w). now rewrite E in D.
Qed.

Lemma ran_nil_inv url o w w' : ran h url o [] w w' -> w' = w.
Proof. now inversion 1. Qed.

Lemma ran_tail url o a log w w' :
  ran h url o (a :: log) w w' -> exists w1, ran h url o log w1 w'.
Proof. inversion 1; subst; eauto. Qed.

(** *** Steps 1 and 2 *)

Lemma captions_ready_runs w :
  exists ready w1,
    captions_ready h w = (ready, w1, []) /\
    (captions_available h -> ready = true).
Proof.
  unfold captions_ready, check_youtube_transcript_api,
    install_youtube_transcript_api.
  unfold bind at 1. unfold lift at 1.
  destruct (can_import h w) as [i1 w1].
  set (ask := if negb i1 then _ else _).
  assert (Hask : exists w2, ask w1 = (tt, w2, [])).
  { subst ask. destruct i1; cbn [negb]; [now exists w1|].
    unfold bind, lift, ret. destruct (input h _ w1) as [resp w2].
    destruct (String.eqb (lower resp) "y"); [|now exists w2].
    destruct (subprocess_check_call h _ w2) as [b w3]. now exists w3. }
  destruct Hask as [w2 Hask]. unfold bind. rewrite Hask.
  unfold lift.
  pose proof (fun Ha : captions_available h => Ha w2) as Av2.
  destruct (can_import h w2) as [i2 w3].
  exists i2, w3. split; [reflexivity|exact Av2].
Qed.

(** Steps 1 and 2 from the world [w0]: the value of [success], the log,
    which is what was run from the world [w1] on, and [w1] as the world
    after the checks for the captions library where they are made. *)
Lemma first_strategy_run args o w0 :
  exists ok w' log w1,
    first_strategy h args o w0 = (ok, w', log) /\
    opening args ok log /\
    (if force_ytdlp args || force_gemini args then w1 = w0
     else exists ready, captions_ready h w0 = (ready, w1, [])) /\
    ran h (url args) o log w1 w' /\
    (force_ytdlp args = false -> force_gemini args = false ->
     captions_available h -> log = [captions_entry ok]).
Proof.
  unfold first_strategy.
  destruct (force_ytdlp args) eqn:F; cbn [orb].
  { destruct (try_ytdlp_gemini_ran (url args) o (mode args) w0)
      as (ok & w' & E & R).
    exists ok, w', [local_entry (mode args) ok], w0.
    split; [exact E|]. split; [now constructor|]. split; [reflexivity|].
    split; [exact R|discriminate]. }
  destruct (force_gemini args) eqn:G; cbn [negb].
  { exists false, w0, [], w0. split; [reflexivity|].
    split; [now constructor|]. split; [reflexivity|].
    split; [constructor|discriminate]. }
  destruct (captions_ready_runs w0) as (ready & w1 & E & Av).
  unfold bind at 1. rewrite E. destruct ready.
  - destruct (try_youtube_api_ran (url args) o w1) as (ok & w' & E' & R).
    rewrite E'. exists ok, w', [captions_entry ok], w1.
    split; [reflexivity|]. split; [now constructor|].
    split; [now exists true|]. split; [exact R|reflexivity].
  - exists false, w1, [], w1. split; [reflexivity|].
    split; [now constructor|]. split; [now exists false|].
    split; [constructor|]. intros _ _ Ha. specialize (Av Ha). discriminate.
Qed.

(** *** Steps 3 to 5 *)

Lemma fallback_skipped args o success w :
  success = true \/ force_ytdlp args = true ->
  fallback h args o success w = (success, w, []).
Proof.
  intros [-> | F]; unfold fallback; [reflexivity|].
  rewrite F. now rewrite andb_false_r.
Qed.

(** Steps 3 to 5 when they run: the log has one of the shapes of a
    descent, and it is what was run. *)
Lemma fallback_run args o w :
  force_ytdlp args = false ->
  exists ok w' log,
    fallback h args o false w = (ok, w', log) /\
    descent (mode args) ok log /\
    ran h (url args) o log w w'.
Proof.
  intros F. unfold fallback. rewrite F. cbn [negb andb].
  unfold bind at 1.
  destruct (try_gemini_api_ran (url args) o (mode args) w)
    as (v & w1 & E & R1).
  rewrite E. clear E. destruct v.
  - eexists _, _, _. split; [reflexivity|]. split; [constructor|exact R1].
  - unfold bind at 1.
    destruct (try_ytdlp_gemini_ran (url args) o (mode args) w1)
      as (ok & w2 & E & R2).
    rewrite E. clear E.
    pose proof (ran_app _ _ _ _ _ _ _ R1 R2) as R12. cbn [app] in R12.
    destruct ok; cbn [negb andb].
    { eexists _, _, _. split; [reflexivity|]. split; [constructor|exact R12]. }
    destruct (mode args) eqn:M; cbn [is_transcribe].
    + unfold bind at 1.
      destruct (try_ytdlp_gemini_ran (url args) o summarize w2)
        as (ok2 & w3 & E & R3).
      rewrite E. clear E.
      pose proof (ran_app _ _ _ _ _ _ _ R12 R3) as R123. cbn [app] in R123.
      destruct ok2; cbn [negb].
      * eexists _, _, _. split; [reflexivity|].
        split; [now constructor|exact R123].
      * destruct (try_ytdlp_gemini_ran (url args) o outline w3)
          as (ok3 & w4 & E & R4).
        rewrite E. clear E.
        pose proof (ran_app _ _ _ _ _ _ _ R123 R4) as R1234.
        cbn [app] in R1234.
        eexists _, _, _. split; [reflexivity|].
        split; [now constructor|exact R1234].
    + eexists _, _, _. split; [reflexivity|].
      split; [now constructor|exact R12].
    + eexists _, _, _. split; [reflexivity|].
      split; [now constructor|exact R12].
  - eexists _, _, _. split; [reflexivity|]. split; [constructor|exact R1].
Qed.

(** *** [main] *)

Lemma generate_output_filename_returns u m w :
  resolves u ->
  exists f w', generate_output_filename h u m w = (Returned f, w', []).
Proof.
  intros (id & Hid & _).
  unfold generate_output_filename, get_video_title, bind, lift, ret.
  rewrite Hid.
  destruct (strftime_now h _ w) as [d w1].
  destruct (subprocess_run h _ w1) as [r1 w2].
  destruct (title_of r1) as [t|].
  - destruct (truthy t); eauto.
  - destruct (subprocess_run h _ w2) as [r2 w3].
    destruct (title_of r2) as [t|]; [destruct (truthy t)|]; eauto.
Qed.

Lemma named_output_returns args w :
  resolves (url args) ->
  exists o w0, named_output h args w = (Returned o, w0, []).
Proof.
  intros Hres. unfold named_output.
  destruct (negb (given (output args)) && negb (no_auto_output args)).
  - destruct (generate_output_filename_returns (url args) (mode args) w Hres)
      as (f & w1 & E).
    exists (Some f), w1. unfold bind. rewrite E. reflexivity.
  - now exists (output args), w.
Qed.

(** After a reference that resolves, [main] is steps 1 and 2 followed by
    steps 3 to 5, on the output file that was named. *)
Lemma main_resolved args w :
  resolves (url args) ->
  exists o w0,
    named_output h args w = (Returned o, w0, []) /\
    main h args w =
    (let '(s1, w2, log1) := first_strategy h args o w0 in
     let '(s2, w3, log2) := fallback h args o s1 w2 in
     (Returned (if s2 then 0%Z else 1%Z), w3, log1 ++ log2)).
Proof.
  intros Hres. pose proof Hres as (id & Hid & Hne).
  destruct (named_output_returns args w Hres) as (o & w0 & E).
  exists o, w0. split; [exact E|].
  unfold main. rewrite Hid. cbn [given]. rewrite Hne. cbn [negb].
  unfold bind at 1. rewrite E. cbn [app]. unfold bind, ret.
  destruct (first_strategy h args o w0) as [[s1 w2] log1].
  destruct (fallback h args o s1 w2) as [[s2 w3] log2].
  now rewrite app_nil_r.
Qed.

(** Every run on a reference that resolves: the world in which the
    first strategy is started, the log of steps 1 and 2 and, when they
    leave no success and the local strategy is not forced, the log of
    steps 3 to 5, each with the processes behind it. *)
Lemma main_run args w :
  resolves (url args) ->
  exists o w1 ok1 w2 log1,
    started h args w o w1 /\
    opening args ok1 log1 /\
    ran h (url args) o log1 w1 w2 /\
    (force_ytdlp args = false -> force_gemini args = false ->
     captions_available h -> log1 = [captions_entry ok1]) /\
    ((ok1 = true \/ force_ytdlp args = true) /\
     main h args w = (Returned (if ok1 then 0%Z else 1%Z), w2, log1)
     \/
     ok1 = false /\ force_ytdlp args = false /\
     exists ok2 w3 log2,
       descent (mode args) ok2 log2 /\
       ran h (url args) o log2 w2 w3 /\
       main h args w =
         (Returned (if ok2 then 0%Z else 1%Z), w3, log1 ++ log2)).
Proof.
  intros Hres.
  destruct (main_resolved args w Hres) as (o & w0 & Hn & ->).
  destruct (first_strategy_run args o w0)
    as (ok1 & w2 & log1 & w1 & -> & Ho & Hs & R1 & Hc).
  exists o, w1, ok1, w2, log1.
  split; [now exists w0|]. split; [exact Ho|]. split; [exact R1|].
  split; [exact Hc|].
  destruct (force_ytdlp args) eqn:F.
  - left. split; [now right|].
    rewrite fallback_skipped by now right. now rewrite app_nil_r.
  - destruct ok1.
    + left. split; [now left|].
      rewrite fallback_skipped by now left. now rewrite app_nil_r.
    + right. split; [reflexivity|]. split; [reflexivity|].
      destruct (fallback_run args o w2 F) as (ok2 & w3 & log2 & -> & Hd & R2).
      exists ok2, w3, log2. split; [exact Hd|]. split; [exact R2|reflexivity].
Qed.

(** The log of a run is what was run. *)
Lemma main_backed args w :
  resolves (url args) -> backed h args w (main h args w).
Proof.
  intros Hres.
  destruct (main_run args w Hres)
    as (o & w1 & ok1 & w2 & log1 & Hs & _ & R1 & _ & Hm).
  exists o, w1. split; [exact Hs|].
  destruct Hm as [[_ ->]|(_ & _ & ok2 & w3 & log2 & _ & R2 & ->)].
  - exact R1.
  - cbn. eapply ran_app; eassumption.
Qed.

(** The log of steps 1 and 2 when they leave no success and the local
    strategy is not forced. *)
Lemma opening_failed args log :
  opening args false log -> force_ytdlp args = false ->
  (log = [] \/ log = [captions_entry false]) /\
  (force_gemini args = true -> log = []).
Proof.
  intros Ho F. inversion Ho; subst; try congruence.
  - split; [now left|reflexivity].
  - split; [now right|congruence].
Qed.

(** An entry of the direct strategy is no entry of steps 1 and 2. *)
Lemma opening_no_direct args ok log m v :
  opening args ok log -> ~ In (direct_entry m v) log.
Proof.
  intros Ho Hin. inversion Ho; subst; cbn in Hin;
    try contradiction; destruct Hin as [E|[]]; discriminate.
Qed.

(** A run in which the direct strategy was started: steps 1 and 2 left
    no success, and steps 3 to 5 start with the direct strategy. *)
Lemma main_direct args w v :
  resolves (url args) ->
  In (direct_entry (mode args) v) (attempt_log (main h args w)) ->
  exists o w1 w2 pre ok rest w3,
    started h args w o w1 /\
    (pre = [] \/ pre = [captions_entry false]) /\
    (force_gemini args = true -> pre = []) /\
    (force_gemini args = false -> captions_available h ->
     pre = [captions_entry false]) /\
    force_ytdlp args = false /\
    ran h (url args) o pre w1 w2 /\
    descent (mode args) ok (direct_entry (mode args) v :: rest) /\
    ran h (url args) o (direct_entry (mode args) v :: rest) w2 w3 /\
    main h args w =
      (Returned (if ok then 0%Z else 1%Z), w3,
       pre ++ direct_entry (mode args) v :: rest).
Proof.
  intros Hres Hin.
  destruct (main_run args w Hres)
    as (o & w1 & ok1 & w2 & log1 & Hs & Ho & R1 & Hc & Hm).
  destruct Hm as [[_ E]|(-> & F & ok2 & w3 & log2 & Hd & R2 & E)];
    rewrite E in Hin; cbn [attempt_log snd] in Hin.
  { now apply (opening_no_direct _ _ _ _ _ Ho) in Hin. }
  apply in_app_or in Hin as [Hin|Hin];
    [now apply (opening_no_direct _ _ _ _ _ Ho) in Hin|].
  destruct (opening_failed _ _ Ho F) as [Hpre Hg].
  assert (Hhead : exists rest, log2 = direct_entry (mode args) v :: rest).
  { inversion Hd; subst; cbn in Hin;
      repeat (destruct Hin as [Hin|Hin];
              [try discriminate; injection Hin as <-; eauto|]);
      contradiction. }
  destruct Hhead as [rest ->].
  exists o, w1, w2, log1, ok2, rest, w3.
  split; [exact Hs|]. split; [exact Hpre|]. split; [exact Hg|].
  split.
  { intros G Av. specialize (Hc F G Av). destruct Hpre as [->| ->].
    - discriminate.
    - reflexivity. }
  split; [exact F|]. split; [exact R1|]. split; [exact Hd|].
  split; [exact R2|exact E].
Qed.

(** C4. With nothing forced and the captions library available, when
    the captions strategy reports that there are no captions and the
    direct strategy succeeds, [main] exits with 0 and the attempt-log
    has exactly two entries: the captions strategy, failed, then the
    direct strategy, succeeded. The two are what was run: the captions
    script in the world in which the first strategy is started, the
    direct script in the world that the captions script left, and the
    run ends in the world that the direct script left. The local
    strategy is not started. *)
Theorem captions_then_direct args w :
  resolves (url args) ->
  force_ytdlp args = false ->
  force_gemini args = false ->
  captions_available h ->
  no_captions h (url args) ->
  direct_reports h (url args) (mode args) Succeeded ->
  let r := main h args w in
  exit_code r = Returned 0%Z /\
  attempt_log r =
    [captions_entry false; direct_entry (mode args) Succeeded] /\
  List.length (attempt_log r) = 2 /\
  existsb is_local (attempt_log r) = false /\
  exists output w1 r1 w2 r2,
    started h args w output w1 /\
    subprocess_run h (youtube_api_cmd h (url args) output) w1 = (r1, w2) /\
    youtube_api_verdict r1 = false /\
    subprocess_run h (gemini_cmd h (url args) output (mode args)) w2 =
      (r2, world_after r) /\
    gemini_verdict r2 = Succeeded.
Proof.
  intros Hres F G Av Hno Hd r. subst r.
  destruct (main_run args w Hres)
    as (o & w1 & ok1 & w2 & log1 & Hs & Ho & R1 & Hc & Hm).
  rewrite (Hc F G Av) in *.
  apply ran_captions in R1 as (r1 & w1' & E1 & V1 & R1).
  apply ran_nil_inv in R1 as ->.
  pose proof (no_captions_fail _ Hno o w1) as Hf. rewrite E1 in Hf.
  cbn [fst] in Hf. rewrite Hf in V1. subst ok1.
  destruct Hm as [[[K|K] _]|(_ & _ & ok2 & w3 & log2 & Hdesc & R2 & ->)];
    [congruence|congruence|].
  assert (Hlog : log2 = [direct_entry (mode args) Succeeded] /\ ok2 = true).
  { inversion Hdesc; subst;
      try (pose proof (ran_direct_reports _ _ _ _ _ _ _ _ R2 Hd);
           discriminate).
    split; reflexivity. }
  destruct Hlog as [-> ->].
  apply ran_direct in R2 as (r2 & w3' & E2 & V2 & R2).
  apply ran_nil_inv in R2 as ->.
  cbn.
  repeat (split; [reflexivity|]).
  exists o, w1, r1, w1', r2. repeat split; assumption.
Qed.


(** C2, as the code has it. For a request at the mode [transcribe], in
    every run in which the direct strategy reports the token limit,
    when the local strategy fails at [transcribe], fails at [summarize]
    and succeeds at [outline], [main] exits with 0 and the attempt-log
    ends with the direct strategy and the three local runs, the last
    one at [outline]. These four entries are the whole log when the
    captions strategy was not run, as under [--force-gemini]; the entry
    of the captions strategy, failed, comes before them, five entries
    in all, when it was run, as it is with nothing forced and the
    captions library available. The log is what was run. *)
Theorem descent_to_outline args w :
  resolves (url args) ->
  mode args = transcribe ->
  let r := main h args w in
  In (direct_entry transcribe TokenLimit) (attempt_log r) ->
  local_reports h (url args) transcribe false ->
  local_reports h (url args) summarize false ->
  local_reports h (url args) outline true ->
  exit_code r = Returned 0%Z /\
  backed h args w r /\
  exists pre,
    attempt_log r =
      pre ++ [direct_entry transcribe TokenLimit;
              local_entry transcribe false; local_entry summarize false;
              local_entry outline true] /\
    (pre = [] /\ List.length (attempt_log r) = 4 \/
     pre = [captions_entry false] /\ List.length (attempt_log r) = 5) /\
    (force_gemini args = true -> pre = []) /\
    (force_gemini args = false -> captions_available h ->
     pre = [captions_entry false]).
Proof.
  intros Hres M r Hin L1 L2 L3. subst r.
  pose proof (main_backed args w Hres) as Hb.
  rewrite <- M in Hin.
  destruct (main_direct args w TokenLimit Hres Hin)
    as (o & w1 & w2 & pre & ok2 & rest & w3 & Hs & Hpre & Hg & Hc & F & R1
        & Hd & R2 & E).
  rewrite M in *.
  assert (Hrest : rest = [local_entry transcribe false;
                          local_entry summarize false;
                          local_entry outline true] /\ ok2 = true).
  { apply ran_tail in R2 as (wa & R2).
    inversion Hd; subst; try congruence.
    - pose proof (ran_local_reports _ _ _ _ _ _ _ _ R2 L1). discriminate.
    - apply ran_tail in R2 as (wb & R2).
      pose proof (ran_local_reports _ _ _ _ _ _ _ _ R2 L2). discriminate.
    - apply ran_tail in R2 as (wb & R2). apply ran_tail in R2 as (wc & R2).
      pose proof (ran_local_reports _ _ _ _ _ _ _ _ R2 L3). subst.
      split; reflexivity. }
  destruct Hrest as [-> ->].
  rewrite E in *. cbn [attempt_log exit_code fst snd].
  split; [reflexivity|]. split; [exact Hb|].
  exists pre. split; [reflexivity|]. split; [|split; assumption].
  destruct Hpre as [-> | ->]; [left|right]; split; reflexivity.
Qed.

(** C5, as the code has it. With [--force-ytdlp], whether or not
    [--force-gemini] is given with it, only the local strategy is
    started, once, at the requested mode. With [--force-gemini] and
    without [--force-ytdlp] the captions strategy is passed over and the
    direct strategy is started first; the local strategy follows
    exactly when the direct strategy reports the token limit. In both
    cases the log is what was run. *)
Theorem forced_strategy args w :
  resolves (url args) ->
  let r := main h args w in
  backed h args w r /\
  (force_ytdlp args = true ->
   exists ok,
     attempt_log r = [local_entry (mode args) ok] /\
     exit_code r = Returned (if ok then 0%Z else 1%Z)) /\
  (force_ytdlp args = false -> force_gemini args = true ->
   exists v rest,
     attempt_log r = direct_entry (mode args) v :: rest /\
     forallb is_local rest = true /\
     (v <> TokenLimit -> rest = []) /\
     (v = TokenLimit -> rest <> [])).
Proof.
  intros Hres r. subst r.
  split; [now apply main_backed|].
  destruct (main_run args w Hres)
    as (o & w1 & ok1 & w2 & log1 & Hs & Ho & R1 & Hc & Hm).
  split.
  - intros F.
    destruct Hm as [[_ ->]|(_ & F' & _)]; [|congruence].
    inversion Ho; subst; try congruence.
    exists ok1. split; reflexivity.
  - intros F G.
    destruct Hm as [[[K|K] _]|(-> & _ & ok2 & w3 & log2 & Hd & R2 & ->)].
    + subst. inversion Ho; subst; congruence.
    + congruence.
    + destruct (opening_failed _ _ Ho F) as [_ Hn]. rewrite (Hn G).
      cbn [app attempt_log snd].
      inversion Hd; subst; eexists _, _; (split; [reflexivity|]);
        (split; [reflexivity|]); split; intros K;
        try reflexivity; try discriminate; try contradiction.
Qed.

End Orchestrator.

(** *** The direct script as the orchestrator reads it *)

Lemma prefix_append n b c :
  String.prefix n b = true -> String.prefix n (b +:+ c) = true.
Proof.
  revert b. induction n as [|a n IH]; intros b H.
  - destruct (b +:+ c); reflexivity.
  - destruct b as [|x b]; [discriminate|].
    change (String x b +:+ c) with (String x (b +:+ c)).
    cbn [String.prefix] in *. destruct (ascii_dec a x); [auto|discriminate].
Qed.

Lemma contains_append_r n b c :
  contains n b = true -> contains n (b +:+ c) = true.
Proof.
  induction b as [|x b IH]; intros H.
  - cbn [contains] in H. rewrite orb_false_r in H.
    destruct n; [|discriminate].
    destruct (EmptyString +:+ c); reflexivity.
  - change (String x b +:+ c) with (String x (b +:+ c)).
    cbn [contains] in *. apply orb_true_iff in H as [H|H].
    + change (String x (b +:+ c)) with (String x b +:+ c).
      now rewrite (prefix_append _ _ c H).
    + rewrite (IH H). apply orb_true_r.
Qed.

Lemma contains_append_l n a b :
  contains n b = true -> contains n (a +:+ b) = true.
Proof.
  intros H. induction a as [|x a IH]; [exact H|].
  change (String x a +:+ b) with (String x (a +:+ b)).
  cbn [contains]. rewrite IH. apply orb_true_r.
Qed.

(** The line that [transcribe_youtube.py] prints for the too-long
    exception is read by [try_gemini_api] as the token limit, whatever
    is printed before and after it. *)
Lemma too_long_message_is_token_limit returncode before after stderr :
  returncode <> 0%Z ->
  gemini_verdict
    (Completed returncode
       (before +:+ ("Error processing video: " +:+ Direct.too_long_message)
        +:+ after)
       stderr) = TokenLimit.
Proof.
  intros Hrc. unfold gemini_verdict, token_limit.
  apply Z.eqb_neq in Hrc. rewrite Hrc.
  rewrite contains_append_l; [reflexivity|].
  apply contains_append_r. vm_compute. reflexivity.
Qed.

(** *** The theorems at stub hosts *)

Lemma stub_resolves : resolves "https://youtu.be/dQw4w9WgXcQ".
Proof. exists "dQw4w9WgXcQ". split; reflexivity. Defined.

Lemma captions_then_direct_witness :
  let h := stub short_video true in
  let args := request summarize false false in
  let r := main h args [] in
  exit_code r = Returned 0%Z /\
  attempt_log r =
    [captions_entry false; direct_entry (mode args) Succeeded] /\
  List.length (attempt_log r) = 2 /\
  existsb is_local (attempt_log r) = false /\
  exists output w1 r1 w2 r2,
    started h args [] output w1 /\
    subprocess_run h (youtube_api_cmd h (url args) output) w1 = (r1, w2) /\
    youtube_api_verdict r1 = false /\
    subprocess_run h (gemini_cmd h (url args) output (mode args)) w2 =
      (r2, world_after r) /\
    gemini_verdict r2 = Succeeded.
Proof.
  apply (captions_then_direct (stub short_video true)
           (request summarize false false) []).
  - exact stub_resolves.
  - reflexivity.
  - reflexivity.
  - intros w. reflexivity.
  - intros o w. exists 1%Z, "Error: No transcripts were found", EmptyString.
    split; [reflexivity|]. split; [discriminate|reflexivity].
  - intros o w. reflexivity.
Defined.

(** The run of that witness by its world: the two scripts, in order. *)
Example short_video_world :
  world_after (main (stub short_video true)
                 (request summarize false false) []) =
  [["/usr/bin/python3"; "/opt/tools/transcribe_youtube_api.py";
    "https://youtu.be/dQw4w9WgXcQ"; "-o"; "out.txt"];
   ["/usr/bin/python3"; "/opt/tools/transcribe_youtube.py";
    "https://youtu.be/dQw4w9WgXcQ"; "--mode"; "summarize"; "-o"; "out.txt"]].
Proof. vm_compute. reflexivity. Qed.


(** The run of that witness by its world: the direct script, then the
    local script, and nothing else. *)
Example forced_long_video_world :
  world_after (main (stub (long_video "transcribe") true)
                 (request transcribe true false) []) =
  [["/usr/bin/python3"; "/opt/tools/transcribe_youtube.py";
    "https://youtu.be/dQw4w9WgXcQ"; "--mode"; "transcribe"; "-o"; "out.txt"];
   ["/usr/bin/python3"; "/opt/tools/transcribe_youtube_ytdlp.py";
    "https://youtu.be/dQw4w9WgXcQ"; "--mode"; "transcribe"; "-o"; "out.txt"]].
Proof. vm_compute. reflexivity. Qed.

(** Two runs: with nothing forced, at a host without captions, the log
    has five entries; under [--force-gemini], at a host whose captions
    would succeed, it has four. *)
Lemma descent_to_outline_witness :
  (let h := stub (long_video "outline") true in
   let args := request transcribe false false in
   let r := main h args [] in
   exit_code r = Returned 0%Z /\
   backed h args [] r /\
   exists pre,
     attempt_log r =
       pre ++ [direct_entry transcribe TokenLimit;
               local_entry transcribe false; local_entry summarize false;
               local_entry outline true] /\
     (pre = [] /\ List.length (attempt_log r) = 4 \/
      pre = [captions_entry false] /\ List.length (attempt_log r) = 5) /\
     (force_gemini args = true -> pre = []) /\
     (force_gemini args = false -> captions_available h ->
      pre = [captions_entry false])) /\
  (let h := stub (captioned_long_video "outline") true in
   let args := request transcribe true false in
   let r := main h args [] in
   exit_code r = Returned 0%Z /\
   backed h args [] r /\
   exists pre,
     attempt_log r =
       pre ++ [direct_entry transcribe TokenLimit;
               local_entry transcribe false; local_entry summarize false;
               local_entry outline true] /\
     (pre = [] /\ List.length (attempt_log r) = 4 \/
      pre = [captions_entry false] /\ List.length (attempt_log r) = 5) /\
     (force_gemini args = true -> pre = []) /\
     (force_gemini args = false -> captions_available h ->
      pre = [captions_entry false])).
Proof.
  split.
  - apply (descent_to_outline (stub (long_video "outline") true)
             (request transcribe false false) [] stub_resolves).
    + reflexivity.
    + vm_compute. right. left. reflexivity.
    + intros o w. reflexivity.
    + intros o w. reflexivity.
    + intros o w. reflexivity.
  - apply (descent_to_outline (stub (captioned_long_video "outline") true)
             (request transcribe true false) [] stub_resolves).
    + reflexivity.
    + vm_compute. left. reflexivity.
    + intros o w. reflexivity.
    + intros o w. reflexivity.
    + intros o w. reflexivity.
Defined.

Example outline_run_lengths :
  List.length (attempt_log (main (stub (long_video "outline") true)
                              (request transcribe false false) [])) = 5 /\
  List.length (attempt_log (main (stub (captioned_long_video "outline") true)
                              (request transcribe true false) [])) = 4.
Proof. vm_compute. split; reflexivity. Qed.

(** C2, as stated, fails: under the conditions of the claim, with
    nothing forced, the attempt-log has five entries, not four. *)
Lemma descent_log_counterexample :
  let h := stub (long_video "outline") true in
  let args := request transcribe false false in
  let r := main h args [] in
  direct_reports h (url args) transcribe TokenLimit /\
  local_reports h (url args) transcribe false /\
  local_reports h (url args) summarize false /\
  local_reports h (url args) outline true /\
  exit_code r = Returned 0%Z /\
  List.length (attempt_log r) = 5 /\
  List.length (attempt_log r) <> 4.
Proof.
  cbv zeta. repeat split; try (intros o w; reflexivity).
  vm_compute. discriminate.
Qed.

(** Three runs: [--force-ytdlp] alone, [--force-ytdlp] together with
    [--force-gemini], and [--force-gemini] alone. *)
Lemma forced_strategy_witness :
  (let h := stub (long_video "outline") true in
   let args := request transcribe false true in
   let r := main h args [] in
   backed h args [] r /\
   exists ok,
     attempt_log r = [local_entry (mode args) ok] /\
     exit_code r = Returned (if ok then 0%Z else 1%Z)) /\
  (let h := stub (long_video "outline") true in
   let args := request transcribe true true in
   let r := main h args [] in
   backed h args [] r /\
   exists ok,
     attempt_log r = [local_entry (mode args) ok] /\
     exit_code r = Returned (if ok then 0%Z else 1%Z)) /\
  (let h := stub short_video true in
   let args := request transcribe true false in
   let r := main h args [] in
   backed h args [] r /\
   exists v rest,
     attempt_log r = direct_entry (mode args) v :: rest /\
     forallb is_local rest = true /\
     (v <> TokenLimit -> rest = []) /\
     (v = TokenLimit -> rest <> [])).
Proof.
  split; [|split]; cbv zeta.
  - destruct (forced_strategy (stub (long_video "outline") true)
                (request transcribe false true) [] stub_resolves)
      as (B & H & _).
    split; [exact B|]. apply H. reflexivity.
  - destruct (forced_strategy (stub (long_video "outline") true)
                (request transcribe true true) [] stub_resolves)
      as (B & H & _).
    split; [exact B|]. apply H. reflexivity.
  - destruct (forced_strategy (stub short_video true)
                (request transcribe true false) [] stub_resolves)
      as (B & _ & H).
    split; [exact B|]. apply H; reflexivity.
Defined.

(** C5, as stated, fails for the direct strategy: it is forced, it
    reports the token limit, and the local strategy is started. *)
Lemma forced_direct_counterexample :
  let args := request transcribe true false in
  let r := main (stub (long_video "transcribe") true) args [] in
  force_gemini args = true /\
  attempt_log r =
    [direct_entry transcribe TokenLimit; local_entry transcribe true] /\
  existsb is_local (attempt_log r) = true.
Proof. vm_compute. repeat split. Qed.

End SmartFacts.

Module YtdlpFacts.
Import PyStr Ytdlp.

Example local_success :
  exists st,
    main (stub PROCESSING ACTIVE (Returned "text")) 5 request start =
      Some (0%Z, st) /\
    remote st = ∅ /\
    world st =
      ["upload_file /tmp/tmpdir/audio.mp3"; "get_file files/audio-1";
       "generate_content files/audio-1"; "delete_file files/audio-1"].
Proof. eexists. split; [reflexivity|]. split; [set_solver|reflexivity]. Qed.

Example local_generation_fails :
  exists st,
    main (stub ACTIVE ACTIVE (Raised "500 INTERNAL")) 5 request start =
      Some (1%Z, st) /\
    remote st = ∅ /\
    world st =
      ["upload_file /tmp/tmpdir/audio.mp3";
       "generate_content files/audio-1"; "delete_file files/audio-1"].
Proof. eexists. split; [reflexivity|]. split; [set_solver|reflexivity]. Qed.

Example local_never_ready :
  main (stub PROCESSING PROCESSING (Returned "text")) 5 request start = None.
Proof. reflexivity. Qed.

Section Cleanup.
Context {W : Type} (h : Host W).

(** When [upload_to_gemini] raises after the service accepted the
    upload, the file stays at the service. *)
Lemma upload_to_gemini_raises_keeps_file fuel file_path st e st' f w :
  upload_file h file_path (mime_type_for file_path) (world st) =
    (Returned f, w) ->
  upload_to_gemini h fuel file_path st = Some (Raised e, st') ->
  name f ∈ remote st'.
Proof.
  unfold upload_to_gemini. intros ->.
  destruct (wait_for_processing h fuel f w) as [[[f'|e'] w']|]; [| |discriminate].
  - destruct (is_failed f'); intros [= <- <-]; simpl; set_solver.
  - intros [= <- <-]. simpl. set_solver.
Qed.

(** A deletion that returns removes the file. *)
Lemma cleanup_gemini_file_removes f st u w :
  delete_file h (name f) (world st) = (Returned u, w) ->
  name f ∉ remote (cleanup_gemini_file h f st).
Proof.
  unfold cleanup_gemini_file. intros ->. simpl.
  apply not_elem_of_difference. right. now apply elem_of_singleton.
Qed.

(** A deletion that raises leaves the files as they were. *)
Lemma cleanup_gemini_file_raises f st e w :
  delete_file h (name f) (world st) = (Raised e, w) ->
  remote (cleanup_gemini_file h f st) = remote st.
Proof. unfold cleanup_gemini_file. intros ->. reflexivity. Qed.

End Cleanup.

(** C9 fails on the code. The service accepts the upload and then
    reports that processing failed: [main] exits with 1, no deletion is
    requested, and the uploaded file is still at the service. *)
Theorem failed_poll_leaves_upload :
  exists st,
    main (stub PROCESSING FAILED (Returned "text")) 5 request start =
      Some (1%Z, st) /\
    "files/audio-1" ∈ remote st /\
    world st =
      ["upload_file /tmp/tmpdir/audio.mp3"; "get_file files/audio-1"].
Proof. eexists. split; [reflexivity|]. split; [set_solver|reflexivity]. Qed.

End YtdlpFacts.

Module DirectCliFacts.
Import PyStr Direct DirectCli.

Example main_token_error :
  let '(code, _, out, tr) :=
    main (stub (fun _ => Raised token_error)) request 0 in
  code = Returned 1%Z /\ calls tr = 1 /\
  Smart.gemini_verdict (Smart.Completed 1 out EmptyString) = Smart.TokenLimit.
Proof. vm_compute. repeat split. Qed.

Example main_retry_then_text :
  let '(code, _, out, tr) :=
    main (stub (fails_first 2 overload_error)) request 0 in
  code = Returned 0%Z /\ calls tr = 3 /\ pauses tr = 2.
Proof. vm_compute. repeat split. Qed.

Section Budget.
Context {W : Type} (svc : Service W).

Lemma pauses_cons e tr :
  pauses (e :: tr) = (if is_generate e then 0 else 1) + pauses tr.
Proof. unfold pauses. simpl. destruct (is_generate e); reflexivity. Qed.

Lemma retry_loop_budget remaining :
  forall attempt max_retries model prompt url w,
    attempt + remaining = max_retries ->
    let '(r, _, tr) :=
      retry_loop svc remaining attempt max_retries model prompt url w in
    calls tr <= remaining /\
    (0 < remaining -> exists rest, tr = Generate model prompt url :: rest) /\
    paced tr = true /\
    pauses tr = calls tr - 1 /\
    (r = Returned None <-> remaining = 0).
Proof.
  induction remaining as [|k IH]; intros a m model prompt url w Hsum.
  - cbn. repeat split; auto; lia.
  - cbn [retry_loop].
    assert (Hone : forall (r : result (option string)),
      r <> Returned None ->
      calls [Generate model prompt url] <= S k /\
      (0 < S k ->
       exists rest,
         [Generate model prompt url] = Generate model prompt url :: rest) /\
      paced [Generate model prompt url] = true /\
      pauses [Generate model prompt url] =
        calls [Generate model prompt url] - 1 /\
      (r = Returned None <-> S k = 0)).
    { intros r Hr. cbn. repeat split; eauto; try lia; contradiction. }
    destruct (generate_content svc model prompt url w) as [[text|e] w1];
      [apply Hone; discriminate|].
    destruct (overloaded e).
    + destruct (a <? m - 1) eqn:E; [|apply Hone; discriminate].
      apply Nat.ltb_lt in E.
      destruct (random_uniform svc w1) as [j w2].
      destruct (1023 <? a); [apply Hone; discriminate|].
      specialize (IH (S a) m model prompt url w2).
      destruct (retry_loop svc k (S a) m model prompt url w2)
        as [[r w3] tr].
      destruct IH as (H1 & H2 & H3 & H4 & H5); [lia|].
      destruct H2 as [rest ->]; [lia|].
      rewrite !DirectFacts.calls_cons, !pauses_cons in *.
      cbn [is_generate] in *.
      split; [lia|]. split; [eauto|]. split; [exact H3|]. split; [lia|].
      split; [|discriminate]. intros Hr. apply H5 in Hr. lia.
    + destruct (too_many_tokens e); apply Hone; discriminate.
Qed.

(** X1. Whatever the service answers, a call makes at most
    [max_retries] requests, and requests and pauses take turns in its
    trace: it starts and ends with a request, and there is exactly one
    pause between two requests that follow each other, so that there
    is one pause less than there are requests. It returns [None]
    exactly when [max_retries] is 0. *)
Theorem requests_within_budget url model max_retries mode w :
  let '(r, _, tr) :=
    transcribe_youtube_video svc url model max_retries mode w in
  calls tr <= max_retries /\
  paced tr = true /\
  pauses tr = calls tr - 1 /\
  (r = Returned None <-> max_retries = 0).
Proof.
  unfold transcribe_youtube_video.
  pose proof (retry_loop_budget max_retries 0 max_retries
                (GEMINI_MODELS model) (prompt_for mode) url w eq_refl) as H.
  destruct (retry_loop svc max_retries 0 max_retries _ _ url w)
    as [[r w'] tr].
  tauto.
Qed.

Lemma retry_loop_wait remaining :
  jitter_in_range svc ->
  forall attempt max_retries model prompt url w,
    attempt + remaining = max_retries -> 0 < remaining ->
    (total_wait
       (snd (retry_loop svc remaining attempt max_retries model prompt url w))
     + backoff attempt
     <= backoff (max_retries - 1)
        + inject_Z (Z.of_nat (max_retries - 1 - attempt)))%Q.
Proof.
  intros Hj. induction remaining as [|k IH];
    intros a m model prompt url w Hsum Hpos; [lia|].
  assert (Hbase : (0 + backoff a
                   <= backoff (m - 1) + inject_Z (Z.of_nat (m - 1 - a)))%Q).
  { pose proof (FloatFacts.backoff_mono a (m - 1) ltac:(lia)) as Hm.
    assert (0 <= inject_Z (Z.of_nat (m - 1 - a)))%Q.
    { change 0%Q with (inject_Z 0). rewrite <- Zle_Qle. lia. }
    lra. }
  cbn [retry_loop].
  destruct (generate_content svc model prompt url w) as [[text|e] w1];
    [exact Hbase|].
  destruct (overloaded e).
  - destruct (a <? m - 1) eqn:E; [|exact Hbase].
    apply Nat.ltb_lt in E. pose proof (Hj w1) as Hr.
    destruct (random_uniform svc w1) as [j w2]. cbn [fst] in Hr.
    destruct (1023 <? a); [exact Hbase|].
    specialize (IH (S a) m model prompt url w2 ltac:(lia) ltac:(lia)).
    destruct (retry_loop svc k (S a) m model prompt url w2) as [[r w3] tr].
    cbn [snd total_wait] in *.
    pose proof (FloatFacts.backoff_succ a) as Hs.
    destruct Hr as [H0 H1].
    destruct (FloatFacts.add_backoff_range a j H0 H1) as [_ Hhi].
    replace (m - 1 - a) with (S (m - 1 - S a)) by lia.
    rewrite Nat2Z.inj_succ. unfold Z.succ. rewrite inject_Z_plus.
    change (inject_Z 1) with 1%Q. lra.
  - destruct (too_many_tokens e); exact Hbase.
Qed.

(** X2. When the random source stays in the unit interval, without 1,
    the pauses of one call, which are floats, add up to at most
    [2^(n-1) - 1 + (n-1)] seconds for [max_retries = n]: at most 19
    seconds for the default of 5. *)
Theorem total_wait_bounded url model max_retries mode w :
  jitter_in_range svc ->
  (total_wait
     (snd (transcribe_youtube_video svc url model max_retries mode w))
   <= inject_Z (2 ^ Z.of_nat (max_retries - 1) - 1
                + Z.of_nat (max_retries - 1)))%Q.
Proof.
  intros Hj. unfold transcribe_youtube_video.
  destruct max_retries as [|n]; [cbn; discriminate|].
  pose proof (retry_loop_wait (S n) Hj 0 (S n) (GEMINI_MODELS model)
                (prompt_for mode) url w eq_refl ltac:(lia)) as H.
  replace (S n - 1 - 0) with (S n - 1) in H by lia.
  rewrite inject_Z_plus. unfold Z.sub. rewrite inject_Z_plus.
  change (backoff 0) with 1%Q in H.
  change (inject_Z (2 ^ Z.of_nat (S n - 1))) with (backoff (S n - 1)).
  change (inject_Z (- (1))) with (- (1))%Q. lra.
Qed.

End Budget.

Section Main.
Context {W : Type} (c : Cli W).

Lemma generate_output_filename_parses u m w :
  parses u ->
  exists f w', generate_output_filename c u m w = (Returned f, w').
Proof.
  intros [v Hv]. unfold generate_output_filename, get_video_title.
  rewrite Hv.
  destruct (strftime_now c _ w) as [d w1].
  destruct (subprocess_run c _ w1) as [r1 w2].
  destruct (Smart.title_of r1) as [t|].
  - destruct (truthy t); eauto.
  - destruct (subprocess_run c _ w2) as [r2 w3].
    destruct (Smart.title_of r2) as [t|]; [destruct (truthy t)|]; eauto.
Qed.

(** X3. The contract between the direct script and the orchestrator.
    When the service answers with a token-limit error, [main] makes one
    request, exits with 1, and what it has printed makes
    [try_gemini_api] return ["token_limit"], whatever else was printed
    and whatever is on the error stream. *)
Theorem token_limit_reaches_orchestrator args w :
  parses (url args) ->
  always_too_long c ->
  let '(code, _, out, tr) := main c args w in
  code = Returned 1%Z /\
  calls tr = 1 /\
  forall stderr,
    Smart.gemini_verdict (Smart.Completed 1 out stderr) = Smart.TokenLimit.
Proof.
  intros Hp Hlong.
  assert (Hrun : forall o out1 w1,
    let '(code, _, out, tr) := attempt c args o out1 w1 in
    code = Returned 1%Z /\ calls tr = 1 /\
    forall stderr,
      Smart.gemini_verdict (Smart.Completed 1 out stderr) = Smart.TokenLimit).
  { intros o out1 w1. unfold attempt, transcribe_youtube_video.
    cbn [retry_loop].
    destruct (Hlong (GEMINI_MODELS (model args)) (prompt_for (mode args))
                (url args) w1) as (e & w2 & -> & -> & ->).
    split; [reflexivity|]. split; [reflexivity|].
    intros stderr. unfold Smart.gemini_verdict, Smart.token_limit.
    cbn [Z.eqb]. rewrite SmartFacts.contains_append_l; [reflexivity|].
    vm_compute. reflexivity. }
  unfold main.
  destruct (negb (Smart.given (output args)) && negb (no_auto_output args)).
  - destruct (generate_output_filename_parses (url args) (mode args) w Hp)
      as (f & w1 & ->).
    apply Hrun.
  - apply Hrun.
Qed.

(** X4. Every run of [main] makes at most 5 requests and pauses at
    most 4 times; it exits with 0 only after at least one request, and
    an exception that ends the script comes before the first request. *)
Theorem main_request_budget args w :
  let '(code, _, out, tr) := main c args w in
  calls tr <= 5 /\
  pauses tr <= 4 /\
  (code = Returned 0%Z -> 1 <= calls tr) /\
  (forall e, code = Raised e -> tr = []).
Proof.
  assert (Hrun : forall o out1 w1,
    let '(code, _, out, tr) := attempt c args o out1 w1 in
    calls tr <= 5 /\ pauses tr <= 4 /\
    (code = Returned 0%Z -> 1 <= calls tr) /\
    (forall e, code = Raised e -> tr = [])).
  { intros o out1 w1. unfold attempt, transcribe_youtube_video.
    pose proof (retry_loop_budget (service c) 5 0 5
                  (GEMINI_MODELS (model args)) (prompt_for (mode args))
                  (url args) w1 eq_refl) as H.
    destruct (retry_loop (service c) 5 0 5 _ _ (url args) w1)
      as [[r w2] tr].
    destruct H as (H1 & H2 & _ & H3 & H4).
    assert (1 <= calls tr).
    { destruct H2 as [rest ->]; [lia|].
      rewrite DirectFacts.calls_cons. cbn. lia. }
    destruct r as [res|e].
    - destruct (file_of o) as [f|].
      + destruct res as [text|].
        * destruct (write_text c f text w2) as [[u|e] w3];
            repeat split; try lia; discriminate.
        * repeat split; try lia; discriminate.
      + repeat split; try lia; discriminate.
    - repeat split; try lia; discriminate. }
  unfold main.
  destruct (negb (Smart.given (output args)) && negb (no_auto_output args)).
  - destruct (generate_output_filename c (url args) (mode args) w)
      as [[f|e] w1].
    + apply Hrun.
    + cbn. repeat split; auto; try lia; discriminate.
  - apply Hrun.
Qed.

End Main.

(** *** The theorems at stubs *)

Lemma total_wait_bounded_witness :
  jitter_in_range (Direct.stub (fails_first 4 overload_error)) /\
  (total_wait
     (snd (transcribe_youtube_video
             (Direct.stub (fails_first 4 overload_error))
             "https://youtu.be/dQw4w9WgXcQ" pro 5 transcribe 0%nat))
   <= inject_Z (2 ^ Z.of_nat (5 - 1) - 1 + Z.of_nat (5 - 1)))%Q.
Proof.
  assert (H : jitter_in_range (Direct.stub (fails_first 4 overload_error))).
  { intros w. split; [discriminate|reflexivity]. }
  split; [exact H|].
  exact (total_wait_bounded _ "https://youtu.be/dQw4w9WgXcQ" pro 5
           transcribe 0%nat H).
Defined.

Lemma token_limit_reaches_orchestrator_witness :
  let '(code, _, out, tr) :=
    main (stub (fun _ => Raised token_error)) request 0 in
  code = Returned 1%Z /\
  calls tr = 1 /\
  forall stderr,
    Smart.gemini_verdict (Smart.Completed 1 out stderr) = Smart.TokenLimit.
Proof.
  apply (token_limit_reaches_orchestrator
           (stub (fun _ => Raised token_error)) request 0).
  - exists (Some "dQw4w9WgXcQ"). reflexivity.
  - intros m p u w. exists token_error, (S w).
    split; [reflexivity|]. split; reflexivity.
Defined.

End DirectCliFacts.

Module IdentMore.
Import PyStr UrlParse Ident IdentFacts.

(** *** Strings put together *)

Lemma append_cons a s t : String a s +:+ t = String a (s +:+ t).
Proof. reflexivity. Qed.

Lemma append_assoc s t u : (s +:+ t) +:+ u = s +:+ (t +:+ u).
Proof.
  induction s as [|a s IH]; [reflexivity|].
  now rewrite !append_cons, IH.
Qed.

Lemma remove_char_append c s t :
  remove_char c (s +:+ t) = remove_char c s +:+ remove_char c t.
Proof.
  induction s as [|a s IH]; [reflexivity|].
  rewrite append_cons. cbn [remove_char].
  destruct (Ascii.eqb a c); [exact IH|]. now rewrite append_cons, IH.
Qed.

Lemma partition_append_absent c s t :
  mem c s = false ->
  partition c (s +:+ t) =
  let '(x, found, y) := partition c t in (s +:+ x, found, y).
Proof.
  induction s as [|a s IH]; intros H.
  - change (EmptyString +:+ t) with t. now destruct (partition c t) as [[x f] y].
  - apply absent_cons in H as [Ha Hs]. rewrite append_cons.
    cbn [partition]. rewrite Ha, (IH Hs).
    now destruct (partition c t) as [[x f] y].
Qed.

Lemma partition_append_found c s t :
  mem c s = false -> partition c (s +:+ String c t) = (s, true, t).
Proof.
  intros H. rewrite (partition_append_absent _ _ _ H).
  cbn [partition]. rewrite Ascii.eqb_refl.
  f_equal. f_equal. induction s as [|a s IH]; [reflexivity|].
  apply absent_cons in H as [_ Hs]. now rewrite append_cons, (IH Hs).
Qed.

Lemma split_char_append c s t :
  mem c s = false ->
  split_char c (s +:+ String c t) = s :: split_char c t.
Proof.
  induction s as [|a s IH]; intros H.
  - change (EmptyString +:+ String c t) with (String c t).
    cbn [split_char]. now rewrite Ascii.eqb_refl.
  - apply absent_cons in H as [Ha Hs]. rewrite append_cons.
    cbn [split_char]. now rewrite Ha, (IH Hs).
Qed.

Section Trailing.
Variables (id rest : string).
Hypothesis id_ok : valid_id id = true.


Ltac absent := apply (all_chars_absent is_id_char _ id); [reflexivity|exact (id_chars_ok id id_ok)].

Lemma remove_unsafe_tail d :
  Ascii.eqb d "009" = false -> Ascii.eqb d "013" = false ->
  Ascii.eqb d "010" = false ->
  remove_unsafe (id +:+ String d rest) =
  id +:+ String d (remove_unsafe rest).
Proof.
  intros H9 H13 H10. unfold remove_unsafe.
  rewrite !remove_char_append. cbn [remove_char].
  rewrite H9. cbn [remove_char]. rewrite H13. cbn [remove_char]. rewrite H10.
  rewrite !(remove_char_absent _ id) by absent. reflexivity.
Qed.

Lemma partition_tail c d :
  is_id_char c = false -> Ascii.eqb d c = false ->
  partition c (id +:+ String d rest) =
  let '(x, found, y) := partition c rest in (id +:+ String d x, found, y).
Proof.
  intros Hc Hd.
  rewrite partition_append_absent
    by (apply (all_chars_absent is_id_char _ id); [exact Hc|exact (id_chars_ok id id_ok)]).
  cbn [partition]. rewrite Hd.
  now destruct (partition c rest) as [[x f] y].
Qed.

End Trailing.

Section Resolved.
Variables (id rest : string).
Hypothesis id_ok : valid_id id = true.


Ltac absent :=
  apply (all_chars_absent is_id_char _ id); [reflexivity|exact (id_chars_ok id id_ok)].

Ltac fold_unsafe :=
  match goal with
  | |- context [remove_char "010" (remove_char "013" (remove_char "009" ?x))] =>
      change (remove_char "010" (remove_char "013" (remove_char "009" x)))
        with (remove_unsafe x)
  end.

Ltac tail_simpl :=
  repeat first
    [ rewrite (remove_char_absent _ id) by absent
    | rewrite (replace_char_absent _ _ id) by absent
    | rewrite (partition_absent _ id) by absent
    | rewrite (split_char_absent _ id) by absent
    | rewrite (all_chars_absent is_id_char _ id) by (reflexivity || exact (id_chars_ok id id_ok))
    | rewrite (unquote_id id (id_chars_ok id id_ok))
    | rewrite (id_nonempty id id_ok)
    | rewrite startswith_nil
    | progress simpl ].

Lemma trailing_watch :
  extract_video_id (watch_url id +:+ "&" +:+ rest) = Returned (Some id).
Proof.
  unfold watch_url. rewrite append_assoc.
  change ("&" +:+ rest) with (String "&" rest).
  remember (id +:+ String "&" rest) as tail eqn:Htail.
  unfold extract_video_id, urlparse, urlsplit.
  cbv [String.append]. unfold remove_unsafe. simpl.
  fold_unsafe. subst tail.
  rewrite (remove_unsafe_tail id rest id_ok "&") by reflexivity.
  rewrite (partition_tail id _ id_ok "#" "&") by reflexivity.
  destruct (partition "#" (remove_unsafe rest)) as [[x f] y].
  simpl.
  unfold qs_first, parse_qsl. simpl.
  rewrite split_char_append by absent.
  tail_simpl. unfold decode_field. tail_simpl. reflexivity.
Qed.

Lemma trailing_short :
  extract_video_id (short_url id +:+ "?" +:+ rest) = Returned (Some id).
Proof.
  unfold short_url. rewrite append_assoc.
  change ("?" +:+ rest) with (String "?" rest).
  remember (id +:+ String "?" rest) as tail eqn:Htail.
  unfold extract_video_id, urlparse, urlsplit.
  cbv [String.append]. unfold remove_unsafe. simpl.
  fold_unsafe. subst tail.
  rewrite (remove_unsafe_tail id rest id_ok "?") by reflexivity.
  rewrite (partition_tail id _ id_ok "#" "?") by reflexivity.
  destruct (partition "#" (remove_unsafe rest)) as [[x f] y].
  simpl. rewrite partition_append_found by absent.
  tail_simpl. reflexivity.
Qed.

Lemma trailing_embed :
  extract_video_id (embed_url id +:+ "?" +:+ rest) = Returned (Some id).
Proof.
  unfold embed_url. rewrite append_assoc.
  change ("?" +:+ rest) with (String "?" rest).
  remember (id +:+ String "?" rest) as tail eqn:Htail.
  unfold extract_video_id, urlparse, urlsplit.
  cbv [String.append]. unfold remove_unsafe. simpl.
  fold_unsafe. subst tail.
  rewrite (remove_unsafe_tail id rest id_ok "?") by reflexivity.
  rewrite (partition_tail id _ id_ok "#" "?") by reflexivity.
  destruct (partition "#" (remove_unsafe rest)) as [[x f] y].
  simpl. rewrite partition_append_found by absent.
  tail_simpl. reflexivity.
Qed.

End Resolved.

(** X5. What follows the identifier does not change it: a watch URL
    with further parameters after [v], and a short or an embed URL with
    a query string, resolve to the identifier they wrap, whatever the
    rest of the URL is. *)
Theorem trailing_text_ignored (id rest : string) :
  valid_id id = true ->
  extract_video_id (watch_url id +:+ "&" +:+ rest) = Returned (Some id) /\
  extract_video_id (short_url id +:+ "?" +:+ rest) = Returned (Some id) /\
  extract_video_id (embed_url id +:+ "?" +:+ rest) = Returned (Some id).
Proof.
  intros H. split; [|split].
  - now apply trailing_watch.
  - now apply trailing_short.
  - now apply trailing_embed.
Qed.

Lemma trailing_text_ignored_witness :
  valid_id "dQw4w9WgXcQ" = true /\
  extract_video_id
    (watch_url "dQw4w9WgXcQ" +:+ "&" +:+ "list=PL1&t=42s#top") =
    Returned (Some "dQw4w9WgXcQ") /\
  extract_video_id (short_url "dQw4w9WgXcQ" +:+ "?" +:+ "t=42") =
    Returned (Some "dQw4w9WgXcQ") /\
  extract_video_id (embed_url "dQw4w9WgXcQ" +:+ "?" +:+ "autoplay=1") =
    Returned (Some "dQw4w9WgXcQ").
Proof.
  split; [reflexivity|]. split; [|split].
  - apply (trailing_text_ignored "dQw4w9WgXcQ" "list=PL1&t=42s#top").
    reflexivity.
  - apply (trailing_text_ignored "dQw4w9WgXcQ" "t=42"). reflexivity.
  - apply (trailing_text_ignored "dQw4w9WgXcQ" "autoplay=1"). reflexivity.
Defined.

(** *** The fallback pattern *)

Lemma id_chars_valid n s g :
  Ident.id_chars n s = Some g ->
  String.length g = n /\ all_chars is_id_char g = true.
Proof.
  revert s g. induction n as [|n IH]; intros s g.
  - intros [= <-]. split; reflexivity.
  - cbn [Ident.id_chars]. destruct s as [|a s]; [discriminate|].
    destruct (is_id_char a) eqn:Ha; [|discriminate].
    destruct (Ident.id_chars n s) as [g'|] eqn:E; [|discriminate].
    intros [= <-]. destruct (IH s g' E) as [Hl Hc].
    cbn. now rewrite Ha, Hl, Hc.
Qed.

Lemma match_here_valid s g : match_here s = Some g -> valid_id g = true.
Proof.
  unfold match_here, valid_id. intros H.
  assert (K : exists t, Ident.id_chars 11 t = Some g).
  { destruct s as [|a s]; [discriminate|].
    destruct (Ascii.eqb a "/"); [eauto|].
    destruct (Ascii.eqb a "v"); [|discriminate].
    destruct s as [|d s]; [discriminate|].
    destruct (Ascii.eqb d "="); [eauto|discriminate]. }
  destruct K as [t K]. apply id_chars_valid in K as [-> ->]. reflexivity.
Qed.

Lemma re_search_valid s g : re_search s = Some g -> valid_id g = true.
Proof.
  induction s as [|a s IH]; cbn [re_search].
  - destruct (match_here EmptyString) eqn:E; [|discriminate].
    intros [= <-]. now apply match_here_valid in E.
  - destruct (match_here (String a s)) eqn:E.
    + intros [= <-]. now apply match_here_valid in E.
    + exact IH.
Qed.

(** X6. Outside the four YouTube hosts, [extract_video_id] returns only
    well-formed identifiers: whatever it returns there is eleven
    characters of the class [[0-9A-Za-z_-]]. *)
Theorem fallback_identifier_valid (url : string) parsed g :
  urlparse url = Returned parsed ->
  host_in (hostname parsed)
    ["www.youtube.com"; "youtube.com"; "youtu.be"; "www.youtu.be"] = false ->
  extract_video_id url = Returned (Some g) ->
  valid_id g = true.
Proof.
  intros Hp Hh. unfold extract_video_id. rewrite Hp.
  assert (H1 : host_in (hostname parsed)
                 ["www.youtube.com"; "youtube.com"] = false /\
               host_in (hostname parsed) ["youtu.be"; "www.youtu.be"] = false).
  { unfold host_in, in_list in *. destruct (hostname parsed) as [hn|]; [|auto].
    cbn [existsb] in *.
    destruct (String.eqb hn "www.youtube.com"); [discriminate|].
    destruct (String.eqb hn "youtube.com"); [discriminate|].
    destruct (String.eqb hn "youtu.be"); [discriminate|].
    destruct (String.eqb hn "www.youtu.be"); [discriminate|]. auto. }
  destruct H1 as [-> ->]. intros [= E]. now apply re_search_valid in E.
Qed.

Lemma fallback_identifier_valid_witness :
  extract_video_id "https://m.youtube.com/watch?v=dQw4w9WgXcQ&t=1" =
    Returned (Some "dQw4w9WgXcQ") /\
  valid_id "dQw4w9WgXcQ" = true.
Proof.
  split; [reflexivity|].
  apply (fallback_identifier_valid
           "https://m.youtube.com/watch?v=dQw4w9WgXcQ&t=1"
           {| scheme := "https"; netloc := "m.youtube.com"; path := "/watch";
              params := EmptyString; query := "v=dQw4w9WgXcQ&t=1";
              fragment := EmptyString |} "dQw4w9WgXcQ");
    reflexivity.
Defined.

Section Unchecked.
Variable p : string.
Hypothesis p_chars : all_chars is_id_char p = true.

(** X7. A short URL is not checked: whatever run of class characters
    follows the host, of any length, is returned as the identifier. *)
Theorem short_url_unchecked :
  extract_video_id (short_url p) = Returned (Some p).
Proof.
  unfold extract_video_id, urlparse, urlsplit, short_url, remove_unsafe.
  cbv [String.append].
  repeat first
    [ rewrite (remove_char_absent _ p)
        by (apply (all_chars_absent is_id_char _ p); [reflexivity|exact p_chars])
    | rewrite (partition_absent _ p)
        by (apply (all_chars_absent is_id_char _ p); [reflexivity|exact p_chars])
    | rewrite (all_chars_absent is_id_char _ p) by (reflexivity || exact p_chars)
    | progress simpl ].
  reflexivity.
Qed.

End Unchecked.

Lemma short_url_unchecked_witness :
  all_chars is_id_char "abc" = true /\
  extract_video_id (short_url "abc") = Returned (Some "abc") /\
  valid_id "abc" = false.
Proof.
  split; [reflexivity|]. split; [|reflexivity].
  apply (short_url_unchecked "abc"). reflexivity.
Defined.

End IdentMore.

Module SmartMore.
Import PyStr Ident Smart SmartRuns SmartShapes SmartFacts.

Section Runs.
Context {W : Type} (h : Host W).

(** Every run on a reference that resolves has one of the shapes. *)
Lemma main_run_shape args w :
  resolves (url args) ->
  exists code,
    exit_code (main h args w) = Returned code /\
    run_shape args code (attempt_log (main h args w)).
Proof.
  intros Hres.
  destruct (main_run h args w Hres)
    as (o & w1 & ok1 & w2 & log1 & _ & Ho & _ & _ & Hm).
  destruct Hm as [[K ->]|(-> & F & ok2 & w3 & log2 & Hd & _ & ->)].
  - exists (if ok1 then 0 else 1)%Z. split; [reflexivity|].
    cbn [attempt_log snd]. now constructor.
  - exists (if ok2 then 0 else 1)%Z. split; [reflexivity|].
    cbn [attempt_log snd]. now apply run_fallback.
Qed.

Ltac shape_cases Hs :=
  inversion Hs as [ok log Ho Hor | log1 ok log2 Ho F Hd]; subst;
  [ inversion Ho; subst
  | inversion Ho; subst; inversion Hd; subst ].

Ltac order_side :=
  solve [ left; reflexivity
        | right; eexists; reflexivity
        | reflexivity
        | (exists 0; reflexivity)
        | (exists 1; reflexivity)
        | (exists 2; cbn; congruence)
        | (exists 3; cbn; congruence)
        | cbn; lia
        | cbn; intros; lia
        | cbn; intros; assumption
        | intros; left; reflexivity
        | intros; right; assumption
        | intros Hn; exfalso; apply Hn; reflexivity ].

(** X8. The first success ends the run. On a reference that resolves,
    the attempt-log has between one and five entries, no entry before
    the last one is a success, and [main] exits with 0 when the last
    entry is a success and with 1 when it is not. *)
Theorem first_success_ends_run args w :
  resolves (url args) ->
  let r := main h args w in
  exists earlier final,
    attempt_log r = earlier ++ [final] /\
    List.length earlier <= 4 /\
    Forall (fun a => verdict a <> Succeeded) earlier /\
    (exit_code r = Returned 0%Z /\ verdict final = Succeeded \/
     exit_code r = Returned 1%Z /\ verdict final <> Succeeded).
Proof.
  intros Hres r. subst r.
  destruct (main_run_shape args w Hres) as (code & Hc & Hs).
  rewrite Hc. clear Hc.
  generalize dependent (attempt_log (main h args w)). intros l Hs.
  assert (K : forall d : Attempt,
    l <> [] /\
    List.length (removelast l) <= 4 /\
    Forall (fun a => verdict a <> Succeeded) (removelast l) /\
    (code = 0%Z /\ verdict (List.last l d) = Succeeded \/
     code = 1%Z /\ verdict (List.last l d) <> Succeeded)).
  { intros d. shape_cases Hs;
      try match goal with
          | H : ?ok = true \/ _ = true |- _ =>
              destruct H as [H|H]; [subst|congruence]
          end;
      try match goal with ok : bool |- _ => destruct ok end;
      cbn;
      (split; [discriminate|]); (split; [lia|]);
      (split; [repeat constructor; discriminate|]);
      solve [ left; split; reflexivity
            | right; split; [reflexivity|discriminate] ]. }
  destruct (K (captions_entry false)) as (Hne & Hlen & Hall & Hlast).
  exists (removelast l), (List.last l (captions_entry false)).
  split; [now apply app_removelast_last|]. split; [exact Hlen|].
  split; [exact Hall|].
  destruct Hlast as [[-> E]|[-> E]]; [left|right]; auto.
Qed.

(** X9. The strategies come in one order. On a reference that
    resolves, the attempt-log is at most one entry of the captions
    strategy, then at most one of the direct strategy, then entries of
    the local strategy only, whose modes are a prefix of the requested
    mode, [summarize], [outline]. A second local entry occurs only for
    the mode [transcribe], and a local entry occurs only after a
    token-limit verdict of the direct strategy or under
    [--force-ytdlp]. *)
Theorem strategies_in_order args w :
  resolves (url args) ->
  exists caps dirs locals,
    attempt_log (main h args w) = caps ++ dirs ++ locals /\
    (caps = [] \/ exists ok, caps = [captions_entry ok]) /\
    (dirs = [] \/ exists v, dirs = [direct_entry (mode args) v]) /\
    forallb is_local locals = true /\
    (exists k,
       map granularity locals =
       firstn k [Some (mode args); Some summarize; Some outline]) /\
    (2 <= List.length locals -> mode args = transcribe) /\
    (locals <> [] ->
     dirs = [direct_entry (mode args) TokenLimit] \/
     force_ytdlp args = true).
Proof.
  intros Hres.
  destruct (main_run_shape args w Hres) as (code & _ & Hs).
  generalize dependent (attempt_log (main h args w)). intros l Hs.
  assert (Hfin : forall caps dirs locals : list Attempt,
    l = caps ++ dirs ++ locals ->
    (caps = [] \/ exists ok, caps = [captions_entry ok]) ->
    (dirs = [] \/ exists v, dirs = [direct_entry (mode args) v]) ->
    forallb is_local locals = true ->
    (exists k,
       map granularity locals =
       firstn k [Some (mode args); Some summarize; Some outline]) ->
    (2 <= List.length locals -> mode args = transcribe) ->
    (locals <> [] ->
     dirs = [direct_entry (mode args) TokenLimit] \/
     force_ytdlp args = true) ->
    exists caps dirs locals,
      l = caps ++ dirs ++ locals /\
      (caps = [] \/ exists ok, caps = [captions_entry ok]) /\
      (dirs = [] \/ exists v, dirs = [direct_entry (mode args) v]) /\
      forallb is_local locals = true /\
      (exists k,
         map granularity locals =
         firstn k [Some (mode args); Some summarize; Some outline]) /\
      (2 <= List.length locals -> mode args = transcribe) /\
      (locals <> [] ->
       dirs = [direct_entry (mode args) TokenLimit] \/
       force_ytdlp args = true)).
  { intros caps dirs locals. intros. exists caps, dirs, locals. tauto. }
  shape_cases Hs; try congruence;
    first
      [ solve [apply (Hfin [] [] _ eq_refl); order_side]
      | solve [apply (Hfin [_] [] [] eq_refl); order_side]
      | solve [apply (Hfin [] [_] _ eq_refl); order_side]
      | solve [apply (Hfin [_] [_] _ eq_refl); order_side] ].
Qed.

(** X10. Captions end the run. With nothing forced and the captions
    library available, when the captions strategy succeeds it is the
    only strategy started and [main] exits with 0. *)
Theorem captions_success_is_final args w :
  resolves (url args) ->
  force_ytdlp args = false ->
  force_gemini args = false ->
  captions_available h ->
  captions_succeed h (url args) ->
  let r := main h args w in
  exit_code r = Returned 0%Z /\
  attempt_log r = [captions_entry true].
Proof.
  intros Hres F G Av Hok r. subst r.
  destruct (main_run h args w Hres)
    as (o & w1 & ok1 & w2 & log1 & _ & _ & R1 & Hc & Hm).
  rewrite (Hc F G Av) in *.
  apply ran_captions in R1 as (r1 & w1' & E1 & V1 & _).
  pose proof (Hok o w1) as Ht. rewrite E1 in Ht. cbn [fst] in Ht.
  rewrite Ht in V1. subst ok1.
  destruct Hm as [[_ ->]|(K & _)]; [|discriminate].
  split; reflexivity.
Qed.

(** X11. A failure of the direct strategy that is not the token limit
    ends the run: in every run in which the direct strategy fails for
    another reason, it is the last strategy started, the local strategy
    is not started and [main] exits with 1. The log is what was
    run. *)
Theorem direct_failure_is_final args w :
  resolves (url args) ->
  let r := main h args w in
  In (direct_entry (mode args) Failed) (attempt_log r) ->
  exit_code r = Returned 1%Z /\
  backed h args w r /\
  exists pre,
    (pre = [] \/ pre = [captions_entry false]) /\
    attempt_log r = pre ++ [direct_entry (mode args) Failed].
Proof.
  intros Hres r Hin. subst r.
  pose proof (main_backed h args w Hres) as Hb.
  destruct (main_direct h args w Failed Hres Hin)
    as (o & w1 & w2 & pre & ok2 & rest & w3 & _ & Hpre & _ & _ & _ & _
        & Hd & _ & E).
  rewrite E in *. cbn [attempt_log exit_code fst snd].
  inversion Hd; subst.
  split; [reflexivity|]. split; [exact Hb|].
  exists pre. split; [exact Hpre|reflexivity].
Qed.

(** X12. No coarser mode is tried for a request that is not at the
    mode [transcribe]: in every run in which the direct strategy
    reports the token limit, when the local strategy fails at the
    requested mode, it is not started again and [main] exits with 1.
    The log is what was run. *)
Theorem no_descent_below_transcribe args w :
  resolves (url args) ->
  mode args <> transcribe ->
  let r := main h args w in
  In (direct_entry (mode args) TokenLimit) (attempt_log r) ->
  local_reports h (url args) (mode args) false ->
  exit_code r = Returned 1%Z /\
  backed h args w r /\
  exists pre,
    (pre = [] \/ pre = [captions_entry false]) /\
    attempt_log r =
      pre ++ [direct_entry (mode args) TokenLimit;
              local_entry (mode args) false].
Proof.
  intros Hres M r Hin Hl. subst r.
  pose proof (main_backed h args w Hres) as Hb.
  destruct (main_direct h args w TokenLimit Hres Hin)
    as (o & w1 & w2 & pre & ok2 & rest & w3 & _ & Hpre & _ & _ & _ & _
        & Hd & R2 & E).
  rewrite E in *. cbn [attempt_log exit_code fst snd].
  apply ran_tail in R2 as (wa & R2).
  inversion Hd; subst; try contradiction.
  - pose proof (ran_local_reports h _ _ _ _ _ _ _ _ R2 Hl). discriminate.
  - split; [reflexivity|]. split; [exact Hb|].
    exists pre. split; [exact Hpre|reflexivity].
Qed.

(** X13. In every run of a request at the mode [transcribe] in which
    the direct strategy reports the token limit, when the local
    strategy fails at every mode, the run ends after the three local
    runs and [main] exits with 1. The log is what was run. *)
Theorem all_strategies_exhausted args w :
  resolves (url args) ->
  mode args = transcribe ->
  let r := main h args w in
  In (direct_entry transcribe TokenLimit) (attempt_log r) ->
  local_reports h (url args) transcribe false ->
  local_reports h (url args) summarize false ->
  local_reports h (url args) outline false ->
  exit_code r = Returned 1%Z /\
  backed h args w r /\
  exists pre,
    (pre = [] \/ pre = [captions_entry false]) /\
    attempt_log r =
      pre ++ [direct_entry transcribe TokenLimit;
              local_entry transcribe false; local_entry summarize false;
              local_entry outline false].
Proof.
  intros Hres M r Hin L1 L2 L3. subst r.
  pose proof (main_backed h args w Hres) as Hb.
  rewrite <- M in Hin.
  destruct (main_direct h args w TokenLimit Hres Hin)
    as (o & w1 & w2 & pre & ok2 & rest & w3 & _ & Hpre & _ & _ & _ & _
        & Hd & R2 & E).
  rewrite M in *. rewrite E in *. cbn [attempt_log exit_code fst snd].
  apply ran_tail in R2 as (wa & R2).
  inversion Hd; subst; try congruence.
  - pose proof (ran_local_reports h _ _ _ _ _ _ _ _ R2 L1). discriminate.
  - apply ran_tail in R2 as (wb & R2).
    pose proof (ran_local_reports h _ _ _ _ _ _ _ _ R2 L2). discriminate.
  - apply ran_tail in R2 as (wb & R2). apply ran_tail in R2 as (wc & R2).
    pose proof (ran_local_reports h _ _ _ _ _ _ _ _ R2 L3). subst.
    split; [reflexivity|]. split; [exact Hb|].
    exists pre. split; [exact Hpre|reflexivity].
Qed.

(** X14. A bare identifier is turned away before anything is run:
    [main] exits with 1, starts no strategy and leaves the world as it
    was. *)
Theorem bare_identifier_rejected args w :
  valid_id (url args) = true ->
  main h args w = (Returned 1%Z, w, []).
Proof.
  intros Hid. unfold main.
  pose proof (IdentFacts.extract_bare (url args) Hid) as E.
  unfold bare_id in E. rewrite E. reflexivity.
Qed.

End Runs.

(** *** The theorems at stub hosts *)

Lemma first_success_ends_run_witness :
  let r := main (stub (long_video "summarize") true)
             (request transcribe false false) [] in
  exists earlier final,
    attempt_log r = earlier ++ [final] /\
    List.length earlier <= 4 /\
    Forall (fun a => verdict a <> Succeeded) earlier /\
    (exit_code r = Returned 0%Z /\ verdict final = Succeeded \/
     exit_code r = Returned 1%Z /\ verdict final <> Succeeded).
Proof.
  exact (first_success_ends_run (stub (long_video "summarize") true)
           (request transcribe false false) [] stub_resolves).
Defined.

Lemma strategies_in_order_witness :
  exists caps dirs locals,
    attempt_log (main (stub (long_video "summarize") true)
                   (request transcribe false false) []) =
      caps ++ dirs ++ locals /\
    (caps = [] \/ exists ok, caps = [captions_entry ok]) /\
    (dirs = [] \/ exists v, dirs = [direct_entry transcribe v]) /\
    forallb is_local locals = true /\
    (exists k,
       map granularity locals =
       firstn k [Some transcribe; Some summarize; Some outline]) /\
    (2 <= List.length locals -> transcribe = transcribe) /\
    (locals <> [] ->
     dirs = [direct_entry transcribe TokenLimit] \/ false = true).
Proof.
  exact (strategies_in_order (stub (long_video "summarize") true)
           (request transcribe false false) [] stub_resolves).
Defined.

Lemma captions_success_is_final_witness :
  let r := main (stub captioned_video true)
             (request transcribe false false) [] in
  exit_code r = Returned 0%Z /\
  attempt_log r = [captions_entry true].
Proof.
  apply (captions_success_is_final (stub captioned_video true)
           (request transcribe false false) []).
  - exact stub_resolves.
  - reflexivity.
  - reflexivity.
  - intros w. reflexivity.
  - intros o w. reflexivity.
Defined.

(** At a host whose captions would succeed, under [--force-gemini]. *)
Lemma direct_failure_is_final_witness :
  let h := stub captioned_broken_video true in
  let args := request transcribe true false in
  let r := main h args [] in
  In (direct_entry (mode args) Failed) (attempt_log r) /\
  exit_code r = Returned 1%Z /\
  backed h args [] r /\
  exists pre,
    (pre = [] \/ pre = [captions_entry false]) /\
    attempt_log r = pre ++ [direct_entry (mode args) Failed].
Proof.
  assert (H : In (direct_entry transcribe Failed)
                (attempt_log (main (stub captioned_broken_video true)
                                (request transcribe true false) []))).
  { vm_compute. left. reflexivity. }
  split; [exact H|].
  exact (direct_failure_is_final (stub captioned_broken_video true)
           (request transcribe true false) [] stub_resolves H).
Defined.

Lemma no_descent_below_transcribe_witness :
  let h := stub hopeless_video true in
  let args := request summarize false false in
  let r := main h args [] in
  exit_code r = Returned 1%Z /\
  backed h args [] r /\
  exists pre,
    (pre = [] \/ pre = [captions_entry false]) /\
    attempt_log r =
      pre ++ [direct_entry (mode args) TokenLimit;
              local_entry (mode args) false].
Proof.
  apply (no_descent_below_transcribe (stub hopeless_video true)
           (request summarize false false) [] stub_resolves).
  - discriminate.
  - vm_compute. right. left. reflexivity.
  - intros o w. reflexivity.
Defined.

Lemma all_strategies_exhausted_witness :
  let h := stub hopeless_video true in
  let args := request transcribe true false in
  let r := main h args [] in
  exit_code r = Returned 1%Z /\
  backed h args [] r /\
  exists pre,
    (pre = [] \/ pre = [captions_entry false]) /\
    attempt_log r =
      pre ++ [direct_entry transcribe TokenLimit;
              local_entry transcribe false; local_entry summarize false;
              local_entry outline false].
Proof.
  apply (all_strategies_exhausted (stub hopeless_video true)
           (request transcribe true false) [] stub_resolves).
  - reflexivity.
  - vm_compute. left. reflexivity.
  - intros o w. reflexivity.
  - intros o w. reflexivity.
  - intros o w. reflexivity.
Defined.

Lemma bare_identifier_rejected_witness :
  main (stub short_video true) bare_request [] = (Returned 1%Z, [], []).
Proof.
  apply (bare_identifier_rejected (stub short_video true) bare_request []).
  reflexivity.
Defined.

End SmartMore.

Module YtdlpMore.
Import PyStr Ytdlp YtdlpService.

#[local] Set Warnings "-clear-no-such-hyp".

Section Service.
Context {W : Type} (h : Host W).

Lemma wait_for_processing_ready fuel :
  forall f w f' w',
    wait_for_processing h fuel f w = Some (Returned f', w') ->
    is_processing f' = false.
Proof.
  induction fuel as [|k IH]; intros f w f' w'; cbn [wait_for_processing];
    destruct (is_processing f) eqn:E; try discriminate.
  - intros [= <- <-]. exact E.
  - destruct (get_file h (name f) w) as [[g|e] w1]; [apply IH|discriminate].
  - intros [= <- <-]. exact E.
Qed.

Lemma wait_for_processing_name fuel :
  polls_keep_names h ->
  forall f w f' w',
    wait_for_processing h fuel f w = Some (Returned f', w') ->
    name f' = name f.
Proof.
  intros Hn. induction fuel as [|k IH]; intros f w f' w';
    cbn [wait_for_processing]; destruct (is_processing f); try discriminate.
  - now intros [= <- <-].
  - destruct (get_file h (name f) w) as [[g|e] w1] eqn:G; [|discriminate].
    intros H. rewrite (IH _ _ _ _ H). exact (Hn _ _ _ _ G).
  - now intros [= <- <-].
Qed.

(** X15. A handle that [upload_to_gemini] returns is ready: its state
    is neither [PROCESSING] nor [FAILED]. *)
Theorem upload_returns_ready fuel file_path st f st' :
  upload_to_gemini h fuel file_path st = Some (Returned f, st') ->
  is_processing f = false /\ is_failed f = false.
Proof.
  unfold upload_to_gemini.
  destruct (upload_file h file_path _ (world st)) as [[f0|e] w1];
    [|discriminate].
  destruct (wait_for_processing h fuel f0 w1) as [[[f1|e] w2]|] eqn:E;
    [|discriminate..].
  destruct (is_failed f1) eqn:Hf; [discriminate|].
  intros [= <- <-]. split; [|exact Hf].
  exact (wait_for_processing_ready _ _ _ _ _ E).
Qed.

Lemma upload_to_gemini_files fuel file_path st f st' :
  polls_keep_names h ->
  upload_to_gemini h fuel file_path st = Some (Returned f, st') ->
  remote st' = {[ name f ]} ∪ remote st.
Proof.
  intros Hn. unfold upload_to_gemini.
  destruct (upload_file h file_path _ (world st)) as [[f0|e] w1];
    [|discriminate].
  destruct (wait_for_processing h fuel f0 w1) as [[[f1|e] w2]|] eqn:E;
    [|discriminate..].
  destruct (is_failed f1); [discriminate|].
  intros [= <- <-]. cbn. now rewrite (wait_for_processing_name _ Hn _ _ _ _ E).
Qed.

Lemma transcribe_audio_remote f m md st :
  remote (snd (transcribe_audio_with_gemini h f m md st)) = remote st.
Proof.
  unfold transcribe_audio_with_gemini.
  destruct (generate_content h _ _ f (world st)) as [[t|e] w]; reflexivity.
Qed.

(** What the [with] block leaves at the service: the files that were
    there, and the uploaded file when a handle was obtained. *)
Lemma process_keeps fuel args o temp_dir st r uploaded st' :
  process h fuel args o temp_dir st = Some (r, uploaded, st') ->
  remote st ⊆ remote st'.
Proof.
  unfold process.
  destruct (download_audio h (url args) _ (world st)) as [[p|e] w1].
  2:{ intros [= <- <- <-]. cbn. set_solver. }
  destruct (stat_size h p w1) as [[sz|e] w2].
  2:{ intros [= <- <- <-]. cbn. set_solver. }
  assert (U : forall r1 st1,
    upload_to_gemini h fuel p {| world := w2; remote := remote st |} =
      Some (r1, st1) -> remote st ⊆ remote st1).
  { intros r1 st1. unfold upload_to_gemini. cbn [world remote].
    destruct (upload_file h p _ w2) as [[f0|e0] w3].
    - destruct (wait_for_processing h fuel f0 w3) as [[[f1|e1] w4]|];
        [| |discriminate].
      + destruct (is_failed f1); intros [= _ <-]; cbn; set_solver.
      + intros [= _ <-]. cbn. set_solver.
    - intros [= _ <-]. cbn. set_solver. }
  destruct (upload_to_gemini h fuel p _) as [[[f|e] st1]|];
    [| |discriminate].
  2:{ intros [= <- <- <-]. now apply (U (Raised e)). }
  specialize (U _ _ eq_refl).
  pose proof (transcribe_audio_remote f (model args) (mode args) st1) as T.
  destruct (transcribe_audio_with_gemini h f (model args) (mode args) st1)
    as [[t|e] st2]; cbn [snd] in T.
  2:{ intros [= <- <- <-]. now rewrite T. }
  set (saved := match o with Some _ => _ | None => _ end).
  destruct saved as [[u|e] w3].
  2:{ intros [= <- <- <-]. cbn. now rewrite T. }
  cbn [remote world].
  destruct (_ && _).
  - destruct (copy2 h p _ w3) as [c w4]. intros [= <- <- <-]. cbn.
    now rewrite T.
  - intros [= <- <- <-]. cbn. now rewrite T.
Qed.

Lemma process_uploaded fuel args o temp_dir st r f st' :
  polls_keep_names h ->
  process h fuel args o temp_dir st = Some (r, Some f, st') ->
  remote st' = {[ name f ]} ∪ remote st.
Proof.
  intros Hn. unfold process.
  destruct (download_audio h (url args) _ (world st)) as [[p|e] w1];
    [|discriminate].
  destruct (stat_size h p w1) as [[sz|e] w2]; [|discriminate].
  destruct (upload_to_gemini h fuel p _) as [[[f1|e] st1]|] eqn:U;
    [|discriminate..].
  apply (upload_to_gemini_files _ _ _ _ _ Hn) in U. cbn [remote] in U.
  pose proof (transcribe_audio_remote f1 (model args) (mode args) st1) as T.
  destruct (transcribe_audio_with_gemini h f1 (model args) (mode args) st1)
    as [[t|e] st2]; cbn [snd] in T.
  2:{ intros [= <- <- <-]. congruence. }
  set (saved := match o with Some _ => _ | None => _ end).
  destruct saved as [[u|e] w3].
  2:{ intros [= <- <- <-]. cbn. congruence. }
  cbn [remote world].
  destruct (_ && _).
  - destruct (copy2 h p _ w3) as [c w4]. intros [= <- <- <-]. cbn. congruence.
  - intros [= <- <- <-]. cbn. congruence.
Qed.

Lemma process_returned fuel args o temp_dir st u uploaded st' :
  process h fuel args o temp_dir st = Some (Returned u, uploaded, st') ->
  exists f, uploaded = Some f.
Proof.
  unfold process.
  destruct (download_audio h (url args) _ (world st)) as [[p|e] w1];
    [|discriminate].
  destruct (stat_size h p w1) as [[sz|e] w2]; [|discriminate].
  destruct (upload_to_gemini h fuel p _) as [[[f1|e] st1]|];
    [|discriminate..].
  destruct (transcribe_audio_with_gemini h f1 (model args) (mode args) st1)
    as [[t|e] st2]; [|discriminate].
  set (saved := match o with Some _ => _ | None => _ end).
  destruct saved as [[v|e] w3]; [|discriminate].
  cbn [remote world].
  destruct (_ && _).
  - destruct (copy2 h p _ w3) as [c w4]. intros [= _ <- _]. eauto.
  - intros [= _ <- _]. eauto.
Qed.

(** [main] as its outcome at the end of the [with] block. *)
Lemma main_some fuel args st code st' :
  main h fuel args st = Some (code, st') ->
  (code = 1%Z /\ remote st' = remote st) \/
  exists o temp_dir st0 r uploaded st1,
    remote st0 = remote st /\
    process h fuel args o temp_dir st0 = Some (r, uploaded, st1) /\
    code = match r with Returned _ => 0%Z | Raised _ => 1%Z end /\
    st' = match uploaded with
          | Some f =>
              cleanup_gemini_file h f
                (on_world (remove_temp_dir h temp_dir) st1)
          | None => on_world (remove_temp_dir h temp_dir) st1
          end.
Proof.
  unfold main.
  destruct (check_ytdlp h (world st)) as [installed w1].
  set (asked := if installed then _ else _).
  destruct asked as [go w2]. destruct go; cbn [negb].
  2:{ intros [= <- <-]. left. split; reflexivity. }
  set (named := if _ && _ then _ else _).
  destruct named as [o w3].
  destruct (make_temp_dir h w3) as [temp_dir w4].
  destruct (process h fuel args o temp_dir _) as [[[r uploaded] st1]|] eqn:P;
    [|discriminate].
  intros [= <- <-]. right.
  exists o, temp_dir, {| world := w4; remote := remote st |}, r, uploaded, st1.
  repeat split; auto.
Qed.

(** The handle that the [with] block leaves in [uploaded_file] has the
    name of a file that an upload request returned. *)
Lemma process_upload_request fuel args o temp_dir st r f st' :
  polls_keep_names h ->
  process h fuel args o temp_dir st = Some (r, Some f, st') ->
  exists file_path w0 uploaded w1,
    upload_file h file_path (mime_type_for file_path) w0 =
      (Returned uploaded, w1) /\
    name f = name uploaded.
Proof.
  intros Hn. unfold process.
  destruct (download_audio h (url args) _ (world st)) as [[p|e] w1];
    [|discriminate].
  destruct (stat_size h p w1) as [[sz|e] w2]; [|discriminate].
  destruct (upload_to_gemini h fuel p _) as [[[f1|e] st1]|] eqn:U;
    [|discriminate..].
  assert (K : exists uploaded w3,
    upload_file h p (mime_type_for p) w2 = (Returned uploaded, w3) /\
    name f1 = name uploaded).
  { revert U. unfold upload_to_gemini. cbn [world remote].
    destruct (upload_file h p _ w2) as [[f0|e0] w3]; [|discriminate].
    destruct (wait_for_processing h fuel f0 w3) as [[[f2|e1] w4]|] eqn:E;
      [|discriminate..].
    destruct (is_failed f2); [discriminate|].
    intros [= <- _]. exists f0, w3. split; [reflexivity|].
    exact (wait_for_processing_name _ Hn _ _ _ _ E). }
  destruct K as (uploaded & w3 & Hu & Hname).
  assert (F : f1 = f -> exists file_path w0 uploaded w1,
    upload_file h file_path (mime_type_for file_path) w0 =
      (Returned uploaded, w1) /\
    name f = name uploaded).
  { intros <-. exists p, w2, uploaded, w3. split; assumption. }
  destruct (transcribe_audio_with_gemini h f1 (model args) (mode args) st1)
    as [[t|e] st2].
  2:{ intros [= _ E _]. now apply F. }
  set (saved := match o with Some _ => _ | None => _ end).
  destruct saved as [[u|e] w4].
  2:{ intros [= _ E _]. now apply F. }
  cbn [remote world].
  destruct (_ && _).
  - destruct (copy2 h p _ w4) as [c w5]. intros [= _ E _]. now apply F.
  - intros [= _ E _]. now apply F.
Qed.

(** X16. A run that succeeds leaves nothing behind. When polls answer
    with the handle they were asked about and deletions do not fail, a
    run of [main] that exits with 0 ends with the request to delete the
    file that an upload request of the run returned: the world at the
    end is the one that this deletion leaves, and the files at the
    service are those that were there before, without that name. *)
Theorem success_leaves_no_upload fuel args st st' :
  polls_keep_names h ->
  deletions_succeed h ->
  main h fuel args st = Some (0%Z, st') ->
  remote st' ⊆ remote st /\
  exists file_path w0 uploaded w1 w2 u,
    upload_file h file_path (mime_type_for file_path) w0 =
      (Returned uploaded, w1) /\
    delete_file h (name uploaded) w2 = (Returned u, world st') /\
    remote st' = remote st ∖ {[ name uploaded ]}.
Proof.
  intros Hn Hd Hm.
  apply main_some in Hm as [[H _]|(o & t & st0 & r & up & st1 & H0 & P & C & ->)];
    [discriminate|].
  destruct r as [u|e]; [|discriminate].
  destruct (process_returned _ _ _ _ _ _ _ _ P) as [f ->].
  destruct (process_upload_request _ _ _ _ _ _ _ _ Hn P)
    as (p & w0 & uploaded & w1 & Hu & Hname).
  apply (process_uploaded _ _ _ _ _ _ _ _ Hn) in P.
  unfold cleanup_gemini_file.
  destruct (Hd (name f) (world (on_world (remove_temp_dir h t) st1)))
    as (v & w' & Hdel).
  rewrite Hdel. cbn [world remote on_world].
  assert (R : remote st1 ∖ {[ name f ]} = remote st ∖ {[ name f ]}).
  { rewrite P, H0. set_solver. }
  split; [rewrite R; set_solver|].
  exists p, w0, uploaded, w1, (remove_temp_dir h t (world st1)), v.
  split; [exact Hu|]. rewrite <- Hname. split; [exact Hdel|exact R].
Qed.

(** X17. [main] removes at most one file from the service: all files
    that were there before the run are there after it, but for one
    name. *)
Theorem at_most_one_file_removed fuel args st code st' :
  main h fuel args st = Some (code, st') ->
  exists n, remote st ∖ {[ n ]} ⊆ remote st'.
Proof.
  intros Hm.
  apply main_some in Hm as [[_ H]|(o & t & st0 & r & up & st1 & H0 & P & C & ->)].
  { exists EmptyString. rewrite H. set_solver. }
  apply process_keeps in P. rewrite H0 in P.
  destruct up as [f|].
  - exists (name f). unfold cleanup_gemini_file.
    destruct (delete_file h (name f) _) as [[u|e] w']; cbn; set_solver.
  - exists EmptyString. cbn. set_solver.
Qed.

(** X18. When the download fails, [main] exits with 1 whatever the
    fuel of the polling loop, and the files at the service are as they
    were: nothing was uploaded. *)
Theorem download_failure_uploads_nothing fuel args st :
  download_fails h ->
  exists st',
    main h fuel args st = Some (1%Z, st') /\ remote st' = remote st.
Proof.
  intros Hd. unfold main.
  destruct (check_ytdlp h (world st)) as [installed w1].
  set (asked := if installed then _ else _).
  destruct asked as [go w2]. destruct go; cbn [negb].
  2:{ eexists. split; reflexivity. }
  set (named := if _ && _ then _ else _).
  destruct named as [o w3].
  destruct (make_temp_dir h w3) as [temp_dir w4].
  unfold process. cbn [world remote].
  set (audio_path := match audio_output args with Some _ => _ | None => _ end).
  destruct (Hd (url args) audio_path w4) as (e & w5 & ->).
  eexists. split; reflexivity.
Qed.

End Service.

(** *** The theorems at stub hosts *)

Lemma upload_returns_ready_witness :
  is_processing {| name := "files/audio-1"; state := ACTIVE |} = false /\
  is_failed {| name := "files/audio-1"; state := ACTIVE |} = false.
Proof.
  apply (upload_returns_ready (stub PROCESSING ACTIVE (Returned "text")) 5
           "/tmp/tmpdir/audio.mp3" start
           {| name := "files/audio-1"; state := ACTIVE |}
           {| world := ["upload_file /tmp/tmpdir/audio.mp3";
                        "get_file files/audio-1"];
              remote := {[ "files/audio-1" ]} ∪ ∅ |}).
  reflexivity.
Defined.

Lemma stub_polls_keep_names first later generation :
  polls_keep_names (stub first later generation).
Proof. intros n w f w' [= <- _]. reflexivity. Defined.

Lemma stub_deletions_succeed first later generation :
  deletions_succeed (stub first later generation).
Proof. intros n w. eexists _, _. reflexivity. Defined.

Lemma success_leaves_no_upload_witness :
  let h := stub PROCESSING ACTIVE (Returned "text") in
  exists st',
    main h 5 request (start_with {[ "files/other" ]}) = Some (0%Z, st') /\
    remote st' ⊆ remote (start_with {[ "files/other" ]}) /\
    exists file_path w0 uploaded w1 w2 u,
      upload_file h file_path (mime_type_for file_path) w0 =
        (Returned uploaded, w1) /\
      delete_file h (name uploaded) w2 = (Returned u, world st') /\
      remote st' = remote (start_with {[ "files/other" ]}) ∖ {[ name uploaded ]}.
Proof.
  cbv zeta. eexists. split; [reflexivity|].
  apply (success_leaves_no_upload
           (stub PROCESSING ACTIVE (Returned "text")) 5 request
           (start_with {[ "files/other" ]})).
  - apply stub_polls_keep_names.
  - apply stub_deletions_succeed.
  - reflexivity.
Defined.

(** The run of that witness by its world: the upload, the poll, the
    request for the text, and the deletion at the end. *)
Example stub_upload_world :
  option_map (fun r => world (snd r))
    (main (stub PROCESSING ACTIVE (Returned "text")) 5 request
       (start_with {[ "files/other" ]})) =
  Some ["upload_file /tmp/tmpdir/audio.mp3"; "get_file files/audio-1";
        "generate_content files/audio-1"; "delete_file files/audio-1"].
Proof. reflexivity. Qed.

Lemma at_most_one_file_removed_witness :
  exists st',
    main (stub ACTIVE ACTIVE (Returned "text")) 5 request
      (start_with {[ "files/other" ]}) = Some (0%Z, st') /\
    exists n, remote (start_with {[ "files/other" ]}) ∖ {[ n ]} ⊆ remote st'.
Proof.
  eexists. split; [reflexivity|].
  eapply (at_most_one_file_removed
            (stub ACTIVE ACTIVE (Returned "text")) 5 request
            (start_with {[ "files/other" ]}) 0%Z).
  reflexivity.
Defined.

Lemma download_failure_uploads_nothing_witness :
  exists st',
    main private_video 0 request (start_with {[ "files/other" ]}) =
      Some (1%Z, st') /\
    remote st' = remote (start_with {[ "files/other" ]}).
Proof.
  apply (download_failure_uploads_nothing private_video 0 request
           (start_with {[ "files/other" ]})).
  intros u p w. eexists _, _. reflexivity.
Defined.

End YtdlpMore.

Module SanitizeMore.
Import PyStr Filename FilenameFacts Playlist.

Lemma spaces_only_cons a s :
  spaces_only (String a s) = true <->
  (isspace a = true -> a = " "%char) /\ spaces_only s = true.
Proof.
  unfold spaces_only. cbn [all_chars]. rewrite andb_true_iff, orb_true_iff.
  rewrite negb_true_iff. split; intros [H1 H2]; split; auto.
  - intros Ha. destruct H1 as [H1|H1]; [congruence|].
    now apply Ascii.eqb_eq in H1.
  - destruct (isspace a); [right|now left].
    rewrite (H1 eq_refl). reflexivity.
Qed.

Lemma normalise_spaces_only s : spaces_only (join " " (split_ws s)) = true.
Proof.
  induction s as [|a s IH]; [reflexivity|].
  rewrite normalise_step. destruct (isspace a) eqn:Ha; [exact IH|].
  assert (Hcons : forall t, spaces_only t = true ->
            spaces_only (String a t) = true).
  { intros t Ht. apply spaces_only_cons. split; [congruence|exact Ht]. }
  destruct s as [|b s']; [now apply Hcons|].
  destruct (isspace b).
  - destruct (split_ws (String b s')); [now apply Hcons|].
    apply Hcons. apply spaces_only_cons. split; [reflexivity|exact IH].
  - now apply Hcons.
Qed.

Lemma spaces_only_slice_to n s :
  spaces_only s = true -> spaces_only (slice_to n s) = true.
Proof.
  revert s. induction n as [|n IH]; intros [|a s] H; try reflexivity.
  cbn [slice_to]. apply spaces_only_cons in H as [H1 H2].
  apply spaces_only_cons. auto.
Qed.

Lemma spaces_only_lstrip s :
  spaces_only s = true -> spaces_only (lstrip s) = true.
Proof.
  induction s as [|a s IH]; [auto|]. intros H. cbn [lstrip].
  destruct (isspace a); [|exact H].
  apply spaces_only_cons in H. apply IH, H.
Qed.

Lemma spaces_only_rstrip s :
  spaces_only s = true -> spaces_only (rstrip s) = true.
Proof.
  induction s as [|a s IH]; [auto|]. intros H.
  apply spaces_only_cons in H as [H1 H2]. rewrite rstrip_cons.
  destruct (rstrip s) as [|b r].
  - destruct (isspace a) eqn:E; [reflexivity|].
    apply spaces_only_cons. split; [congruence|reflexivity].
  - apply spaces_only_cons. split; [exact H1|now apply IH].
Qed.

Lemma lstrip_head_ok s : head_ok s -> lstrip s = s.
Proof. destruct s as [|a s]; [reflexivity|]. cbn. now intros ->. Qed.

Lemma rstrip_last_ok s : last_ok s -> rstrip s = s.
Proof.
  induction s as [|a s IH]; [reflexivity|]. intros H.
  apply last_ok_cons in H. rewrite rstrip_cons.
  destruct s as [|b s']; [cbn; now rewrite H|].
  rewrite (IH H). reflexivity.
Qed.

(** A string without whitespace runs, whose whitespace is spaces and
    which does not end with whitespace, is put back together by
    [' '.join(s.split())] but for its leading whitespace. *)
Lemma normalise_fixed s :
  run_free s -> last_ok s -> spaces_only s = true ->
  join " " (split_ws s) = lstrip s.
Proof.
  induction s as [|a s IH]; [reflexivity|].
  intros Hr Hl Hs. apply run_free_cons in Hr as [Hr1 Hr2].
  apply last_ok_cons in Hl. apply spaces_only_cons in Hs as [Hs1 Hs2].
  rewrite normalise_step. cbn [lstrip].
  destruct (isspace a) eqn:Ha.
  - destruct s as [|b s']; [congruence|]. now apply IH.
  - destruct s as [|b s']; [reflexivity|].
    specialize (IH Hr2 Hl Hs2).
    destruct (isspace b) eqn:Hb.
    + apply spaces_only_cons in Hs2 as [Hb1 _].
      cbn [lstrip] in IH. rewrite Hb in IH.
      destruct s' as [|c s'']; [cbn in Hl; congruence|].
      apply run_free_cons in Hr2 as [Hc _]. rewrite Hb in Hc.
      cbn [andb] in Hc.
      cbn [lstrip] in IH. rewrite Hc in IH.
      assert (Hne : split_ws (String b (String c s'')) <> []).
      { assert (E : split_ws (String b (String c s'')) =
                    split_ws (String c s'')) by (cbn [split_ws]; now rewrite Hb).
        rewrite E. exact (split_ws_starts c s'' Hc). }
      destruct (split_ws (String b (String c s''))); [contradiction|].
      rewrite IH, (Hb1 Hb). reflexivity.
    + cbn [lstrip] in IH. rewrite Hb in IH. now rewrite IH.
Qed.

Section Limit.
Variable limit : nat.

Lemma sanitize_to_unfold filename :
  sanitize_to limit filename =
  strip (cut limit (join " " (split_ws (remove_all invalid_chars filename)))).
Proof. reflexivity. Qed.

Lemma length_cut s : String.length (cut limit s) <= Nat.max limit 0.
Proof.
  unfold cut. destruct (limit <? String.length s) eqn:E.
  - pose proof (length_slice_to limit s). lia.
  - apply Nat.ltb_ge in E. lia.
Qed.

Lemma cut_short s : String.length s <= limit -> cut limit s = s.
Proof.
  intros H. unfold cut.
  destruct (limit <? String.length s) eqn:E; [|reflexivity].
  apply Nat.ltb_lt in E. lia.
Qed.

Lemma mem_cut c s : mem c (cut limit s) = true -> mem c s = true.
Proof. unfold cut. destruct (_ <? _); [apply mem_slice_to|auto]. Qed.

Lemma cut_shape s :
  head_ok s -> run_free s -> spaces_only s = true ->
  head_ok (cut limit s) /\ run_free (cut limit s) /\ spaces_only (cut limit s) = true.
Proof.
  unfold cut. destruct (_ <? _); [|auto]. intros. repeat split.
  - now apply head_ok_slice_to.
  - now apply run_free_slice_to.
  - now apply spaces_only_slice_to.
Qed.

(** The result of [sanitize_to], by the recursive predicates. *)
Lemma sanitize_to_shape filename :
  let r := sanitize_to limit filename in
  String.length r <= limit /\
  (forall c, mem c invalid_chars = true -> mem c r = false) /\
  run_free r /\ head_ok r /\ last_ok r /\ spaces_only r = true.
Proof.
  cbv zeta. rewrite sanitize_to_unfold.
  set (f1 := remove_all invalid_chars filename).
  set (f2 := join " " (split_ws f1)).
  destruct (normalise_shape f1) as (Hh & _ & Hr). fold f2 in Hh, Hr.
  pose proof (normalise_spaces_only f1) as Hs. fold f2 in Hs.
  destruct (cut_shape f2 Hh Hr Hs) as (Hh3 & Hr3 & Hs3).
  split; [|split; [|split; [|split; [|split]]]].
  - pose proof (length_strip (cut limit f2)). pose proof (length_cut f2). lia.
  - intros c Hin.
    assert (Hsp : c <> " "%char).
    { intros ->. revert Hin. vm_compute. discriminate. }
    destruct (mem c (strip (cut limit f2))) eqn:E; [|reflexivity].
    apply mem_strip, mem_cut, mem_normalise in E.
    destruct E as [E|E]; [|contradiction].
    unfold f1 in E. rewrite (mem_remove_all c _ _ Hin) in E. discriminate.
  - unfold strip. now apply run_free_rstrip, run_free_lstrip.
  - unfold strip. apply head_ok_rstrip, head_ok_lstrip.
  - unfold strip. apply last_ok_rstrip.
  - unfold strip. now apply spaces_only_rstrip, spaces_only_lstrip.
Qed.

Lemma remove_all_absent cs s :
  (forall c, mem c cs = true -> mem c s = false) -> remove_all cs s = s.
Proof.
  revert s. induction cs as [|d cs IH]; intros s H; [reflexivity|].
  cbn [remove_all].
  rewrite IdentFacts.remove_char_absent.
  - apply IH. intros c Hc. apply H. cbn. rewrite Hc. apply orb_true_r.
  - apply H. cbn. now rewrite Ascii.eqb_refl.
Qed.

Lemma sanitize_to_idempotent filename :
  sanitize_to limit (sanitize_to limit filename) = sanitize_to limit filename.
Proof.
  destruct (sanitize_to_shape filename) as (Hlen & Hbad & Hr & Hh & Hl & Hs).
  set (r := sanitize_to limit filename) in *.
  rewrite sanitize_to_unfold.
  rewrite (remove_all_absent _ r Hbad).
  rewrite (normalise_fixed r Hr Hl Hs), (lstrip_head_ok r Hh).
  rewrite (cut_short r Hlen). unfold strip.
  now rewrite (lstrip_head_ok r Hh), (rstrip_last_ok r Hl).
Qed.

End Limit.

(** X19. Sanitising is idempotent: a name that [sanitize_filename] has
    produced is left as it is by [sanitize_filename]. *)
Theorem sanitize_filename_idempotent (filename : string) :
  Filename.sanitize_filename (Filename.sanitize_filename filename) =
  Filename.sanitize_filename filename.
Proof. exact (sanitize_to_idempotent 200 filename). Qed.

(** X20. The playlist script's [sanitize_filename], with its limit of
    100: the result has at most 100 characters, none of the characters
    [<], [>], [:], the double quote, [/], [\], [|], [?] and [*], no two
    neighbouring whitespace characters and no whitespace at either end,
    and sanitising it again changes nothing. *)
Theorem playlist_sanitize_filename_safe (filename : string) :
  let r := Playlist.sanitize_filename filename in
  String.length r <= 100 /\
  (forall c : ascii,
      In c ["<"; ">"; ":"; ascii_of_nat 34; "/"; "\"; "|"; "?"; "*"]%char ->
      mem c r = false) /\
  no_whitespace_run r /\
  no_leading_whitespace r /\
  no_trailing_whitespace r /\
  Playlist.sanitize_filename r = r.
Proof.
  cbv zeta.
  change (Playlist.sanitize_filename filename) with (sanitize_to 100 filename).
  destruct (sanitize_to_shape 100 filename) as (Hlen & Hbad & Hr & Hh & Hl & _).
  split; [exact Hlen|]. split.
  { intros c Hc. apply Hbad. simpl in Hc.
    repeat (destruct Hc as [<-|Hc]; [reflexivity|]). contradiction. }
  split; [now apply run_free_positions|].
  split; [now apply head_ok_positions|].
  split; [now apply last_ok_positions|].
  exact (sanitize_to_idempotent 100 filename).
Qed.

End SanitizeMore.

Module PlaylistFacts.
Import PyStr UrlParse Ident Playlist.

(** A run on the example host: the second video is found in the output
    directory and skipped; a pause follows the first child and none
    follows the last. *)
Example playlist_run_ex :
  process_all stub "out" transcribe None true 2
    [video "dQw4w9WgXcQ"; video "dQw4w9WgXcQ"; video "aaaaaaaaaaa"] [] =
  ([Done true "Successfully saved to: out/dQw4w9WgXcQ_transcribe.txt";
    Skipped "Skipped - already exists: dQw4w9WgXcQ_transcribe.txt";
    Done true "Successfully saved to: out/aaaaaaaaaaa_transcribe.txt"],
   ["out/aaaaaaaaaaa_transcribe.txt"; "out/dQw4w9WgXcQ_transcribe.txt"],
   [Child ["python3"; "transcribe_youtube_smart.py";
           "https://www.youtube.com/watch?v=dQw4w9WgXcQ"; "--mode";
           "transcribe"; "--output"; "out/dQw4w9WgXcQ_transcribe.txt"];
    Pause 2;
    Child ["python3"; "transcribe_youtube_smart.py";
           "https://www.youtube.com/watch?v=aaaaaaaaaaa"; "--mode";
           "transcribe"; "--output"; "out/aaaaaaaaaaa_transcribe.txt"]]).
Proof. reflexivity. Qed.

Example range_ex :
  map url (videos_to_process
             [video "a"; video "b"; video "c"; video "d"] 2 (Some 3%Z)) =
    [video_url_of "b"; video_url_of "c"] /\
  map url (videos_to_process
             [video "a"; video "b"; video "c"; video "d"] 2 (Some (-1)%Z)) =
    [video_url_of "b"; video_url_of "c"] /\
  videos_to_process [video "a"; video "b"] 3 (Some 2%Z) = [].
Proof. repeat split. Qed.

(** *** The range of videos *)

Lemma nth_error_slice {A} (l : list A) (lo n k : nat) :
  nth_error (firstn n (skipn lo l)) k =
  if k <? n then nth_error l (lo + k) else None.
Proof.
  destruct (k <? n) eqn:E.
  - apply Nat.ltb_lt in E.
    rewrite nth_error_firstn. apply Nat.ltb_lt in E. rewrite E.
    apply nth_error_skipn.
  - apply Nat.ltb_ge in E. apply nth_error_None.
    rewrite length_firstn. lia.
Qed.

(** X21. The range filter of [main], for every [--start] and [--end]:
    the [k]-th video processed is the playlist's video number
    [max(1, start) + k], as long as that number does not pass the last
    one; the last one is [end] when [end] is positive, the end of the
    playlist when [end] is 0 or not given, and [end] counted back from
    the end of the playlist when it is negative.  Numbers beyond the
    playlist select nothing. *)
Theorem range_selects_numbered (videos : list Video) (start : Z)
    (end_ : option Z) (k : nat) :
  let len := Z.of_nat (length videos) in
  let first := Z.max 1 start in
  let last :=
    match end_ with
    | Some e => if (e <? 0)%Z then (len + e)%Z
                else if (e =? 0)%Z then len else e
    | None => len
    end in
  nth_error (videos_to_process videos start end_) k =
  if (first + Z.of_nat k <=? last)%Z
  then nth_error videos (Z.to_nat (first - 1) + k)
  else None.
Proof.
  cbv zeta. unfold videos_to_process, slice.
  set (len := Z.of_nat (length videos)).
  assert (Hlen : (0 <= len)%Z) by (unfold len; lia).
  rewrite nth_error_slice.
  replace (Z.max 0 (start - 1) <? 0)%Z with false by (symmetry; apply Z.ltb_ge; lia).
  set (e' := match end_ with
             | Some e => if (e =? 0)%Z then len else Z.min len e
             | None => len end).
  set (last := match end_ with
    | Some e => if (e <? 0)%Z then (len + e)%Z
                else if (e =? 0)%Z then len else e
    | None => len
    end).
  set (hi := if (e' <? 0)%Z then Z.max 0 (e' + len) else Z.min e' len).
  set (lo := Z.min (Z.max 0 (start - 1)) len).
  assert (Hhi : hi = Z.max 0 (Z.min last len)).
  { unfold hi, e', last. destruct end_ as [e|].
    - destruct (e =? 0)%Z eqn:E0.
      + apply Z.eqb_eq in E0. subst e. cbn.
        replace (len <? 0)%Z with false by (symmetry; apply Z.ltb_ge; lia). lia.
      + apply Z.eqb_neq in E0.
        destruct (e <? 0)%Z eqn:E1.
        * apply Z.ltb_lt in E1.
          replace (Z.min len e <? 0)%Z with true by (symmetry; apply Z.ltb_lt; lia).
          lia.
        * apply Z.ltb_ge in E1.
          replace (Z.min len e <? 0)%Z with false by (symmetry; apply Z.ltb_ge; lia).
          lia.
    - replace (len <? 0)%Z with false by (symmetry; apply Z.ltb_ge; lia). lia. }
  destruct (Z.max 1 start + Z.of_nat k <=? last)%Z eqn:Ec.
  - apply Z.leb_le in Ec.
    destruct (k <? Z.to_nat (hi - lo)) eqn:Ek.
    + apply Nat.ltb_lt in Ek. f_equal. unfold lo in *. lia.
    + apply Nat.ltb_ge in Ek. symmetry. apply nth_error_None.
      unfold lo, len in *. lia.
  - apply Z.leb_gt in Ec.
    destruct (k <? Z.to_nat (hi - lo)) eqn:Ek; [|reflexivity].
    apply Nat.ltb_lt in Ek. apply nth_error_None. unfold lo, len in *. lia.
Qed.

(** *** The loop over the videos *)

Section Loop.
Context {W : Type} (h : Host W).
Variables (output_dir : string) (mode : Mode) (force_method : option Force).
Variables (skip_existing : bool) (delay : Z).

Lemma pauses_app tr1 tr2 : pauses (tr1 ++ tr2) = pauses tr1 + pauses tr2.
Proof. unfold pauses. now rewrite List.filter_app, length_app. Qed.

Lemma children_app tr1 tr2 :
  children (tr1 ++ tr2) = children tr1 + children tr2.
Proof. unfold children. now rewrite List.filter_app, length_app. Qed.

Lemma process_videos_invariant total videos : forall i w,
  let '(results, _, tr) :=
    process_videos h output_dir mode force_method skip_existing delay
      total i videos w in
  length results = length videos /\
  children tr = length (List.filter is_done results) /\
  pauses tr <= children tr /\
  pauses tr <= total - i /\
  ((delay <= 0)%Z -> pauses tr = 0) /\
  (skip_existing = false -> children tr = length videos).
Proof.
  induction videos as [|video rest IH]; intros i w.
  - cbn. repeat split; lia.
  - cbn [process_videos].
    destruct (if skip_existing then _ else _) as [existing w1] eqn:Eg.
    destruct existing as [|first others].
    + destruct (transcribe_video _ _ _ _ _ _) as [[[success message] w2] cmd].
      destruct (if (i <? total) && (0 <? delay)%Z then _ else _)
        as [w3 waited] eqn:Ew.
      specialize (IH (S i) w3).
      destruct (process_videos _ _ _ _ _ _ _ _ _ _) as [[results w4] tr].
      destruct IH as (H1 & H2 & H3 & H4 & H5 & H6).
      assert (Hw : pauses waited <= 1 /\ children waited = 0 /\
                   (pauses waited = 1 -> i < total /\ (0 < delay)%Z)).
      { destruct ((i <? total) && (0 <? delay)%Z) eqn:E;
          injection Ew as <- <-; cbn.
        - apply andb_true_iff in E as [E1 E2].
          apply Nat.ltb_lt in E1. apply Z.ltb_lt in E2. lia.
        - repeat split; lia. }
      destruct Hw as (P1 & P2 & P3).
      change (Child cmd :: waited ++ tr) with ([Child cmd] ++ waited ++ tr).
      rewrite !pauses_app, !children_app, P2. cbn.
      repeat split; try lia. intros Hs. specialize (H6 Hs). lia.
    + specialize (IH (S i) w1).
      destruct (process_videos _ _ _ _ _ _ _ _ _ _) as [[results w4] tr].
      destruct IH as (H1 & H2 & H3 & H4 & H5 & H6). cbn.
      repeat split; try lia. intros Hs. rewrite Hs in Eg. discriminate.
Qed.

End Loop.

(** X22. The loop of [main] produces exactly one result per video, so
    that the summary, which pairs the videos with the results, leaves
    no video out.  A child process is started for exactly the videos that were not
    skipped (for all of them without [--skip-existing]); a pause
    follows only a child, there are fewer pauses than videos, and none
    at all when [--delay] is not positive. *)
Theorem one_result_per_video {W : Type} (h : Host W) (output_dir : string)
    (mode : Mode) (force_method : option Force) (skip_existing : bool)
    (delay : Z) (videos : list Video) (w : W) :
  let '(results, _, tr) :=
    process_all h output_dir mode force_method skip_existing delay videos w in
  length results = length videos /\
  children tr = length (List.filter is_done results) /\
  pauses tr <= children tr /\
  pauses tr <= length videos - 1 /\
  ((delay <= 0)%Z -> pauses tr = 0) /\
  (skip_existing = false -> children tr = length videos).
Proof.
  unfold process_all.
  exact (process_videos_invariant h output_dir mode force_method
           skip_existing delay (length videos) videos 1 w).
Qed.
End PlaylistFacts.

Module PlaylistIds.
Import PyStr UrlParse Ident IdentFacts IdentMore Playlist.

(** *** The file of a video *)

Lemma re_search_skip c s :
  match_here (String c s) = None -> re_search (String c s) = re_search s.
Proof. intros H. cbn [re_search]. now rewrite H. Qed.

Lemma re_search_hit s g : match_here s = Some g -> re_search s = Some g.
Proof. intros H. destruct s; cbn [re_search]; now rewrite H. Qed.

Lemma re_search_video_url id :
  valid_id id = true -> re_search (video_url_of id) = Some id.
Proof.
  intros Hid. unfold video_url_of. cbv [String.append].
  repeat (rewrite re_search_skip by reflexivity).
  apply re_search_hit. change (id_chars 11 id = Some id).
  exact (id_chars_all 11 id (id_length id Hid) (id_chars_ok id Hid)).
Qed.

Lemma skip_pattern_video_url id :
  valid_id id = true -> skip_pattern (video_url_of id) = "*" +:+ id +:+ "*.txt".
Proof.
  intros Hid. unfold skip_pattern, video_url_of.
  change ("https://www.youtube.com/watch?v=" +:+ id)
    with ("https://www.youtube.com/watch?v" +:+ String "=" id).
  rewrite split_char_append by reflexivity.
  rewrite split_char_absent by (apply (id_absent id Hid); reflexivity).
  reflexivity.
Qed.

(** X23. For the URL that [get_playlist_videos_ytdlp] builds from an
    identifier, [transcribe_video] names the output file
    [<id>_<mode>.txt] inside the output directory, without asking the
    clock, and [--skip-existing] looks for files [*<id>*.txt]: the check
    and the output file agree on the identifier. *)
Theorem output_named_by_identifier {W : Type} (h : Host W)
    (id output_dir : string) (mode : Mode) (w : W) :
  valid_id id = true ->
  output_file h (video_url_of id) output_dir mode w =
    (Smart.path_join output_dir (id +:+ "_" +:+ mode_name mode +:+ ".txt"), w) /\
  skip_pattern (video_url_of id) = "*" +:+ id +:+ "*.txt".
Proof.
  intros Hid. split.
  - unfold output_file. now rewrite (re_search_video_url id Hid).
  - now apply skip_pattern_video_url.
Qed.

(** *** The report of [transcribe_video] *)

(** X24. [transcribe_video] starts one child, the orchestrator script
    with the URL, the mode and the output file, and reports success
    exactly when the child exits with code 0.  When the child ran the
    message is never empty; when it could not be started the message is
    the text of the exception. *)
Theorem transcribe_video_reports {W : Type} (h : Host W)
    (video_url output_dir : string) (mode : Mode)
    (force_method : option Force) (w : W) :
  let '((ok, message), w', cmd) :=
    transcribe_video h video_url output_dir mode force_method w in
  exists file w1 result,
    output_file h video_url output_dir mode w = (file, w1) /\
    subprocess_run h cmd w1 = (result, w') /\
    firstn 7 cmd =
      [sys_executable h; "transcribe_youtube_smart.py"; video_url;
       "--mode"; mode_name mode; "--output"; file] /\
    (ok = true <-> exists out err, result = Ran 0 out err) /\
    (forall rc out err, result = Ran rc out err -> message <> EmptyString) /\
    (forall msg, result = NotRun msg -> message = msg).
Proof.
  unfold transcribe_video.
  destruct (output_file h video_url output_dir mode w) as [file w1].
  destruct (subprocess_run h _ w1) as [result w'] eqn:Er.
  destruct (verdict result) as [ok message] eqn:Ev.
  exists file, w1, result.
  split; [reflexivity|]. split; [exact Er|]. split; [reflexivity|].
  unfold verdict in Ev. destruct result as [rc out err|msg].
  - destruct (rc =? 0)%Z eqn:Erc.
    + apply Z.eqb_eq in Erc. subst rc.
      split; [|split]; [| |discriminate].
      * destruct (List.find _ _); injection Ev as <- <-;
          (split; [eauto|reflexivity]).
      * intros _ _ _ _.
        destruct (List.find names_output _) as [line|] eqn:Ef;
          injection Ev as <- <-; [|discriminate].
        apply List.find_some in Ef as [_ Hn].
        destruct line; [discriminate|discriminate].
    + apply Z.eqb_neq in Erc. injection Ev as <- <-.
      split; [|split]; [| |discriminate].
      * split; [discriminate|]. intros (o & e & [= E _ _]). contradiction.
      * intros _ _ _ _. destruct err; discriminate.
  - injection Ev as <- <-. split; [|split].
    + split; [discriminate|]. intros (o & e & E). discriminate.
    + discriminate.
    + now intros m [= <-].
Qed.

(** *** Playlist identifiers *)

Example extract_playlist_id_ex :
  extract_playlist_id "https://music.youtube.com/playlist?list=PL-1_2&x" =
    Returned (Some "PL-1_2") /\
  extract_playlist_id "https://www.youtube.com/playlist?list=" =
    Returned None /\
  extract_playlist_id "https://www.youtube.com/playlist?list=a%20b" =
    Returned (Some "a b").
Proof. repeat split. Qed.

Lemma span_valid s g :
  span is_id_char s = g -> all_chars is_id_char g = true.
Proof.
  revert g. induction s as [|a s IH]; intros g <-; [reflexivity|].
  cbn [span]. destruct (is_id_char a) eqn:Ha; [|reflexivity].
  cbn [all_chars]. rewrite Ha. now apply IH.
Qed.

Lemma match_list_here_valid s g :
  match_list_here s = Some g -> valid_playlist_id g = true.
Proof.
  unfold match_list_here, valid_playlist_id.
  destruct (startswith s "list="); [|discriminate].
  destruct (span is_id_char (slice_from 5 s)) as [|a t] eqn:E; [discriminate|].
  intros [= <-]. apply span_valid in E. now rewrite E.
Qed.

Lemma re_search_list_valid s g :
  re_search_list s = Some g -> valid_playlist_id g = true.
Proof.
  induction s as [|a s IH]; cbn [re_search_list].
  - destruct (match_list_here EmptyString) eqn:E; [|discriminate].
    intros [= <-]. now apply match_list_here_valid in E.
  - destruct (match_list_here (String a s)) eqn:E.
    + intros [= <-]. now apply match_list_here_valid in E.
    + exact IH.
Qed.

Lemma unquote_truthy s : truthy s = true -> truthy (unquote s) = true.
Proof.
  destruct s as [|c t]; [discriminate|]. intros _. cbn [unquote].
  destruct (Ascii.eqb c "%"); [|reflexivity].
  destruct t as [|h1 [|h2 r]]; try reflexivity.
  destruct (hex_digit h1), (hex_digit h2); reflexivity.
Qed.

Lemma replace_char_truthy c d s :
  truthy s = true -> truthy (replace_char c d s) = true.
Proof.
  destruct s as [|a t]; [discriminate|]. intros _. cbn [replace_char].
  destruct (Ascii.eqb a c); reflexivity.
Qed.

Lemma parse_qsl_values qs name value :
  In (name, value) (parse_qsl qs) -> truthy value = true.
Proof.
  unfold parse_qsl. intros H. apply in_flat_map in H as (nv & _ & H).
  destruct (partition "=" nv) as [[n e] v].
  destruct (e && truthy v) eqn:E; [|contradiction].
  apply andb_true_iff in E as [_ E].
  destruct H as [[= <- <-]|[]].
  unfold decode_field. now apply unquote_truthy, replace_char_truthy.
Qed.

Lemma qs_first_truthy key qs value :
  qs_first key qs = Some value -> truthy value = true.
Proof.
  unfold qs_first.
  destruct (List.filter _ (parse_qsl qs)) as [|[n v] l] eqn:E; [discriminate|].
  intros [= <-].
  assert (H : In (n, v) (List.filter (fun nv => String.eqb (fst nv) key)
                           (parse_qsl qs))) by (rewrite E; now left).
  apply List.filter_In in H as [H _]. exact (parse_qsl_values _ _ _ H).
Qed.

(** X25. An identifier that [extract_playlist_id] returns is never the
    empty string, so that the test [not playlist_id] of [main] rejects
    a URL exactly when nothing was found. *)
Theorem playlist_id_never_empty (url g : string) :
  extract_playlist_id url = Returned (Some g) -> truthy g = true.
Proof.
  unfold extract_playlist_id.
  destruct (urlparse url) as [parsed|e]; [|discriminate].
  assert (F : Returned (re_search_list url) = Returned (Some g) ->
              truthy g = true).
  { intros [= E]. apply re_search_list_valid in E.
    unfold valid_playlist_id in E. now apply andb_true_iff in E. }
  destruct (host_in _ _); [|exact F].
  destruct (qs_first "list" (query parsed)) as [v|] eqn:E; [|exact F].
  intros [= <-]. exact (qs_first_truthy _ _ _ E).
Qed.

Lemma playlist_id_never_empty_witness :
  extract_playlist_id "https://www.youtube.com/playlist?list=PL1&index=2" =
    Returned (Some "PL1") /\ truthy "PL1" = true.
Proof.
  split; [reflexivity|].
  apply (playlist_id_never_empty
           "https://www.youtube.com/playlist?list=PL1&index=2" "PL1").
  reflexivity.
Defined.

Section PlaylistShapes.
Variable pid : string.
Hypothesis pid_ok : valid_playlist_id pid = true.

Lemma pid_chars : all_chars is_id_char pid = true.
Proof. unfold valid_playlist_id in pid_ok. now apply andb_true_iff in pid_ok. Qed.

Lemma pid_truthy : truthy pid = true.
Proof. unfold valid_playlist_id in pid_ok. now apply andb_true_iff in pid_ok. Qed.

Ltac pid_absent :=
  apply (all_chars_absent is_id_char _ pid); [reflexivity|exact pid_chars].

Ltac pid_simpl :=
  repeat first
    [ rewrite (remove_char_absent _ pid) by pid_absent
    | rewrite (replace_char_absent _ _ pid) by pid_absent
    | rewrite (partition_absent _ pid) by pid_absent
    | rewrite (split_char_absent _ pid) by pid_absent
    | rewrite (all_chars_absent is_id_char _ pid)
        by (reflexivity || exact pid_chars)
    | rewrite (unquote_id pid pid_chars)
    | rewrite pid_truthy
    | progress simpl ].

Lemma extract_playlist_url :
  extract_playlist_id (playlist_url pid) = Returned (Some pid).
Proof.
  unfold extract_playlist_id, urlparse, urlsplit, playlist_url, remove_unsafe.
  cbv [String.append]. pid_simpl.
  unfold qs_first, parse_qsl, decode_field. pid_simpl. reflexivity.
Qed.

Lemma extract_watch_list id :
  valid_id id = true ->
  extract_playlist_id (watch_url id +:+ "&list=" +:+ pid) = Returned (Some pid).
Proof.
  intros id_ok. pose proof (id_chars_ok id id_ok) as chars.
  unfold watch_url. rewrite append_assoc.
  change ("&list=" +:+ pid) with (String "&" ("list=" +:+ pid)).
  remember (id +:+ String "&" ("list=" +:+ pid)) as tail eqn:Htail.
  unfold extract_playlist_id, urlparse, urlsplit.
  cbv [String.append]. unfold remove_unsafe. simpl.
  match goal with
  | |- context [remove_char "010" (remove_char "013" (remove_char "009" ?x))] =>
      change (remove_char "010" (remove_char "013" (remove_char "009" x)))
        with (remove_unsafe x)
  end.
  subst tail.
  rewrite (remove_unsafe_tail id _ id_ok "&") by reflexivity.
  rewrite (partition_tail id _ id_ok "#" "&") by reflexivity.
  unfold remove_unsafe. cbv [String.append]. pid_simpl.
  unfold qs_first, parse_qsl. simpl.
  rewrite split_char_append
    by (apply (all_chars_absent is_id_char _ id); [reflexivity|exact chars]).
  pid_simpl. rewrite (id_nonempty id id_ok).
  unfold decode_field. pid_simpl. reflexivity.
Qed.

End PlaylistShapes.

(** X26. A playlist URL, and a watch URL that carries a [list]
    parameter after the video, resolve to the playlist identifier. *)
Theorem playlist_url_resolves (pid id : string) :
  valid_playlist_id pid = true -> valid_id id = true ->
  extract_playlist_id (playlist_url pid) = Returned (Some pid) /\
  extract_playlist_id (watch_url id +:+ "&list=" +:+ pid) =
    Returned (Some pid).
Proof.
  intros Hp Hi. split.
  - now apply extract_playlist_url.
  - now apply extract_watch_list.
Qed.

Lemma playlist_url_resolves_witness :
  valid_playlist_id "PLrAXtmErZgOeiKm4sgNOknGvNjby9efdf" = true /\
  valid_id "dQw4w9WgXcQ" = true /\
  extract_playlist_id (playlist_url "PLrAXtmErZgOeiKm4sgNOknGvNjby9efdf") =
    Returned (Some "PLrAXtmErZgOeiKm4sgNOknGvNjby9efdf") /\
  extract_playlist_id
    (watch_url "dQw4w9WgXcQ" +:+ "&list=" +:+
     "PLrAXtmErZgOeiKm4sgNOknGvNjby9efdf") =
    Returned (Some "PLrAXtmErZgOeiKm4sgNOknGvNjby9efdf").
Proof.
  split; [reflexivity|]. split; [reflexivity|].
  apply (playlist_url_resolves "PLrAXtmErZgOeiKm4sgNOknGvNjby9efdf"
           "dQw4w9WgXcQ"); reflexivity.
Defined.

Lemma output_named_by_identifier_witness :
  valid_id "dQw4w9WgXcQ" = true /\
  output_file stub (video_url_of "dQw4w9WgXcQ") "out" summarize [] =
    ("out/dQw4w9WgXcQ_summarize.txt", []) /\
  skip_pattern (video_url_of "dQw4w9WgXcQ") = "*dQw4w9WgXcQ*.txt".
Proof.
  split; [reflexivity|].
  apply (output_named_by_identifier stub "dQw4w9WgXcQ" "out" summarize []).
  reflexivity.
Defined.

End PlaylistIds.

Module ApiFacts.
Import PyStr Filename FilenameFacts Api.

Lemma head_ok_append s t : s <> EmptyString -> head_ok s -> head_ok (s +:+ t).
Proof. destruct s; [contradiction|auto]. Qed.

Lemma last_ok_append s t : t <> EmptyString -> last_ok t -> last_ok (s +:+ t).
Proof.
  intros Ht Hl. induction s as [|a s IH]; [exact Hl|].
  change (String a s +:+ t) with (String a (s +:+ t)).
  apply last_ok_cons. destruct (s +:+ t) eqn:E; [|exact IH].
  destruct s; [cbn in E; contradiction|discriminate].
Qed.

Lemma join_two sep w w' ws :
  join sep (w :: w' :: ws) = w +:+ sep +:+ join sep (w' :: ws).
Proof. reflexivity. Qed.

(** Words that are trimmed and not empty, joined by single spaces. *)
Lemma join_trimmed ws :
  Forall (fun w => w <> EmptyString /\ head_ok w /\ last_ok w) ws ->
  head_ok (join " " ws) /\ last_ok (join " " ws) /\
  (join " " ws = EmptyString <-> ws = []).
Proof.
  induction 1 as [|w ws (Hn & Hh & Hl) Hws IH].
  - cbn. repeat split; auto.
  - destruct ws as [|w' ws'].
    + cbn [join]. repeat split; auto; [contradiction|discriminate].
    + rewrite join_two. destruct IH as (IH1 & IH2 & IH3).
      inversion Hws as [|? ? (Hn' & _) _]; subst.
      assert (Hj : join " " (w' :: ws') <> EmptyString)
        by now apply join_nonempty.
      split; [now apply head_ok_append|]. split.
      * apply last_ok_append; [discriminate|].
        change (" " +:+ join " " (w' :: ws'))
          with (String " " (join " " (w' :: ws'))).
        apply last_ok_cons.
        destruct (join " " (w' :: ws')); [contradiction|exact IH2].
      * split; [|discriminate]. destruct w; [contradiction|discriminate].
Qed.

Lemma truthy_nonempty s : truthy s = true <-> s <> EmptyString.
Proof. destruct s; cbn; split; congruence. Qed.

Lemma kept_words texts :
  Forall (fun w => w <> EmptyString /\ head_ok w /\ last_ok w)
    (List.filter truthy (List.map strip texts)).
Proof.
  apply List.Forall_forall. intros w Hw.
  apply List.filter_In in Hw as [Hin Ht].
  apply List.in_map_iff in Hin as (t & <- & _).
  split; [now apply truthy_nonempty|]. unfold strip. split.
  - apply head_ok_rstrip, head_ok_lstrip.
  - apply last_ok_rstrip.
Qed.

(** X27. The plain text that [format_transcript] makes of the captions
    neither starts nor ends with whitespace, and it is empty exactly
    when every caption is blank. *)
Theorem format_plain_trimmed (texts : list string) :
  let r := format_plain texts in
  no_leading_whitespace r /\
  no_trailing_whitespace r /\
  (r = EmptyString <-> Forall (fun t => strip t = EmptyString) texts).
Proof.
  cbv zeta. unfold format_plain.
  destruct (join_trimmed _ (kept_words texts)) as (Hh & Hl & He).
  split; [now apply head_ok_positions|].
  split; [now apply last_ok_positions|].
  rewrite He. clear. induction texts as [|t texts IH].
  - cbn. split; auto.
  - cbn [List.map List.filter]. destruct (strip t) eqn:E; cbn [truthy].
    + rewrite IH. split; [now constructor|now inversion 1].
    + split; [discriminate|]. inversion 1; congruence.
Qed.

End ApiFacts.
